(** * LibHTTP: the startup path [mg_start] (src/httplib_start.c)

    A shallow embedding of [mg_start] as a state monad with an early
    [return], over a world made of the allocator's heap, the process-wide
    thread-local-storage globals, the running threads and a trace of every
    call that leaves the function.  The answers of the outside world
    (allocation results, pthread results, the option collaborators, thread
    creation) are read from an [env] record, so that the function is
    executable and every failure path can be driven.

    The definitions come first: the C library functions used, the data
    model, the monad, the primitives of libhttp-private.h, [mg_start]
    itself phase by phase, the observations the theorems are stated
    with, and a step semantics for several callers running lines 63-86
    at the same time.  Then the proofs: the order of the option
    collaborators, the option list, the worker-thread count, the worker
    threads, the values stored in [ctx->config], the one-time creation
    of [sTlsKey], and runs of a sample build. *)

From Stdlib Require Import ZArith Lia Ascii String.
From stdpp Require Import base option list gmap strings.

(** ** Integers and strings of the C library *)

Definition INT_MAX : Z := 2147483647.
Definition INT_MIN : Z := -2147483648.

(** A [long] of 64 bits (the LP64 data model). *)
Definition LONG_MAX : Z := 9223372036854775807.
Definition LONG_MIN : Z := -9223372036854775808.

(** Two's-complement wrap of a C [int], and the cast to [unsigned]. *)
Definition wrap_int (z : Z) : Z := ((z + 2 ^ 31) mod 2 ^ 32 - 2 ^ 31)%Z.
Definition to_unsigned (z : Z) : Z := (z mod 2 ^ 32)%Z.

Definition isspace (c : ascii) : bool :=
  let n := nat_of_ascii c in
  Nat.eqb n 32 || (Nat.leb 9 n && Nat.leb n 13).

Definition digit_of (c : ascii) : option Z :=
  let n := Z.of_nat (nat_of_ascii c) in
  if (48 <=? n)%Z && (n <=? 57)%Z then Some (n - 48)%Z else None.

Fixpoint skip_spaces (s : string) : string :=
  match s with
  | String c s' => if isspace c then skip_spaces s' else s
  | EmptyString => s
  end.

Fixpoint read_digits (acc : Z) (s : string) : Z :=
  match s with
  | String c s' =>
      match digit_of c with
      | Some d => read_digits (10 * acc + d)%Z s'
      | None => acc
      end
  | EmptyString => acc
  end.

(** [strtol(s, NULL, 10)]: leading white space, an optional sign, decimal
    digits; a value that does not fit a [long] is replaced by [LONG_MAX]
    or [LONG_MIN]. *)
Definition strtol (s : string) : Z :=
  let s1 := skip_spaces s in
  let v :=
    match s1 with
    | String "-"%char s2 => (- read_digits 0 s2)%Z
    | String "+"%char s2 => read_digits 0 s2
    | _ => read_digits 0 s1
    end in
  Z.max LONG_MIN (Z.min LONG_MAX v).

(** [atoi].  The C standard leaves the result undefined when the value
    does not fit an [int]; the GNU C library defines [atoi(s)] as
    [(int) strtol(s, NULL, 10)], and the conversion to [int] keeps the low
    32 bits: [atoi] of 4294967297 is 1. *)
Definition atoi (s : string) : Z := wrap_int (strtol s).

(** ** Data model *)

(** Function pointers of [struct mg_callbacks] that [mg_start] looks at;
    [None] is a NULL pointer, [Some f] the address of a user function. *)
Record mg_callbacks := Callbacks {
  init_context : option nat;
  exit_context : option nat;
}.

(** [struct mg_context], the fields [mg_start] reads or writes.  Pointers
    are heap addresses, [None] is NULL; [mg_calloc] zeroes the structure. *)
Record mg_context := Context {
  auth_nonce_mask : Z;
  callbacks : mg_callbacks;
  user_data : Z;
  config : list (option nat);
  cfg_worker_threads : Z;
  workerthreadids : option nat;
  client_wait_events : option nat;
  client_socks : option nat;
  context_type : Z;
  masterthreadid : nat;
}.

(** [struct mg_workerTLS], the value stored under [sTlsKey]. *)
Record mg_workerTLS := WorkerTLS {
  is_master : Z;
  thread_idx : Z;
}.

(** What a heap block holds. *)
Inductive block :=
| BContext
| BString (s : string)
| BThreadIds (ids : list nat)
| BWaitEvents (evs : list Z)
| BClientSocks (n : nat)
| BWorkerArgs (index : nat).

Inductive thread :=
| master_thread
| worker_thread (index : nat).

Inductive collaborator :=
| set_gpass_option
| set_ssl_option
| set_ports_option
| set_uid_option
| set_acl_option.

(** The messages [mg_start] hands to [mg_cry], with their arguments. *)
Inductive message :=
| CannotInitTLS
| CannotInitSync
| InvalidOption (name : string)
| OptionValueNull (name : string)
| DuplicateOption (name : string)
| DocumentRootSet
| TooManyWorkerThreads
| NoMemoryThreadIds
| NoMemoryEvents
| NoMemorySocks
| ErrorCreatingEvent (i : nat)
| ErrorCreatingTimers
| CannotStartWorker (number : nat) (errno : Z)
| CannotCreateThreads (errno : Z).

(** Calls that leave [mg_start], in the order they are made. *)
Inductive event :=
| EvCry (m : message)
| EvAlloc (b : block) (result : option nat)
| EvFree (p : nat)
| EvAtomicInc (result : Z)
| EvAtomicDec (result : Z)
| EvKeyCreate (ok : bool)
| EvSleep (ms : Z)
| EvSetSpecific (v : option mg_workerTLS)
| EvCollaborator (c : collaborator) (ok : bool)
| EvGetSystemName
| EvIgnoreSigpipe
| EvEventCreate (i : nat) (handle : Z)
| EvTimersInit (ok : bool)
| EvInitContext (f : nat)
| EvFreeContext (p : nat)
| EvStartThread (t : thread) (ok : bool).

#[global] Instance block_eq_dec : EqDecision block.
Proof. solve_decision. Defined.
#[global] Instance thread_eq_dec : EqDecision thread.
Proof. solve_decision. Defined.
#[global] Instance collaborator_eq_dec : EqDecision collaborator.
Proof. solve_decision. Defined.
#[global] Instance message_eq_dec : EqDecision message.
Proof. solve_decision. Defined.
#[global] Instance mg_workerTLS_eq_dec : EqDecision mg_workerTLS.
Proof. solve_decision. Defined.
#[global] Instance event_eq_dec : EqDecision event.
Proof. solve_decision. Defined.

(** The world [mg_start] runs in. *)
Record world := World {
  heap : gmap nat block;         (* live blocks of the allocator *)
  next_ptr : nat;                (* next fresh address, never reused *)
  bad_frees : list nat;          (* addresses freed while not live *)
  sTlsInit : Z;                  (* static volatile int sTlsInit *)
  thread_idx_max : Z;            (* static volatile int thread_idx_max *)
  tls_keys : nat;                (* keys made by pthread_key_create *)
  tls_slot : option mg_workerTLS;  (* the caller's value under sTlsKey *)
  threads : list thread;         (* threads started and never stopped *)
  trace : list event;
  ctx : mg_context;              (* contents of the context block *)
}.

Definition set_heap (h : gmap nat block) (w : world) : world :=
  World h (next_ptr w) (bad_frees w) (sTlsInit w) (thread_idx_max w)
        (tls_keys w) (tls_slot w) (threads w) (trace w) (ctx w).
Definition set_next_ptr (n : nat) (w : world) : world :=
  World (heap w) n (bad_frees w) (sTlsInit w) (thread_idx_max w)
        (tls_keys w) (tls_slot w) (threads w) (trace w) (ctx w).
Definition set_bad_frees (l : list nat) (w : world) : world :=
  World (heap w) (next_ptr w) l (sTlsInit w) (thread_idx_max w)
        (tls_keys w) (tls_slot w) (threads w) (trace w) (ctx w).
Definition set_sTlsInit (v : Z) (w : world) : world :=
  World (heap w) (next_ptr w) (bad_frees w) v (thread_idx_max w)
        (tls_keys w) (tls_slot w) (threads w) (trace w) (ctx w).
Definition set_thread_idx_max (v : Z) (w : world) : world :=
  World (heap w) (next_ptr w) (bad_frees w) (sTlsInit w) v
        (tls_keys w) (tls_slot w) (threads w) (trace w) (ctx w).
Definition set_tls_keys (n : nat) (w : world) : world :=
  World (heap w) (next_ptr w) (bad_frees w) (sTlsInit w) (thread_idx_max w)
        n (tls_slot w) (threads w) (trace w) (ctx w).
Definition set_tls_slot (v : option mg_workerTLS) (w : world) : world :=
  World (heap w) (next_ptr w) (bad_frees w) (sTlsInit w) (thread_idx_max w)
        (tls_keys w) v (threads w) (trace w) (ctx w).
Definition set_threads (l : list thread) (w : world) : world :=
  World (heap w) (next_ptr w) (bad_frees w) (sTlsInit w) (thread_idx_max w)
        (tls_keys w) (tls_slot w) l (trace w) (ctx w).
Definition set_trace (l : list event) (w : world) : world :=
  World (heap w) (next_ptr w) (bad_frees w) (sTlsInit w) (thread_idx_max w)
        (tls_keys w) (tls_slot w) (threads w) l (ctx w).
Definition set_ctx (c : mg_context) (w : world) : world :=
  World (heap w) (next_ptr w) (bad_frees w) (sTlsInit w) (thread_idx_max w)
        (tls_keys w) (tls_slot w) (threads w) (trace w) c.

Definition set_callbacks (cb : mg_callbacks) (c : mg_context) : mg_context :=
  Context (auth_nonce_mask c) cb (user_data c) (config c)
          (cfg_worker_threads c) (workerthreadids c) (client_wait_events c)
          (client_socks c) (context_type c) (masterthreadid c).
Definition set_user_data (v : Z) (c : mg_context) : mg_context :=
  Context (auth_nonce_mask c) (callbacks c) v (config c)
          (cfg_worker_threads c) (workerthreadids c) (client_wait_events c)
          (client_socks c) (context_type c) (masterthreadid c).
Definition set_auth_nonce_mask (v : Z) (c : mg_context) : mg_context :=
  Context v (callbacks c) (user_data c) (config c)
          (cfg_worker_threads c) (workerthreadids c) (client_wait_events c)
          (client_socks c) (context_type c) (masterthreadid c).
Definition set_config (l : list (option nat)) (c : mg_context) : mg_context :=
  Context (auth_nonce_mask c) (callbacks c) (user_data c) l
          (cfg_worker_threads c) (workerthreadids c) (client_wait_events c)
          (client_socks c) (context_type c) (masterthreadid c).
Definition set_cfg_worker_threads (n : Z) (c : mg_context) : mg_context :=
  Context (auth_nonce_mask c) (callbacks c) (user_data c) (config c)
          n (workerthreadids c) (client_wait_events c)
          (client_socks c) (context_type c) (masterthreadid c).
Definition set_workerthreadids (p : option nat) (c : mg_context) : mg_context :=
  Context (auth_nonce_mask c) (callbacks c) (user_data c) (config c)
          (cfg_worker_threads c) p (client_wait_events c)
          (client_socks c) (context_type c) (masterthreadid c).
Definition set_client_wait_events (p : option nat) (c : mg_context) : mg_context :=
  Context (auth_nonce_mask c) (callbacks c) (user_data c) (config c)
          (cfg_worker_threads c) (workerthreadids c) p
          (client_socks c) (context_type c) (masterthreadid c).
Definition set_client_socks (p : option nat) (c : mg_context) : mg_context :=
  Context (auth_nonce_mask c) (callbacks c) (user_data c) (config c)
          (cfg_worker_threads c) (workerthreadids c) (client_wait_events c)
          p (context_type c) (masterthreadid c).
Definition set_context_type (v : Z) (c : mg_context) : mg_context :=
  Context (auth_nonce_mask c) (callbacks c) (user_data c) (config c)
          (cfg_worker_threads c) (workerthreadids c) (client_wait_events c)
          (client_socks c) v (masterthreadid c).
Definition set_masterthreadid (t : nat) (c : mg_context) : mg_context :=
  Context (auth_nonce_mask c) (callbacks c) (user_data c) (config c)
          (cfg_worker_threads c) (workerthreadids c) (client_wait_events c)
          (client_socks c) (context_type c) t.

(** ** The monad: state, [return], undefined behaviour *)

Inductive outcome (A : Type) :=
| Next (a : A) (w : world)              (* control reaches the next statement *)
| Return (r : option nat) (w : world)   (* [return r;] NULL is [None] *)
| Undefined (w : world).                (* behaviour C leaves undefined *)
Arguments Next {A} a w.
Arguments Return {A} r w.
Arguments Undefined {A} w.

Definition M (A : Type) : Type := world → outcome A.

#[global] Instance M_ret : MRet M := λ A a w, Next a w.
#[global] Instance M_bind : MBind M := λ A B f m w,
  match m w with
  | Next a w' => f a w'
  | Return r w' => Return r w'
  | Undefined w' => Undefined w'
  end.

Definition get_world : M world := λ w, Next w w.
Definition modify (f : world → world) : M unit := λ w, Next tt (f w).
Definition return_ {A} (r : option nat) : M A := λ w, Return r w.
Definition undefined {A} : M A := λ w, Undefined w.

Definition emit (e : event) : M unit :=
  modify (λ w, set_trace (trace w ++ [e]) w).
Definition modify_ctx (f : mg_context → mg_context) : M unit :=
  modify (λ w, set_ctx (f (ctx w)) w).
Definition get_ctx : M mg_context := λ w, Next (ctx w) w.

(** ** The outside world *)

(** What the environment answers to the calls of one run of [mg_start]:
    [true] is success.  Allocations are indexed by their place in the
    source, thread creations by the worker index. *)
Record env := Env {
  calloc_ctx_ok : bool;                 (* line 58 *)
  get_random : Z;                       (* line 61 *)
  options_addr : Z;                     (* (ptrdiff_t)options, line 61 *)
  pthread_key_create_ok : bool;         (* line 73 *)
  thread_mutex_ok : bool;               (* line 99 *)
  sq_empty_ok : bool;                   (* line 101 *)
  sq_full_ok : bool;                    (* line 102 *)
  nonce_mutex_ok : bool;                (* line 104 *)
  strdup_option_ok : nat → bool;        (* line 142, k-th name/value pair *)
  strdup_default_ok : nat → bool;       (* line 150, option index *)
  collaborator_ok : collaborator → bool;  (* lines 167-175 *)
  calloc_workerthreadids_ok : bool;     (* line 199 *)
  calloc_client_wait_events_ok : bool;  (* line 208 *)
  calloc_client_socks_ok : bool;        (* line 219 *)
  event_create : nat → Z;               (* line 230, 0 is failure *)
  timers_init_ok : bool;                (* line 240 *)
  master_thread_started : bool;         (* line 256 *)
  malloc_wta_ok : nat → bool;           (* line 261, worker index *)
  worker_thread_started : nat → bool;   (* line 268, worker index *)
  ERRNO : Z;
}.

(** ** Primitives declared in libhttp-private.h *)

(** [mg_calloc], [mg_malloc]: a fresh block, or NULL when out of memory. *)
Definition mg_calloc (ok : bool) (b : block) : M (option nat) :=
  w ← get_world;
  if ok then
    modify (λ w, set_trace (trace w ++ [EvAlloc b (Some (next_ptr w))])
                   (set_next_ptr (S (next_ptr w))
                      (set_heap (<[next_ptr w:=b]> (heap w)) w)));;
    mret (Some (next_ptr w))
  else
    emit (EvAlloc b None);;
    mret None.

Definition mg_malloc := mg_calloc.

(** [mg_strdup]: a fresh block holding a copy of the string, or NULL. *)
Definition mg_strdup (ok : bool) (s : string) : M (option nat) :=
  mg_calloc ok (BString s).

(** [mg_free]: releases a live block; [mg_free(NULL)] does nothing; a
    block that is not live is recorded in [bad_frees]. *)
Definition mg_free (p : option nat) : M unit :=
  match p with
  | None => mret tt
  | Some a =>
      emit (EvFree a);;
      modify (λ w,
        match heap w !! a with
        | Some _ => set_heap (delete a (heap w)) w
        | None => set_bad_frees (bad_frees w ++ [a]) w
        end)
  end.

Definition mg_cry (m : message) : M unit := emit (EvCry m).

Definition mg_sleep (ms : Z) : M unit := emit (EvSleep ms).

(** Modelled from the spec: [mg_atomic_inc(&sTlsInit)] and
    [mg_atomic_dec(&sTlsInit)] are defined outside httplib_start.c.  The
    spec has "an atomic increment returning 1" for the first caller: one
    atomic read-modify-write that returns the new value. *)
Definition mg_atomic_inc_sTlsInit : M Z :=
  modify (λ w, set_trace (trace w ++ [EvAtomicInc (wrap_int (sTlsInit w + 1))])
                 (set_sTlsInit (wrap_int (sTlsInit w + 1)) w));;
  w ← get_world;
  mret (sTlsInit w).

Definition mg_atomic_dec_sTlsInit : M Z :=
  modify (λ w, set_trace (trace w ++ [EvAtomicDec (wrap_int (sTlsInit w - 1))])
                 (set_sTlsInit (wrap_int (sTlsInit w - 1)) w));;
  w ← get_world;
  mret (sTlsInit w).

Definition mg_atomic_inc_thread_idx_max : M Z :=
  modify (λ w, set_thread_idx_max (wrap_int (thread_idx_max w + 1)) w);;
  w ← get_world;
  mret (thread_idx_max w).

Definition pthread_key_create (ok : bool) : M bool :=
  emit (EvKeyCreate ok);;
  (if ok then modify (λ w, set_tls_keys (S (tls_keys w)) w) else mret tt);;
  mret ok.

Definition pthread_setspecific (v : option mg_workerTLS) : M unit :=
  emit (EvSetSpecific v);;
  modify (set_tls_slot v).

(** [mg_start_thread_with_id]: on success a thread runs from now on and
    its identifier is handed back for the caller's [pthread_t] slot. *)
Definition mg_start_thread_with_id (t : thread) (ok : bool) : M (option nat) :=
  emit (EvStartThread t ok);;
  if ok then
    w ← get_world;
    modify (set_threads (threads w ++ [t]));;
    mret (Some (S (length (threads w))))
  else mret None.

Fixpoint free_all (l : list (option nat)) : M unit :=
  match l with
  | [] => mret tt
  | p :: l' => mg_free p;; free_all l'
  end.

(** [ctx->workerthreadids[i] = tid], through the pointer. *)
Definition store_thread_id (i tid : nat) : M unit :=
  c ← get_ctx;
  w ← get_world;
  match workerthreadids c with
  | Some p =>
      match heap w !! p with
      | Some (BThreadIds ids) =>
          if decide (i < length ids)
          then modify (set_heap (<[p:=BThreadIds (<[i:=tid]> ids)]> (heap w)))
          else undefined
      | _ => undefined
      end
  | None => undefined
  end.

(** [ctx->client_wait_events[i] = h], through the pointer. *)
Definition store_wait_event (i : nat) (h : Z) : M unit :=
  c ← get_ctx;
  w ← get_world;
  match client_wait_events c with
  | Some p =>
      match heap w !! p with
      | Some (BWaitEvents evs) =>
          if decide (i < length evs)
          then modify (set_heap (<[p:=BWaitEvents (<[i:=h]> evs)]> (heap w)))
          else undefined
      | _ => undefined
      end
  | None => undefined
  end.

(** ** The build

    What the build fixes: the option table [config_options] (name and
    default value of each entry before the NULL terminator), the lookup
    [get_option_index] (-1 for an unknown name), the indices and the limit
    the source names, and the preprocessor switches. *)
Record build := Build {
  config_options : list (string * option string);
  get_option_index : string → Z;
  NUM_THREADS : nat;
  DOCUMENT_ROOT : nat;
  MAX_WORKER_THREADS : Z;
  ALTERNATIVE_QUEUE : bool;
  NO_SSL : bool;
  WIN32 : bool;
  USE_TIMERS : bool;
  NO_FILES : bool;
}.

(** ** [mg_start] *)

Section start.

Variable B : build.
Variable E : env.

Definition NUM_OPTIONS : nat := length (config_options B).

(** The context as [mg_calloc] leaves it at line 58: every field zero. *)
Definition zero_context : mg_context :=
  Context 0 (Callbacks None None) 0 (replicate NUM_OPTIONS None)
          0 None None None 0 0.

(** Modelled from the spec: [free_context] is defined outside
    httplib_start.c.  The spec has the rollback "free every resource
    allocated so far" and the release of "all context-owned resources
    (configuration strings, socket lists, queue buffers/slot arrays,
    synchronization primitives)"; joining threads is a separate, earlier
    step of [stop].  Of these the memory blocks are modelled: every
    configuration string, the slot arrays of the alternative queue, the
    worker-handle list and the context itself. *)
Definition free_context (ctxp : nat) : M unit :=
  emit (EvFreeContext ctxp);;
  c ← get_ctx;
  free_all (config c);;
  (if (ALTERNATIVE_QUEUE B)
   then mg_free (client_socks c);; mg_free (client_wait_events c)
   else mret tt);;
  mg_free (workerthreadids c);;
  mg_free (Some ctxp).

(** The three statements that end every failure path after line 120:
    [free_context(ctx); pthread_setspecific(sTlsKey, NULL); return NULL;] *)
Definition abort_start {A} (ctxp : nat) : M A :=
  free_context ctxp;;
  pthread_setspecific None;;
  return_ None.

(** Lines 57-61. *)
Definition allocate_context : M nat :=
  p ← mg_calloc (calloc_ctx_ok E) BContext;
  match p with
  | None => return_ None
  | Some ctxp =>
      modify_ctx (λ _, zero_context);;
      modify_ctx (set_auth_nonce_mask
                    (Z.lxor (get_random E mod 2 ^ 64) (options_addr E mod 2 ^ 64)));;
      mret ctxp
  end.

(** Lines 63-93: the one-time creation of [sTlsKey] and the registration
    of the calling thread. *)
Definition init_thread_local_storage (ctxp : nat) : M unit :=
  n ← mg_atomic_inc_sTlsInit;
  (if decide (n = 1%Z) then
     ok ← pthread_key_create (pthread_key_create_ok E);
     if ok : bool then mret tt
     else
       mg_atomic_dec_sTlsInit;;
       mg_cry CannotInitTLS;;
       mg_free (Some ctxp);;
       return_ None
   else mg_sleep 1);;
  idx ← mg_atomic_inc_thread_idx_max;
  pthread_setspecific (Some (WorkerTLS (-1) (to_unsigned idx))).

(** Lines 99-112. *)
Definition init_sync_objects (ctxp : nat) : M unit :=
  let ok := thread_mutex_ok E
            && (if ALTERNATIVE_QUEUE B then true else sq_empty_ok E && sq_full_ok E)
            && nonce_mutex_ok E in
  if ok then mret tt
  else
    mg_cry CannotInitSync;;
    mg_free (Some ctxp);;
    pthread_setspecific None;;
    return_ None.

(** Lines 114-120; the result is the local [exit_callback]. *)
Definition copy_callbacks (cbs : option mg_callbacks) (ud : Z) : M (option nat) :=
  exit_callback ←
    match cbs with
    | Some cb =>
        modify_ctx (set_callbacks (Callbacks (init_context cb) None));;
        mret (exit_context cb)
    | None => mret None
    end;
  modify_ctx (set_user_data ud);;
  mret exit_callback.

(** Lines 138-143: the value of option [idx] is stored; [old] is what
    [ctx->config[idx]] held, [k] the number of the name/value pair. *)
Definition store_option (k idx : nat) (name value : string) (old : option nat) :
    M unit :=
  match old with
  | Some q => mg_cry (DuplicateOption name);; mg_free (Some q)
  | None => mret tt
  end;;
  p ← mg_strdup (strdup_option_ok E k) value;
  modify_ctx (λ c, set_config (<[idx:=p]> (config c)) c).

(** Lines 126-144: the loop over the name/value list; [k] counts the
    pairs read so far.  The end of the list is the NULL terminator. *)
Fixpoint parse_options (ctxp : nat) (k : nat) (options : list string) : M unit :=
  match options with
  | [] => mret tt
  | name :: rest =>
      let idx := get_option_index B name in
      if decide (idx = (-1)%Z) then
        mg_cry (InvalidOption name);;
        abort_start ctxp
      else
        match rest with
        | [] =>
            mg_cry (OptionValueNull name);;
            abort_start ctxp
        | value :: rest' =>
            c ← get_ctx;
            match (if decide (0 ≤ idx)%Z then config c !! Z.to_nat idx else None) with
            | None => undefined
            | Some old =>
                store_option k (Z.to_nat idx) name value old;;
                parse_options ctxp (S k) rest'
            end
        end
  end.

(** Lines 148-151: the default of option [i] is stored when it has one
    and the caller gave no value; [cur] is what [ctx->config[i]] holds. *)
Definition store_default (i : nat) (cur : option nat)
    (default_value : option string) : M unit :=
  match cur, default_value with
  | None, Some d =>
      p ← mg_strdup (strdup_default_ok E i) d;
      modify_ctx (λ c, set_config (<[i:=p]> (config c)) c)
  | _, _ => mret tt
  end.

(** Lines 146-152: the loop over [config_options], from entry [i] on. *)
Fixpoint set_default_values (i : nat) (table : list (string * option string)) : M unit :=
  match table with
  | [] => mret tt
  | (_, default_value) :: table' =>
      c ← get_ctx;
      match config c !! i with
      | None => undefined
      | Some cur =>
          store_default i cur default_value;;
          set_default_values (S i) table'
      end
  end.

(** Lines 154-161. *)
Definition check_document_root (ctxp : nat) : M unit :=
  if NO_FILES B then
    c ← get_ctx;
    match config c !! DOCUMENT_ROOT B with
    | None => undefined
    | Some None => mret tt
    | Some (Some _) => mg_cry DocumentRootSet;; abort_start ctxp
    end
  else mret tt.

(** One collaborator, [set_..._option(ctx)]. *)
Definition call_collaborator (c : collaborator) : M bool :=
  emit (EvCollaborator c (collaborator_ok E c));;
  mret (collaborator_ok E c).

(** The collaborators the build compiles into the condition of line 167,
    in the order it names them. *)
Definition compiled_collaborators : list collaborator :=
  [set_gpass_option]
  ++ (if NO_SSL B then [] else [set_ssl_option])
  ++ [set_ports_option]
  ++ (if WIN32 B then [] else [set_uid_option])
  ++ [set_acl_option].

(** [!c1(ctx) || !c2(ctx) || ...], evaluated left to right. *)
Fixpoint any_refuses (cs : list collaborator) : M bool :=
  match cs with
  | [] => mret false
  | c :: cs' =>
      ok ← call_collaborator c;
      if ok : bool then any_refuses cs' else mret true
  end.

(** Lines 165-179. *)
Definition set_options (ctxp : nat) : M unit :=
  failed ← any_refuses compiled_collaborators;
  if failed : bool then abort_start ctxp else mret tt.

(** Lines 181-185. *)
Definition ignore_sigpipe : M unit :=
  if WIN32 B then mret tt else emit EvIgnoreSigpipe.

(** Lines 187-194; the result is the local [workerthreadcount]. *)
Definition read_worker_thread_count (ctxp : nat) : M Z :=
  c ← get_ctx;
  w ← get_world;
  match config c !! NUM_THREADS B with
  | Some (Some p) =>
      match heap w !! p with
      | Some (BString s) =>
          let workerthreadcount := atoi s in
          if decide (workerthreadcount > MAX_WORKER_THREADS B)%Z then
            mg_cry TooManyWorkerThreads;;
            abort_start ctxp
          else mret workerthreadcount
      | _ => undefined
      end
  | _ => undefined
  end.

(** Lines 229-235, from event [i] on, [count] events to go. *)
Fixpoint create_wait_events (i count : nat) : M unit :=
  match count with
  | 0 => mret tt
  | S count' =>
      emit (EvEventCreate i (event_create E i));;
      store_wait_event i (event_create E i);;
      (if decide (event_create E i = 0%Z)
       then mg_cry (ErrorCreatingEvent i)
       else mret tt);;
      create_wait_events (S i) count'
  end.

(** Lines 196-237. *)
Definition allocate_worker_arrays (ctxp : nat) (workerthreadcount : Z) : M unit :=
  if decide (workerthreadcount > 0)%Z then
    modify_ctx (set_cfg_worker_threads (to_unsigned workerthreadcount));;
    c ← get_ctx;
    let n := Z.to_nat (cfg_worker_threads c) in
    ids ← mg_calloc (calloc_workerthreadids_ok E) (BThreadIds (replicate n 0));
    modify_ctx (set_workerthreadids ids);;
    match ids with
    | None => mg_cry NoMemoryThreadIds;; abort_start ctxp
    | Some _ => mret tt
    end;;
    if ALTERNATIVE_QUEUE B then
      evs ← mg_calloc (calloc_client_wait_events_ok E) (BWaitEvents (replicate n 0%Z));
      modify_ctx (set_client_wait_events evs);;
      match evs with
      | None =>
          mg_cry NoMemoryEvents;;
          mg_free ids;;
          abort_start ctxp
      | Some _ => mret tt
      end;;
      socks ← mg_calloc (calloc_client_socks_ok E) (BClientSocks n);
      modify_ctx (set_client_socks socks);;
      c ← get_ctx;
      match client_wait_events c with
      | None =>
          mg_cry NoMemorySocks;;
          mg_free (client_socks c);;
          mg_free (workerthreadids c);;
          abort_start ctxp
      | Some _ => mret tt
      end;;
      create_wait_events 0 n
    else mret tt
  else mret tt.

(** Lines 239-246. *)
Definition init_timers (ctxp : nat) : M unit :=
  if USE_TIMERS B then
    emit (EvTimersInit (timers_init_ok E));;
    if timers_init_ok E then mret tt
    else mg_cry ErrorCreatingTimers;; abort_start ctxp
  else mret tt.

(** Lines 248-253. *)
Definition init_user_context (exit_callback : option nat) : M unit :=
  c ← get_ctx;
  match init_context (callbacks c) with
  | Some f => emit (EvInitContext f)
  | None => mret tt
  end;;
  modify_ctx (λ c, set_callbacks (Callbacks (init_context (callbacks c)) exit_callback) c);;
  modify_ctx (set_context_type 1).

(** Lines 255-256; the result of [mg_start_thread_with_id] is ignored. *)
Definition start_master_thread : M unit :=
  r ← mg_start_thread_with_id master_thread (master_thread_started E);
  match r with
  | Some tid => modify_ctx (set_masterthreadid tid)
  | None => mret tt
  end.

(** Lines 260-270: worker [i]; the result is the local [wta] and whether
    the thread was created. *)
Definition spawn_worker (i : nat) : M (option nat * bool) :=
  wta ← mg_malloc (malloc_wta_ok E i) (BWorkerArgs i);
  match wta with
  | None => mret (wta, false)
  | Some _ =>
      r ← mg_start_thread_with_id (worker_thread i) (worker_thread_started E i);
      match r with
      | Some tid => store_thread_id i tid;; mret (wta, true)
      | None => mret (wta, false)
      end
  end.

(** Lines 272-289: the thread of worker [i] was not created.  Falling
    through is the [break] of line 290. *)
Definition worker_not_created (ctxp : nat) (i : nat) (wta : option nat) : M unit :=
  mg_free wta;;
  if decide (0 < i) then
    mg_cry (CannotStartWorker (i + 1) (ERRNO E))
  else
    mg_cry (CannotCreateThreads (ERRNO E));;
    abort_start ctxp.

(** Lines 258-292, from worker [i] on, [count] workers to go. *)
Fixpoint start_worker_threads (ctxp : nat) (i count : nat) : M unit :=
  match count with
  | 0 => mret tt
  | S count' =>
      '(wta, started) ← spawn_worker i;
      if started : bool then start_worker_threads ctxp (S i) count'
      else worker_not_created ctxp i wta
  end.

(** Lines 63-120: thread-local storage, the synchronization objects and
    the callbacks.  The result is the local [exit_callback]. *)
Definition register_caller (ctxp : nat) (cbs : option mg_callbacks) (ud : Z) :
    M (option nat) :=
  init_thread_local_storage ctxp;;
  init_sync_objects ctxp;;
  copy_callbacks cbs ud.

(** Lines 63-163: the above, then the option list and the defaults. *)
Definition initialize_context (ctxp : nat) (cbs : option mg_callbacks) (ud : Z)
    (options : option (list string)) : M (option nat) :=
  exit_callback ← register_caller ctxp cbs ud;
  match options with
  | Some l => parse_options ctxp 0 l
  | None => mret tt
  end;;
  set_default_values 0 (config_options B);;
  check_document_root ctxp;;
  emit EvGetSystemName;;
  mret exit_callback.

(** Lines 57-163.  The result is the pair of locals [ctx], [exit_callback]. *)
Definition load_configuration (cbs : option mg_callbacks) (ud : Z)
    (options : option (list string)) : M (nat * option nat) :=
  ctxp ← allocate_context;
  exit_callback ← initialize_context ctxp cbs ud options;
  mret (ctxp, exit_callback).

(** Lines 57-179: everything up to the answers of the collaborators. *)
Definition configure (cbs : option mg_callbacks) (ud : Z)
    (options : option (list string)) : M (nat * option nat) :=
  '(ctxp, exit_callback) ← load_configuration cbs ud options;
  set_options ctxp;;
  mret (ctxp, exit_callback).

(** Lines 181-256: the worker arrays, the user callback, the master. *)
Definition prepare_threads (ctxp : nat) (exit_callback : option nat) : M unit :=
  ignore_sigpipe;;
  workerthreadcount ← read_worker_thread_count ctxp;
  allocate_worker_arrays ctxp workerthreadcount;;
  init_timers ctxp;;
  init_user_context exit_callback;;
  start_master_thread.

(** Lines 258-295. *)
Definition start_workers_and_return (ctxp : nat) : M Empty_set :=
  c ← get_ctx;
  start_worker_threads ctxp 0 (Z.to_nat (cfg_worker_threads c));;
  pthread_setspecific None;;
  return_ (Some ctxp).

Definition mg_start (cbs : option mg_callbacks) (ud : Z)
    (options : option (list string)) : M Empty_set :=
  '(ctxp, exit_callback) ← configure cbs ud options;
  prepare_threads ctxp exit_callback;;
  start_workers_and_return ctxp.

End start.

(** ** Observations of a run *)

Definition world_of {A} (o : outcome A) : world :=
  match o with
  | Next _ w => w
  | Return _ w => w
  | Undefined w => w
  end.

(** The messages handed to [mg_cry], oldest first. *)
Definition cries (evs : list event) : list message :=
  omap (λ e, match e with EvCry m => Some m | _ => None end) evs.

(** The collaborators called, with their answers, oldest first. *)
Definition collaborator_calls (evs : list event) : list (collaborator * bool) :=
  omap (λ e, match e with EvCollaborator c ok => Some (c, ok) | _ => None end) evs.

(** The string [ctx->config[i]] points to; [None] for a NULL entry. *)
Definition config_string (w : world) (i : nat) : option string :=
  match config (ctx w) !! i with
  | Some (Some q) =>
      match heap w !! q with
      | Some (BString s) => Some s
      | _ => None
      end
  | _ => None
  end.

(** The array [ctx->workerthreadids] points to. *)
Definition worker_handles (w : world) : option (list nat) :=
  match workerthreadids (ctx w) with
  | Some q =>
      match heap w !! q with
      | Some (BThreadIds ids) => Some ids
      | _ => None
      end
  | None => None
  end.

(** Worker [i] gets its thread: its argument block is allocated and the
    thread is created (lines 261-270). *)
Definition spawns (E : env) (i : nat) : bool :=
  malloc_wta_ok E i && worker_thread_started E i.

(** How many workers in a row get their thread, from worker [i], out of
    [count]. *)
Fixpoint spawned (E : env) (i count : nat) : nat :=
  match count with
  | 0 => 0
  | S count' => if spawns E i then S (spawned E (S i) count') else 0
  end.

(** A collaborator with the answer the environment gives it. *)
Definition answered (E : env) (c : collaborator) : collaborator * bool :=
  (c, collaborator_ok E c).

(** The collaborators of [cs] up to and including the first one the
    environment makes refuse. *)
Fixpoint until_refusal (E : env) (cs : list collaborator) : list collaborator :=
  match cs with
  | [] => []
  | c :: cs' => c :: (if collaborator_ok E c then until_refusal E cs' else [])
  end.

(** A relation between the world before and the world after, kept by a
    computation whatever its outcome. *)
Definition preserves (R : relation world) {A} (c : M A) : Prop :=
  ∀ w, R w (world_of (c w)).

(** A computation whose only [return] is [return NULL]. *)
Definition returns_null {A} (c : M A) : Prop :=
  ∀ w r w', c w = Return r w' → r = None.

(** A computation that stays within C's defined behaviour. *)
Definition defined {A} (c : M A) : Prop :=
  ∀ w w', c w ≠ Undefined w'.

(** The names of a name/value list: the strings at even positions. *)
Fixpoint option_names (l : list string) : list string :=
  match l with
  | name :: _ :: rest => name :: option_names rest
  | [name] => [name]
  | [] => []
  end.

(** A list [mg_start] rejects: a name no option has, or a last name
    without a value. *)
Definition rejected_options (B : build) (l : list string) : Prop :=
  (∃ name, name ∈ option_names l ∧ get_option_index B name = (-1)%Z)
  ∨ Nat.odd (length l) = true.

(** [get_option_index] answers -1 or an index into [config_options]. *)
Definition index_in_range (B : build) : Prop :=
  ∀ name, get_option_index B name = (-1)%Z
          ∨ (0 ≤ get_option_index B name < Z.of_nat (length (config_options B)))%Z.

(** A computation that never falls through to the next statement. *)
Definition never_next {A} (c : M A) : Prop :=
  ∀ w a w', c w ≠ Next a w'.

(** An observation of the world that is the same again whenever control
    falls through. *)
Definition keeps {X} (obs : world → X) {A} (c : M A) : Prop :=
  ∀ w a w', c w = Next a w' → obs w' = obs w.

(** What the worker pool rests on: the allocator state and the fields of
    the context that describe the pool and the configuration. *)
Definition pool_state (w : world) :=
  (heap w, next_ptr w, config (ctx w), cfg_worker_threads (ctx w),
   workerthreadids (ctx w), client_wait_events (ctx w), client_socks (ctx w)).

(** The context right after its allocation, as far as later steps rely on
    it: the block is live, the configuration strings were allocated after
    it, and no worker pool exists yet. *)
Definition context_ready (ctxp : nat) (w : world) : Prop :=
  heap w !! ctxp = Some BContext
  ∧ ctxp < next_ptr w
  ∧ (∀ i q, config (ctx w) !! i = Some (Some q) → ctxp < q < next_ptr w)
  ∧ cfg_worker_threads (ctx w) = 0%Z
  ∧ workerthreadids (ctx w) = None
  ∧ client_wait_events (ctx w) = None
  ∧ client_socks (ctx w) = None.

(** The worker pool as line 259 finds it: the context block is live, and
    [ctx->workerthreadids] points to a live array [ids] of
    [ctx->cfg_worker_threads] handles (NULL when there are none). *)
Definition pool_allocated (ctxp : nat) (ids : list nat) (w : world) : Prop :=
  heap w !! ctxp = Some BContext
  ∧ ctxp < next_ptr w
  ∧ cfg_worker_threads (ctx w) = Z.of_nat (length ids)
  ∧ match workerthreadids (ctx w) with
    | Some q => ctxp ≠ q ∧ q < next_ptr w ∧ heap w !! q = Some (BThreadIds ids)
    | None => ids = []
    end.

(** The workers the loop of line 259 tried to start: one argument block
    is requested per attempt. *)
Definition worker_attempts (evs : list event) : list nat :=
  omap (λ e, match e with EvAlloc (BWorkerArgs i) _ => Some i | _ => None end) evs.

(** The trace grows, and only by events that pass [p]. *)
Definition extends (p : event → bool) (w w' : world) : Prop :=
  ∃ evs, trace w' = trace w ++ evs ∧ Forall (λ e, p e = true) evs.

(** An observation of the world that does not change. *)
Definition same {X} (obs : world → X) (w w' : world) : Prop := obs w' = obs w.

Definition no_collaborator (e : event) : bool :=
  match e with
  | EvCollaborator _ _ => false
  | _ => true
  end.

(** Neither an allocation of the worker-handle list nor a thread. *)
Definition no_worker_pool (e : event) : bool :=
  match e with
  | EvAlloc (BThreadIds _) _ => false
  | EvStartThread _ _ => false
  | _ => true
  end.

(** Events of a release: the call of [free_context], the [mg_free]
    calls and the reset of the TLS slot. *)
Definition release_event (e : event) : bool :=
  match e with
  | EvFreeContext _ => true
  | EvFree _ => true
  | EvSetSpecific None => true
  | _ => false
  end.

(** What a release does to the world: it logs release events only,
    starts and stops no thread, leaves the context's fields alone and
    makes no block live. *)
Definition releases (w w' : world) : Prop :=
  extends release_event w w'
  ∧ threads w' = threads w
  ∧ ctx w' = ctx w
  ∧ (∀ q, heap w !! q = None → heap w' !! q = None).

(** The events lines 57-163 can log. *)
Definition configuration_event (e : event) : bool :=
  match e with
  | EvCry _ | EvFree _ | EvFreeContext _ | EvAtomicInc _ | EvAtomicDec _
  | EvKeyCreate _ | EvSleep _ | EvSetSpecific _ | EvGetSystemName => true
  | EvAlloc BContext _ | EvAlloc (BString _) _ => true
  | _ => false
  end.

(** The events lines 181-295 can log. *)
Definition launch_event (e : event) : bool :=
  match e with
  | EvCry _ | EvFree _ | EvFreeContext _ | EvSetSpecific _ | EvIgnoreSigpipe
  | EvEventCreate _ _ | EvTimersInit _ | EvInitContext _ | EvStartThread _ _ => true
  | EvAlloc (BThreadIds _) _ | EvAlloc (BWaitEvents _) _
  | EvAlloc (BClientSocks _) _ | EvAlloc (BWorkerArgs _) _ => true
  | _ => false
  end.


(** The value the list gives option [i] at its last occurrence. *)
Fixpoint last_value (B : build) (i : nat) (l : list string) : option string :=
  match l with
  | name :: value :: rest =>
      match last_value B i rest with
      | Some v => Some v
      | None =>
          if decide (get_option_index B name = Z.of_nat i) then Some value else None
      end
  | _ => None
  end.

(** The default [config_options[i].default_value]; [None] for NULL. *)
Definition default_of (B : build) (i : nat) : option string :=
  config_options B !! i ≫= snd.

(** The entries of [ctx->config] that are not NULL point to strings
    allocated so far, each to its own. *)
Definition config_sound (w : world) : Prop :=
  (∀ i q, config (ctx w) !! i = Some (Some q) →
          q < next_ptr w ∧ ∃ s, heap w !! q = Some (BString s))
  ∧ (∀ i j q, config (ctx w) !! i = Some (Some q) →
              config (ctx w) !! j = Some (Some q) → i = j).

(** A relation between the world before and the world after, kept
    whenever control falls through. *)
Definition carries (R : relation world) {A} (c : M A) : Prop :=
  ∀ w a w', c w = Next a w' → R w w'.

(** Once the allocator has reached [N]: the strings below [N] stay and
    [ctx->config] is not written. *)
Definition kept (N : nat) (w w' : world) : Prop :=
  N ≤ next_ptr w →
  N ≤ next_ptr w'
  ∧ config (ctx w') = config (ctx w)
  ∧ ∀ x s, x < N → heap w !! x = Some (BString s) → heap w' !! x = Some (BString s).

(** The names of the list whose option an earlier pair has already set,
    one per such occurrence; [seen] are the indices set before the list. *)
Fixpoint repeated_names (B : build) (seen : list Z) (l : list string) : list string :=
  match l with
  | name :: _ :: rest =>
      (if decide (get_option_index B name ∈ seen) then [name] else [])
      ++ repeated_names B (get_option_index B name :: seen) rest
  | _ => []
  end.

(** Nothing lies beyond the allocator, and every string at or above [N]
    is one that [ctx->config] points to. *)
Definition no_leak (N : nat) (w : world) : Prop :=
  (∀ q, next_ptr w ≤ q → heap w !! q = None)
  ∧ ∀ q s, N ≤ q → heap w !! q = Some (BString s) →
           ∃ i, config (ctx w) !! i = Some (Some q).

Definition no_cry (e : event) : bool :=
  match e with
  | EvCry _ => false
  | _ => true
  end.

(** ** Observations of a whole call *)

(** The fields of the context the caller chooses or [mg_start] sets once. *)
Definition identity_fields (w : world) :=
  (callbacks (ctx w), user_data (ctx w), context_type (ctx w),
   auth_nonce_mask (ctx w)).


(** The events the run has added to the trace of [w0]. *)
Definition new_events (w0 w : world) : list event :=
  drop (length (trace w0)) (trace w).

(** What holds of the world at every [return] of a computation. *)
Definition returns_in (Q : world → Prop) {A} (c : M A) : Prop :=
  ∀ w r w', c w = Return r w' → Q w'.

(** The caller's slot was reset, as the last thing done. *)
Definition reset_last (w : world) : Prop :=
  tls_slot w = None ∧ last (trace w) = Some (EvSetSpecific None).

(** The events of lines 57-246: everything but the user's [init_context]
    and the start of a thread. *)
Definition before_launch (e : event) : bool :=
  match e with
  | EvInitContext _ | EvStartThread _ _ | EvAlloc (BWorkerArgs _) _ => false
  | _ => true
  end.

(** The events of lines 255-295: threads, their argument blocks, and what
    a failure there logs and releases. *)
Definition after_launch (e : event) : bool :=
  match e with
  | EvStartThread _ _ | EvAlloc (BWorkerArgs _) _ | EvFree _ | EvCry _
  | EvFreeContext _ | EvSetSpecific None => true
  | _ => false
  end.

(** The call of the user's [init_context], if there is one. *)
Definition init_call (f : option nat) : list event :=
  match f with
  | Some g => [EvInitContext g]
  | None => []
  end.

(** The trace grows by events of lines 57-246, then the call of
    [init_context], then events of lines 255-295; the last part is there
    only when the call was reached. *)
Definition staged (f : option nat) (w w' : world) : Prop :=
  ∃ pre called post,
    trace w' = trace w ++ pre ++ called ++ post
    ∧ Forall (λ e, before_launch e = true) pre
    ∧ Forall (λ e, after_launch e = true) post
    ∧ (called = [] ∧ post = [] ∨ called = init_call f).

(** The workers whose event could not be created: [event_create]
    answered 0. *)
Definition failed_events (E : env) (i count : nat) : list nat :=
  filter (λ j, event_create E j = 0%Z) (seq i count).

(** The indices of the "Error creating worker event" messages. *)
Definition event_errors (evs : list event) : list nat :=
  omap (λ e, match e with EvCry (ErrorCreatingEvent i) => Some i | _ => None end) evs.

(** The blocks chosen by [keep] that lie below [N] stay as they are, once
    the allocator has reached [N]. *)
Definition stays (keep : block → bool) (N : nat) (w w' : world) : Prop :=
  N ≤ next_ptr w →
  N ≤ next_ptr w'
  ∧ ∀ x b, x < N → keep b = true → heap w !! x = Some b → heap w' !! x = Some b.

(** Every event but the report of an event that could not be created. *)
Definition no_event_error (e : event) : bool :=
  match e with
  | EvCry (ErrorCreatingEvent _) => false
  | _ => true
  end.

(** The array [ctx->client_wait_events] points to. *)
Definition is_wait_events (b : block) : bool :=
  match b with
  | BWaitEvents _ => true
  | _ => false
  end.

(** ** Several callers between line 63 and line 88 *)

(** Where a caller of [mg_start] stands. *)
Inductive entry_pc :=
| at_increment              (* before line 63 *)
| at_key_create             (* line 73: the increment returned 1 *)
| at_decrement              (* line 77: [pthread_key_create] failed *)
| at_give_up                (* lines 78-80 *)
| at_sleep                  (* line 85: the increment returned another value *)
| passed (creator : bool)   (* line 88 is reached *)
| gave_up.                  (* [return NULL] of line 80 *)

#[global] Instance entry_pc_eq_dec : EqDecision entry_pc.
Proof. solve_decision. Defined.

(** One step of a caller: its statements up to and including the next
    access to shared state. *)
Definition entry_step (E : env) (ctxp : nat) (pc : entry_pc) : M entry_pc :=
  match pc with
  | at_increment =>
      n ← mg_atomic_inc_sTlsInit;
      mret (if decide (n = 1%Z) then at_key_create else at_sleep)
  | at_key_create =>
      ok ← pthread_key_create (pthread_key_create_ok E);
      mret (if ok : bool then passed true else at_decrement)
  | at_decrement => mg_atomic_dec_sTlsInit;; mret at_give_up
  | at_give_up => mg_cry CannotInitTLS;; mg_free (Some ctxp);; mret gave_up
  | at_sleep => mg_sleep 1;; mret (passed false)
  | passed _ | gave_up => mret pc
  end.

Definition final (pc : entry_pc) : bool :=
  match pc with passed _ | gave_up => true | _ => false end.

(** A caller's steps one after the other, as a single thread runs them. *)
Fixpoint entry_run (E : env) (ctxp : nat) (steps : nat) (pc : entry_pc) : M entry_pc :=
  match steps with
  | 0 => mret pc
  | S steps' => pc' ← entry_step E ctxp pc; entry_run E ctxp steps' pc'
  end.

Record caller := Caller {
  caller_env : env;          (* what its calls answer *)
  caller_ctx : nat;          (* its [ctx] of line 58 *)
  caller_pc : entry_pc;
  caller_log : list event;   (* the events of its own steps *)
}.

Definition enter (a : env * nat) : caller := Caller a.1 a.2 at_increment [].

(** The shared state and the callers. *)
Definition system : Type := world * list caller.

(** Caller [i] takes its next step. *)
Definition system_step (i : nat) (s : system) : system :=
  match s.2 !! i with
  | Some c =>
      if final (caller_pc c) then s
      else
        match entry_step (caller_env c) (caller_ctx c) (caller_pc c) s.1 with
        | Next pc w =>
            (w, <[i:=Caller (caller_env c) (caller_ctx c) pc
                       (caller_log c ++ drop (length (trace s.1)) (trace w))]> s.2)
        | _ => s
        end
  | None => s
  end.

(** An interleaving: the callers in the order in which they step. *)
Fixpoint run_schedule (schedule : list nat) (s : system) : system :=
  match schedule with
  | [] => s
  | i :: schedule' => run_schedule schedule' (system_step i s)
  end.

Definition count_callers (P : entry_pc → bool) (cs : list caller) : nat :=
  sum_list_with (λ c, if P (caller_pc c) then 1 else 0) cs.

(** The callers whose increment is still in [sTlsInit]. *)
Definition counted (pc : entry_pc) : bool :=
  match pc with
  | at_key_create | at_decrement | at_sleep | passed _ => true
  | _ => false
  end.

(** The callers that read 1 and have not given the counter back. *)
Definition initializer (pc : entry_pc) : bool :=
  match pc with
  | at_key_create | at_decrement | passed true => true
  | _ => false
  end.

Definition creator (pc : entry_pc) : bool :=
  match pc with passed true => true | _ => false end.

Definition failed (pc : entry_pc) : bool :=
  match pc with at_decrement | at_give_up | gave_up => true | _ => false end.

(** What a caller has done, by where it stands. *)
Definition log_at (c : caller) : Prop :=
  match caller_pc c with
  | at_increment => caller_log c = []
  | at_key_create => caller_log c = [EvAtomicInc 1]
  | at_decrement => caller_log c = [EvAtomicInc 1; EvKeyCreate false]
  | at_give_up =>
      ∃ v, caller_log c = [EvAtomicInc 1; EvKeyCreate false; EvAtomicDec v]
  | gave_up =>
      ∃ v, caller_log c = [EvAtomicInc 1; EvKeyCreate false; EvAtomicDec v;
                           EvCry CannotInitTLS; EvFree (caller_ctx c)]
  | at_sleep => ∃ v, v ≠ 1%Z ∧ caller_log c = [EvAtomicInc v]
  | passed true => caller_log c = [EvAtomicInc 1; EvKeyCreate true]
  | passed false => ∃ v, v ≠ 1%Z ∧ caller_log c = [EvAtomicInc v; EvSleep 1]
  end.


Definition identity (c : caller) : env * nat := (caller_env c, caller_ctx c).

(** What every interleaving keeps true. *)
Definition entry_inv (w0 : world) (callers : list (env * nat)) (s : system) : Prop :=
  identity <$> s.2 = callers
  ∧ sTlsInit s.1 = Z.of_nat (count_callers counted s.2)
  ∧ count_callers initializer s.2 ≤ 1
  ∧ tls_keys s.1 = tls_keys w0 + count_callers creator s.2
  ∧ Forall log_at s.2
  ∧ (Forall (λ a, pthread_key_create_ok a.1 = true) callers →
     count_callers failed s.2 = 0
     ∧ (0 < count_callers counted s.2 → count_callers initializer s.2 = 1)).

(** ** A sample build *)

Definition sample_options : list (string * option string) :=
  [("document_root", None); ("num_threads", Some "50");
   ("listening_ports", Some "8080")].

Fixpoint index_from (i : Z) (table : list (string * option string))
    (name : string) : Z :=
  match table with
  | [] => (-1)%Z
  | (n, _) :: table' =>
      if String.eqb n name then i else index_from (i + 1)%Z table' name
  end.

(** The classic queue, SSL and the privilege drop compiled in. *)
Definition sample_build (alternative_queue : bool) : build :=
  Build sample_options (index_from 0 sample_options) 1 0 65536
        alternative_queue false false false false.

(** A world before the first call of [mg_start]. *)
Definition boot : world :=
  World ∅ 1 [] 0 0 0 None [] [] (Context 0 (Callbacks None None) 0 [] 0 None None None 0 0).

(** An environment in which everything succeeds but the string copies,
    the socket-slot array and the worker threads named by the arguments. *)
Definition scenario (copy_ok : nat → bool) (socks_ok : bool)
    (worker_ok : nat → bool) : env :=
  Env true 7 9 true true true true true copy_ok (λ _, true) (λ _, true)
      true true socks_ok (λ i, Z.of_nat (S i)) true true (λ _, true)
      worker_ok 11.

(** An environment in which everything succeeds. *)
Definition fair_weather : env := scenario (λ _, true) true (λ _, true).

(** An environment in which everything succeeds but [set_ports_option]. *)
Definition ports_refused : env :=
  Env true 7 9 true true true true true (λ _, true) (λ _, true)
      (λ c, match c with set_ports_option => false | _ => true end)
      true true true (λ i, Z.of_nat (S i)) true true (λ _, true) (λ _, true) 11.

(** The sample build with the build flags chosen by the arguments. *)
Definition sample_build_with (alternative_queue use_timers no_files : bool) : build :=
  Build sample_options (index_from 0 sample_options) 1 0 65536
        alternative_queue false false use_timers no_files.

(** An environment in which everything succeeds but the allocations and
    initializations named by the arguments; [event] answers for
    [event_create]. *)
Definition weather (ctx_ok key_ok mutex_ok ids_ok events_ok timers_ok : bool)
    (event : nat → Z) : env :=
  Env ctx_ok 7 9 key_ok mutex_ok true true true (λ _, true) (λ _, true)
      (λ _, true) ids_ok events_ok true event timers_ok true (λ _, true)
      (λ _, true) 11.

(** [event_create] fails for worker 1 only. *)
Definition second_event_fails (i : nat) : Z :=
  if decide (i = 1) then 0%Z else Z.of_nat (S i).

(** ** Reasoning about runs *)

Lemma bind_unfold {A B} (m : M A) (f : A → M B) w :
  (m ≫= f) w =
  match m w with
  | Next a w' => f a w'
  | Return r w' => Return r w'
  | Undefined w' => Undefined w'
  end.
Proof. reflexivity. Qed.

Lemma bind_Next_l {A B} (m : M A) (f : A → M B) w a w1 :
  m w = Next a w1 → (m ≫= f) w = f a w1.
Proof. intros H. rewrite bind_unfold, H. reflexivity. Qed.

Lemma bind_Return_l {A B} (m : M A) (f : A → M B) w r w1 :
  m w = Return r w1 → (m ≫= f) w = Return r w1.
Proof. intros H. rewrite bind_unfold, H. reflexivity. Qed.

Lemma bind_Undefined_l {A B} (m : M A) (f : A → M B) w w1 :
  m w = Undefined w1 → (m ≫= f) w = Undefined w1.
Proof. intros H. rewrite bind_unfold, H. reflexivity. Qed.

Lemma bind_Next_inv {A B} (m : M A) (f : A → M B) w b w' :
  (m ≫= f) w = Next b w' → ∃ a w1, m w = Next a w1 ∧ f a w1 = Next b w'.
Proof.
  rewrite bind_unfold. destruct (m w) as [a w1|r w1|w1]; try discriminate.
  intros H. exists a, w1. split; [reflexivity | exact H].
Qed.

Lemma bind_Return_inv {A B} (m : M A) (f : A → M B) w r w' :
  (m ≫= f) w = Return r w' →
  m w = Return r w' ∨ ∃ a w1, m w = Next a w1 ∧ f a w1 = Return r w'.
Proof.
  rewrite bind_unfold. destruct (m w) as [a w1|r1 w1|w1]; try discriminate.
  - intros H. right. exists a, w1. split; [reflexivity | exact H].
  - intros H. left. inversion H. reflexivity.
Qed.

Lemma list_pair_ind {A} (P : list A → Prop) :
  P [] → (∀ x, P [x]) → (∀ x y l, P l → P (x :: y :: l)) → ∀ l, P l.
Proof.
  intros H0 H1 H2. fix IH 1.
  intros [|x [|y l]]; [exact H0 | apply H1 | apply H2, IH].
Qed.

Section preserves.
Context (R : relation world) `{!PreOrder R}.

Lemma preserves_ret {A} (a : A) : preserves R (mret a).
Proof. intros w. simpl. reflexivity. Qed.

Lemma preserves_return {A} r : preserves R (@return_ A r).
Proof. intros w. simpl. reflexivity. Qed.

Lemma preserves_undefined {A} : preserves R (@undefined A).
Proof. intros w. simpl. reflexivity. Qed.

Lemma preserves_get_world : preserves R get_world.
Proof. intros w. simpl. reflexivity. Qed.

Lemma preserves_get_ctx : preserves R get_ctx.
Proof. intros w. simpl. reflexivity. Qed.

Lemma preserves_modify f : (∀ w, R w (f w)) → preserves R (modify f).
Proof. intros H w. apply H. Qed.

Lemma preserves_bind {A B} (m : M A) (f : A → M B) :
  preserves R m → (∀ a, preserves R (f a)) → preserves R (m ≫= f).
Proof.
  intros Hm Hf w. rewrite bind_unfold. specialize (Hm w).
  destruct (m w) as [a w1|r w1|w1]; simpl in *; try exact Hm.
  etrans; [exact Hm | apply Hf].
Qed.

End preserves.

#[global] Instance extends_preorder p : PreOrder (extends p).
Proof.
  split.
  - intros w. exists []. split; [by rewrite app_nil_r | constructor].
  - intros w1 w2 w3 (e1 & H1 & F1) (e2 & H2 & F2). exists (e1 ++ e2). split.
    + by rewrite H2, H1, app_assoc.
    + by apply Forall_app.
Qed.

#[global] Instance same_preorder {X} (obs : world → X) : PreOrder (same obs).
Proof.
  split.
  - intros w. reflexivity.
  - intros w1 w2 w3 H1 H2. unfold same in *. congruence.
Qed.

Lemma extends_silent p w w' : trace w' = trace w → extends p w w'.
Proof. intros H. exists []. split; [by rewrite app_nil_r | constructor]. Qed.

Lemma extends_one p w w' e :
  trace w' = trace w ++ [e] → p e = true → extends p w w'.
Proof. intros H He. exists [e]. split; [exact H | by repeat constructor]. Qed.

Ltac head_of t :=
  lazymatch t with
  | ?f _ => head_of f
  | _ => t
  end.

(** Leaves of [extends p]: a world update either leaves the trace alone
    or appends one event accepted by [p]. *)
Ltac extends_leaf :=
  let w := fresh "w" in
  intros w;
  first [ apply extends_silent; reflexivity
        | eapply extends_one; [reflexivity | reflexivity]
        | destruct (heap w !! _);
          first [ apply extends_silent; reflexivity
                | eapply extends_one; [reflexivity | reflexivity] ] ].

Ltac same_leaf :=
  let w := fresh "w" in
  intros w; unfold same;
  first [ reflexivity | destruct (heap w !! _); reflexivity ].

(** One step through the syntax of a computation; [lemmas] closes the
    calls of recursive functions, [leaf] the world updates. *)
Ltac preserves_step lemmas leaf :=
  lazymatch goal with
  | |- preserves ?R (mret _) => apply (preserves_ret R)
  | |- preserves ?R (return_ _) => apply (preserves_return R)
  | |- preserves ?R undefined => apply (preserves_undefined R)
  | |- preserves ?R get_world => apply (preserves_get_world R)
  | |- preserves ?R get_ctx => apply (preserves_get_ctx R)
  | |- preserves ?R (modify _) => apply (preserves_modify R); leaf
  | |- preserves ?R (mbind _ _) => apply (preserves_bind R); [ | intros ? ]
  | |- preserves _ (match ?x with _ => _ end) => destruct x
  | |- preserves _ ?c =>
      first [ solve [lemmas]
            | let h := head_of c in unfold h ]
  end.

Ltac preserves_auto lemmas leaf := repeat (preserves_step lemmas leaf).

Lemma returns_null_ret {A} (a : A) : returns_null (mret a).
Proof. intros w r w' H. discriminate. Qed.

Lemma returns_null_return {A} : returns_null (@return_ A None).
Proof. intros w r w' [= <- _]. reflexivity. Qed.

Lemma returns_null_undefined {A} : returns_null (@undefined A).
Proof. intros w r w' H. discriminate. Qed.

Lemma returns_null_get_world : returns_null get_world.
Proof. intros w r w' H. discriminate. Qed.

Lemma returns_null_get_ctx : returns_null get_ctx.
Proof. intros w r w' H. discriminate. Qed.

Lemma returns_null_modify f : returns_null (modify f).
Proof. intros w r w' H. discriminate. Qed.

Lemma returns_null_bind {A B} (m : M A) (f : A → M B) :
  returns_null m → (∀ a, returns_null (f a)) → returns_null (m ≫= f).
Proof.
  intros Hm Hf w r w' H. apply bind_Return_inv in H as [H|(a & w1 & _ & H)].
  - by eapply Hm.
  - by eapply Hf.
Qed.

Ltac returns_null_step lemmas :=
  lazymatch goal with
  | |- returns_null (mret _) => apply returns_null_ret
  | |- returns_null (return_ None) => apply returns_null_return
  | |- returns_null undefined => apply returns_null_undefined
  | |- returns_null get_world => apply returns_null_get_world
  | |- returns_null get_ctx => apply returns_null_get_ctx
  | |- returns_null (modify _) => apply returns_null_modify
  | |- returns_null (mbind _ _) => apply returns_null_bind; [ | intros ? ]
  | |- returns_null (match ?x with _ => _ end) => destruct x
  | |- returns_null ?c =>
      first [ solve [lemmas]
            | let h := head_of c in unfold h ]
  end.

Ltac returns_null_auto lemmas := repeat (returns_null_step lemmas).

(** ** Releasing memory *)

#[global] Instance releases_preorder : PreOrder releases.
Proof.
  split.
  - intros w. repeat split; try done; reflexivity.
  - intros w1 w2 w3 (E1 & T1 & C1 & N1) (E2 & T2 & C2 & N2). repeat split.
    + by etrans.
    + congruence.
    + congruence.
    + auto.
Qed.

Lemma releases_emit e w :
  release_event e = true → releases w (set_trace (trace w ++ [e]) w).
Proof.
  intros He. repeat split; try done.
  eapply extends_one; [reflexivity | exact He].
Qed.

Lemma mg_free_run p w :
  ∃ w', mg_free p w = Next tt w' ∧ releases w w'
    ∧ (∀ q, p = Some q → heap w' !! q = None).
Proof.
  destruct p as [a|]; simpl.
  - unfold mg_free, emit, modify. rewrite bind_unfold. simpl.
    eexists. split; [reflexivity|].
    destruct (heap w !! a) eqn:Ha; simpl.
    + repeat split; try reflexivity.
      * eapply extends_one; [reflexivity | reflexivity].
      * simpl. intros q Hq. rewrite lookup_delete_None. by right.
      * intros q [= <-]. apply lookup_delete_eq.
    + repeat split; try reflexivity.
      * eapply extends_one; [reflexivity | reflexivity].
      * auto.
      * intros q [= <-]. exact Ha.
  - exists w. repeat split; try done; reflexivity.
Qed.

Lemma free_all_run l w :
  ∃ w', free_all l w = Next tt w' ∧ releases w w'.
Proof.
  revert w. induction l as [|p l IH]; intros w; simpl.
  - exists w. split; [done | reflexivity].
  - destruct (mg_free_run p w) as (w1 & H1 & R1 & _).
    destruct (IH w1) as (w2 & H2 & R2).
    exists w2. rewrite (bind_Next_l _ _ _ _ _ H1).
    split; [exact H2 | by etrans].
Qed.

Section release.
Context (B : build).

Lemma free_context_run ctxp w :
  ∃ w', free_context B ctxp w = Next tt w'
    ∧ releases (set_trace (trace w ++ [EvFreeContext ctxp]) w) w'
    ∧ heap w' !! ctxp = None.
Proof.
  unfold free_context.
  rewrite bind_unfold. unfold emit at 1, modify at 1. cbv beta iota.
  set (w1 := set_trace _ w).
  rewrite bind_unfold. unfold get_ctx at 1. cbv beta iota.
  destruct (free_all_run (config (ctx w1)) w1) as (w2 & H2 & R2).
  rewrite (bind_Next_l _ _ _ _ _ H2).
  assert (∃ w3, (if ALTERNATIVE_QUEUE B
                 then mg_free (client_socks (ctx w1));; mg_free (client_wait_events (ctx w1))
                 else mret ()) w2 = Next tt w3 ∧ releases w2 w3) as (w3 & H3 & R3).
  { destruct (ALTERNATIVE_QUEUE B).
    - destruct (mg_free_run (client_socks (ctx w1)) w2) as (wa & Ha & Ra & _).
      destruct (mg_free_run (client_wait_events (ctx w1)) wa) as (wb & Hb & Rb & _).
      exists wb. rewrite (bind_Next_l _ _ _ _ _ Ha). split; [exact Hb | by etrans].
    - exists w2. split; [done | reflexivity]. }
  rewrite (bind_Next_l _ _ _ _ _ H3).
  destruct (mg_free_run (workerthreadids (ctx w1)) w3) as (w4 & H4 & R4 & _).
  rewrite (bind_Next_l _ _ _ _ _ H4).
  destruct (mg_free_run (Some ctxp) w4) as (w5 & H5 & R5 & N5).
  exists w5. split; [exact H5|]. split; [|by apply N5].
  etrans; [exact R2|]. etrans; [exact R3|]. by etrans.
Qed.

(** Every failure path after line 120 returns NULL with the context block
    released, the threads as they were, and nothing but the release in the
    trace. *)
Lemma abort_start_run {A} ctxp w :
  ∃ w', @abort_start B A ctxp w = Return None w'
    ∧ releases (set_trace (trace w ++ [EvFreeContext ctxp]) w) w'
    ∧ heap w' !! ctxp = None.
Proof.
  unfold abort_start.
  destruct (free_context_run ctxp w) as (w1 & H1 & R1 & N1).
  rewrite (bind_Next_l _ _ _ _ _ H1).
  unfold pthread_setspecific, emit, modify, return_. rewrite !bind_unfold. simpl.
  eexists. split; [reflexivity|]. split; [|exact N1].
  etrans; [exact R1|]. repeat split; try done.
  eapply extends_one; [reflexivity | reflexivity].
Qed.

End release.

(** ** Phases of [mg_start], one property at a time *)

Section phases.
Context (B : build) (E : env).

Lemma free_all_returns_null l : returns_null (free_all l).
Proof. induction l; simpl; returns_null_auto ltac:(exact IHl). Qed.

Lemma abort_start_returns_null {A} ctxp : returns_null (@abort_start B A ctxp).
Proof. returns_null_auto ltac:(apply free_all_returns_null). Qed.

Lemma parse_options_returns_null ctxp k l :
  returns_null (parse_options B E ctxp k l).
Proof.
  revert k. induction l as [|name|name value rest IH] using list_pair_ind;
    intros k; simpl;
    returns_null_auto ltac:(first [apply abort_start_returns_null | apply IH]).
Qed.

Lemma set_default_values_returns_null i t :
  returns_null (set_default_values E i t).
Proof.
  revert i. induction t as [|[n d] t IH]; intros i; simpl;
    returns_null_auto ltac:(apply IH).
Qed.

Lemma load_configuration_returns_null cbs ud options :
  returns_null (load_configuration B E cbs ud options).
Proof.
  returns_null_auto ltac:(first [ apply abort_start_returns_null
                                | apply parse_options_returns_null
                                | apply set_default_values_returns_null ]).
Qed.

Lemma any_refuses_returns_null cs : returns_null (any_refuses E cs).
Proof. induction cs; simpl; returns_null_auto ltac:(exact IHcs). Qed.

Lemma configure_returns_null cbs ud options :
  returns_null (configure B E cbs ud options).
Proof.
  returns_null_auto ltac:(first [ apply load_configuration_returns_null
                                | apply abort_start_returns_null
                                | apply any_refuses_returns_null ]).
Qed.

Lemma create_wait_events_returns_null i count :
  returns_null (create_wait_events E i count).
Proof.
  revert i. induction count as [|count IH]; intros i; simpl;
    returns_null_auto ltac:(apply IH).
Qed.

Lemma prepare_threads_returns_null ctxp exit_callback :
  returns_null (prepare_threads B E ctxp exit_callback).
Proof.
  returns_null_auto ltac:(first [ apply abort_start_returns_null
                                | apply create_wait_events_returns_null ]).
Qed.

Lemma start_worker_threads_returns_null ctxp i count :
  returns_null (start_worker_threads B E ctxp i count).
Proof.
  revert i. induction count as [|count IH]; intros i; simpl;
    returns_null_auto ltac:(first [apply abort_start_returns_null | apply IH]).
Qed.

Lemma extends_mono (p q : event → bool) w w' :
  (∀ e, p e = true → q e = true) → extends p w w' → extends q w w'.
Proof.
  intros Hpq (evs & T & F). exists evs. split; [exact T|].
  eapply Forall_impl; [exact F | exact Hpq].
Qed.

Lemma free_all_extends p l :
  (∀ e, release_event e = true → p e = true) →
  preserves (extends p) (free_all l).
Proof.
  intros Hp w. destruct (free_all_run l w) as (w' & -> & R & _). simpl.
  eapply extends_mono; [exact Hp | exact R].
Qed.

Ltac release_accepted :=
  let e := fresh "e" in
  let He := fresh "He" in
  intros e He; destruct e; try discriminate He; reflexivity.

Lemma abort_start_configuration {A} ctxp :
  preserves (extends configuration_event) (@abort_start B A ctxp).
Proof.
  preserves_auto ltac:(apply free_all_extends; release_accepted) extends_leaf.
Qed.

Lemma parse_options_configuration ctxp k l :
  preserves (extends configuration_event) (parse_options B E ctxp k l).
Proof.
  revert k. induction l as [|name|name value rest IH] using list_pair_ind;
    intros k; simpl;
    preserves_auto ltac:(first [apply abort_start_configuration | apply IH])
                   extends_leaf.
Qed.

Lemma set_default_values_configuration i t :
  preserves (extends configuration_event) (set_default_values E i t).
Proof.
  revert i. induction t as [|[n d] t IH]; intros i; simpl;
    preserves_auto ltac:(apply IH) extends_leaf.
Qed.

Lemma load_configuration_events cbs ud options :
  preserves (extends configuration_event) (load_configuration B E cbs ud options).
Proof.
  preserves_auto ltac:(first [ apply abort_start_configuration
                             | apply parse_options_configuration
                             | apply set_default_values_configuration ])
                 extends_leaf.
Qed.

Lemma abort_start_launch {A} ctxp :
  preserves (extends launch_event) (@abort_start B A ctxp).
Proof.
  preserves_auto ltac:(apply free_all_extends; release_accepted) extends_leaf.
Qed.

Lemma create_wait_events_launch i count :
  preserves (extends launch_event) (create_wait_events E i count).
Proof.
  revert i. induction count as [|count IH]; intros i; simpl;
    preserves_auto ltac:(apply IH) extends_leaf.
Qed.

Lemma prepare_threads_launch ctxp exit_callback :
  preserves (extends launch_event) (prepare_threads B E ctxp exit_callback).
Proof.
  preserves_auto ltac:(first [ apply abort_start_launch
                             | apply create_wait_events_launch ])
                 extends_leaf.
Qed.

Lemma start_worker_threads_launch ctxp i count :
  preserves (extends launch_event) (start_worker_threads B E ctxp i count).
Proof.
  revert i. induction count as [|count IH]; intros i; simpl;
    preserves_auto ltac:(first [apply abort_start_launch | apply IH])
                   extends_leaf.
Qed.

Lemma start_workers_and_return_launch ctxp :
  preserves (extends launch_event) (start_workers_and_return B E ctxp).
Proof.
  preserves_auto ltac:(apply start_worker_threads_launch) extends_leaf.
Qed.

End phases.
(** ** The option collaborators (lines 165-179) *)

Lemma collaborator_calls_app evs1 evs2 :
  collaborator_calls (evs1 ++ evs2) = collaborator_calls evs1 ++ collaborator_calls evs2.
Proof. apply omap_app. Qed.

Lemma collaborator_calls_quiet evs :
  Forall (λ e, no_collaborator e = true) evs → collaborator_calls evs = [].
Proof.
  induction 1 as [|e evs He _ IH]; [reflexivity|].
  destruct e; try discriminate He; exact IH.
Qed.

Lemma configuration_event_quiet evs :
  Forall (λ e, configuration_event e = true) evs → collaborator_calls evs = [].
Proof.
  intros H. apply collaborator_calls_quiet. eapply Forall_impl; [exact H|].
  intros [] He; try discriminate He; reflexivity.
Qed.

Lemma launch_event_quiet evs :
  Forall (λ e, launch_event e = true) evs → collaborator_calls evs = [].
Proof.
  intros H. apply collaborator_calls_quiet. eapply Forall_impl; [exact H|].
  intros [] He; try discriminate He; reflexivity.
Qed.

Lemma release_event_quiet evs :
  Forall (λ e, release_event e = true) evs → collaborator_calls evs = [].
Proof.
  intros H. apply collaborator_calls_quiet. eapply Forall_impl; [exact H|].
  intros [] He; try discriminate He; reflexivity.
Qed.

Section collaborators.
Context (B : build) (E : env).

Lemma collaborator_calls_answered cs :
  collaborator_calls ((λ c, EvCollaborator c (collaborator_ok E c)) <$> cs)
  = answered E <$> cs.
Proof. induction cs as [|c cs IH]; simpl; [reflexivity | by f_equal]. Qed.

(** The condition of line 167 calls the collaborators from the left and
    stops after the first that refuses. *)
Lemma any_refuses_run cs w :
  ∃ called failed w',
    any_refuses E cs w = Next failed w'
    ∧ trace w' = trace w ++ ((λ c, EvCollaborator c (collaborator_ok E c)) <$> called)
    ∧ called `prefix_of` cs
    ∧ (failed = false → called = cs)
    ∧ (∀ i c, called !! i = Some c → collaborator_ok E c = false →
         S i = length called ∧ failed = true)
    ∧ called = until_refusal E cs.
Proof.
  revert w. induction cs as [|c cs IH]; intros w; simpl.
  - exists [], false, w. repeat split; try done. by rewrite app_nil_r.
  - unfold call_collaborator, emit, modify. rewrite !bind_unfold. simpl.
    destruct (collaborator_ok E c) eqn:Hc.
    + destruct (IH (set_trace (trace w ++ [EvCollaborator c true]) w))
        as (called & failed & w' & H & T & P & F & L & U).
      exists (c :: called), failed, w'. repeat split.
      * exact H.
      * rewrite T. simpl. rewrite Hc. by rewrite <- app_assoc.
      * by apply prefix_cons.
      * intros Hf. by rewrite F.
      * destruct i as [|i]; simpl in *.
        -- congruence.
        -- destruct (L i c0) as [L1 L2]; auto.
      * destruct i as [|i]; simpl in *.
        -- congruence.
        -- by destruct (L i c0).
      * by rewrite U.
    + exists [c], true. eexists. repeat split.
      * simpl. by rewrite Hc.
      * apply prefix_cons, prefix_nil.
      * discriminate.
      * destruct i as [|[|i]]; simpl in *; congruence.
Qed.

Lemma compiled_collaborators_order :
  compiled_collaborators B `sublist_of`
    [set_gpass_option; set_ssl_option; set_ports_option; set_uid_option; set_acl_option].
Proof.
  unfold compiled_collaborators. destruct (NO_SSL B), (WIN32 B); simpl;
    repeat first [ apply sublist_nil | apply sublist_skip | apply sublist_cons ].
Qed.

Lemma allocate_context_Next w0 ctxp wa :
  allocate_context B E w0 = Next ctxp wa →
  ctxp = next_ptr w0
  ∧ trace wa = trace w0 ++ [EvAlloc BContext (Some ctxp)]
  ∧ heap wa = <[ctxp:=BContext]> (heap w0)
  ∧ next_ptr wa = S ctxp
  ∧ threads wa = threads w0
  ∧ ctx wa = set_auth_nonce_mask
               (Z.lxor (get_random E mod 2 ^ 64) (options_addr E mod 2 ^ 64))
               (zero_context B).
Proof.
  unfold allocate_context, mg_calloc, get_world, modify_ctx, modify, emit, modify.
  rewrite !bind_unfold. simpl.
  destruct (calloc_ctx_ok E); simpl; [|discriminate].
  intros [= <- <-]. simpl. repeat split.
Qed.

Lemma load_configuration_Next cbs ud options w0 ctxp exit_callback w1 :
  load_configuration B E cbs ud options w0 = Next (ctxp, exit_callback) w1 →
  ∃ wa, allocate_context B E w0 = Next ctxp wa
        ∧ initialize_context B E ctxp cbs ud options wa = Next exit_callback w1.
Proof.
  unfold load_configuration. intros H.
  apply bind_Next_inv in H as (p & wa & Ha & H).
  apply bind_Next_inv in H as (x & wb & Hb & H).
  injection H as -> -> ->. by exists wa.
Qed.

Lemma initialize_context_events ctxp cbs ud options :
  preserves (extends configuration_event) (initialize_context B E ctxp cbs ud options).
Proof.
  preserves_auto ltac:(first [ apply abort_start_configuration
                             | apply parse_options_configuration
                             | apply set_default_values_configuration ])
                 extends_leaf.
Qed.

Lemma launch_events ctxp exit_callback :
  preserves (extends launch_event)
    (prepare_threads B E ctxp exit_callback;; start_workers_and_return B E ctxp).
Proof.
  preserves_auto ltac:(first [ apply prepare_threads_launch
                             | apply start_workers_and_return_launch ])
                 extends_leaf.
Qed.

Lemma load_configuration_trace cbs ud options w0 ctxp exit_callback w1 :
  load_configuration B E cbs ud options w0 = Next (ctxp, exit_callback) w1 →
  ∃ evs, trace w1 = trace w0 ++ EvAlloc BContext (Some ctxp) :: evs
         ∧ Forall (λ e, configuration_event e = true) evs.
Proof.
  intros H. apply load_configuration_Next in H as (wa & Ha & Hb).
  apply allocate_context_Next in Ha as (_ & Ta & _).
  destruct (initialize_context_events ctxp cbs ud options wa) as (evs & T & F).
  rewrite Hb in T. simpl in T. exists evs. split; [|exact F].
  rewrite T, Ta. by rewrite <- app_assoc.
Qed.

Lemma answered_fst l : (answered E <$> l).*1 = l.
Proof. induction l; simpl; [done | by f_equal]. Qed.

Lemma answered_truthful l :
  Forall (λ call, call.2 = collaborator_ok E call.1) (answered E <$> l).
Proof.
  apply Forall_forall. intros x Hx.
  apply list_elem_of_fmap in Hx as (c & -> & _). reflexivity.
Qed.

End collaborators.

(** C3.  [mg_start] calls the option collaborators in the order
    credential file, SSL (unless [NO_SSL]), listening ports, privilege
    drop (unless [_WIN32]), access-control list: the calls found in the
    trace of any run are a prefix of that list, each with the answer the
    environment gave; once lines 57-163 have gone through they are that
    list up to and including the first collaborator that refuses; a call
    answered [false] is the last one, and then [mg_start] has handed its
    context to [free_context], the block is no longer live, and the
    result is NULL; a run that returns a context has called them all. *)
Theorem collaborators_run_in_order (B : build) (E : env) cbs ud options w0 :
  let order :=
    [set_gpass_option]
    ++ (if NO_SSL B then [] else [set_ssl_option])
    ++ [set_ports_option]
    ++ (if WIN32 B then [] else [set_uid_option])
    ++ [set_acl_option] in
  ∃ evs,
    trace (world_of (mg_start B E cbs ud options w0)) = trace w0 ++ evs
    ∧ (collaborator_calls evs).*1 `prefix_of` order
    ∧ order `sublist_of`
        [set_gpass_option; set_ssl_option; set_ports_option;
         set_uid_option; set_acl_option]
    ∧ Forall (λ call, call.2 = collaborator_ok E call.1) (collaborator_calls evs)
    ∧ (∀ r w1, load_configuration B E cbs ud options w0 = Next r w1 →
         (collaborator_calls evs).*1 = until_refusal E order)
    ∧ (∀ i c, collaborator_calls evs !! i = Some (c, false) →
         S i = length (collaborator_calls evs)
         ∧ ∃ p w, mg_start B E cbs ud options w0 = Return None w
                  ∧ EvAlloc BContext (Some p) ∈ evs
                  ∧ EvFreeContext p ∈ evs
                  ∧ heap w !! p = None)
    ∧ (∀ p w, mg_start B E cbs ud options w0 = Return (Some p) w →
         (collaborator_calls evs).*1 = order).
Proof.
  intros order. change order with (compiled_collaborators B). clear order.
  pose proof (compiled_collaborators_order B) as Hord.
  remember (compiled_collaborators B) as cs eqn:Hcs.
  destruct (load_configuration B E cbs ud options w0)
    as [[ctxp ecb] w1|r w1|w1] eqn:Hload.
  - destruct (load_configuration_trace B E _ _ _ _ _ _ _ Hload) as (evs1 & T1 & F1).
    pose proof (configuration_event_quiet _ F1) as Q1.
    destruct (any_refuses_run E cs w1)
      as (called & failed & w2 & H2 & T2 & P2 & A2 & L2 & U2).
    rewrite T1 in T2.
    set (asked := (λ c, EvCollaborator c (collaborator_ok E c)) <$> called) in *.
    assert (collaborator_calls asked = answered E <$> called) as Hasked
      by apply collaborator_calls_answered.
    destruct failed.
    + (* a collaborator refused: lines 176-178 *)
      destruct (abort_start_run B (A:=unit) ctxp w2) as (w3 & H3 & (Rel & _) & N3).
      destruct Rel as (evs3 & T3 & F3). simpl in T3.
      assert (mg_start B E cbs ud options w0 = Return None w3) as Hrun.
      { unfold mg_start, configure. rewrite !bind_unfold, Hload. cbv beta iota.
        unfold set_options. rewrite !bind_unfold, <- Hcs, H2. cbv beta iota.
        by rewrite H3. }
      rewrite Hrun. simpl.
      exists ([EvAlloc BContext (Some ctxp)] ++ evs1 ++ asked
              ++ [EvFreeContext ctxp] ++ evs3).
      rewrite !collaborator_calls_app, Q1, Hasked.
      rewrite (release_event_quiet _ F3). simpl. rewrite app_nil_r, answered_fst.
      split_and!; try done.
      * rewrite T3, T2. by rewrite <- !app_assoc.
      * apply answered_truthful.
      * intros i c Hi. apply list_lookup_fmap_Some in Hi as (c' & Hc' & Hi).
        injection Hc' as -> Hok. rewrite length_fmap. symmetry in Hok.
        split; [by destruct (L2 i c') |].
        exists ctxp, w3. split_and!; [done | | | done].
        -- apply elem_of_cons. by left.
        -- apply elem_of_cons. right. rewrite !elem_of_app. right. right.
           apply elem_of_cons. by left.
    + (* all agreed: the run goes on to lines 181-295 *)
      specialize (A2 eq_refl). subst called.
      destruct (launch_events B E ctxp ecb w2) as (evs3 & T3 & F3).
      assert (mg_start B E cbs ud options w0
              = (prepare_threads B E ctxp ecb;; start_workers_and_return B E ctxp) w2)
        as Hrun.
      { unfold mg_start, configure. rewrite !bind_unfold, Hload. cbv beta iota.
        unfold set_options. rewrite !bind_unfold, <- Hcs, H2. cbv beta iota.
        unfold mret, M_ret. cbv beta iota. by rewrite ?bind_unfold. }
      rewrite Hrun.
      exists ([EvAlloc BContext (Some ctxp)] ++ evs1 ++ asked ++ evs3).
      rewrite !collaborator_calls_app, Q1, Hasked.
      rewrite (launch_event_quiet _ F3). simpl. rewrite app_nil_r, answered_fst.
      split_and!; try done.
      * rewrite T3, T2. by rewrite <- !app_assoc.
      * apply answered_truthful.
      * intros i c Hi. apply list_lookup_fmap_Some in Hi as (c' & Hc' & Hi).
        injection Hc' as -> Hok. symmetry in Hok. by destruct (L2 i c').
  - (* lines 57-163 returned *)
    destruct (load_configuration_events B E cbs ud options w0) as (evs1 & T1 & F1).
    rewrite Hload in T1. simpl in T1.
    pose proof (load_configuration_returns_null B E cbs ud options _ _ _ Hload) as ->.
    assert (mg_start B E cbs ud options w0 = Return None w1) as Hrun.
    { unfold mg_start, configure. by rewrite !bind_unfold, Hload. }
    rewrite Hrun. simpl. exists evs1.
    rewrite (configuration_event_quiet _ F1). simpl.
    split_and!; try done. apply prefix_nil.
  - destruct (load_configuration_events B E cbs ud options w0) as (evs1 & T1 & F1).
    rewrite Hload in T1. simpl in T1.
    assert (mg_start B E cbs ud options w0 = Undefined w1) as Hrun.
    { unfold mg_start, configure. by rewrite !bind_unfold, Hload. }
    rewrite Hrun. simpl. exists evs1.
    rewrite (configuration_event_quiet _ F1). simpl.
    split_and!; try done. apply prefix_nil.
Qed.

(** ** The option list (lines 126-144) *)

Lemma bind_assoc {A B C} (m : M A) (f : A → M B) (g : B → M C) w :
  ((m ≫= f) ≫= g) w = (m ≫= λ a, f a ≫= g) w.
Proof. rewrite !bind_unfold. destruct (m w); reflexivity. Qed.

Lemma defined_ret {A} (a : A) : defined (mret a).
Proof. intros w w' H. discriminate. Qed.

Lemma defined_return {A} r : defined (@return_ A r).
Proof. intros w w' H. discriminate. Qed.

Lemma defined_get_world : defined get_world.
Proof. intros w w' H. discriminate. Qed.

Lemma defined_get_ctx : defined get_ctx.
Proof. intros w w' H. discriminate. Qed.

Lemma defined_modify f : defined (modify f).
Proof. intros w w' H. discriminate. Qed.

Lemma defined_bind {A B} (m : M A) (f : A → M B) :
  defined m → (∀ a, defined (f a)) → defined (m ≫= f).
Proof.
  intros Hm Hf w w'. rewrite bind_unfold.
  destruct (m w) as [a w1|r w1|w1] eqn:H; try discriminate.
  - apply Hf.
  - by apply Hm in H.
Qed.

Ltac defined_step lemmas :=
  lazymatch goal with
  | |- defined (mret _) => apply defined_ret
  | |- defined (return_ _) => apply defined_return
  | |- defined get_world => apply defined_get_world
  | |- defined get_ctx => apply defined_get_ctx
  | |- defined (modify _) => apply defined_modify
  | |- defined (mbind _ _) => apply defined_bind; [ | intros ? ]
  | |- defined (match ?x with _ => _ end) => destruct x
  | |- defined ?c =>
      first [ solve [lemmas]
            | let h := head_of c in unfold h ]
  end.

Ltac defined_auto lemmas := repeat (defined_step lemmas).

Lemma free_all_same_threads l : preserves (same threads) (free_all l).
Proof.
  intros w. destruct (free_all_run l w) as (w' & -> & _ & T & _). exact T.
Qed.

Lemma free_all_same_config l :
  preserves (same (λ w, config (ctx w))) (free_all l).
Proof.
  intros w. destruct (free_all_run l w) as (w' & -> & _ & _ & C & _).
  unfold same. simpl. by rewrite C.
Qed.

Lemma free_all_defined l : defined (free_all l).
Proof. intros w w' H. destruct (free_all_run l w) as (w1 & H1 & _). congruence. Qed.

Section options.
Context (B : build) (E : env).

Lemma abort_start_same_threads {A} ctxp :
  preserves (same threads) (@abort_start B A ctxp).
Proof. preserves_auto ltac:(apply free_all_same_threads) same_leaf. Qed.

Lemma parse_options_same_threads ctxp k l :
  preserves (same threads) (parse_options B E ctxp k l).
Proof.
  revert k. induction l as [|name|name value rest IH] using list_pair_ind;
    intros k; simpl;
    preserves_auto ltac:(first [apply abort_start_same_threads | apply IH])
                   same_leaf.
Qed.

Lemma set_default_values_same_threads i t :
  preserves (same threads) (set_default_values E i t).
Proof.
  revert i. induction t as [|[n d] t IH]; intros i; simpl;
    preserves_auto ltac:(apply IH) same_leaf.
Qed.

Lemma load_configuration_same_threads cbs ud options :
  preserves (same threads) (load_configuration B E cbs ud options).
Proof.
  preserves_auto ltac:(first [ apply abort_start_same_threads
                             | apply parse_options_same_threads
                             | apply set_default_values_same_threads ])
                 same_leaf.
Qed.

(** Lines 63-120 neither touch [ctx->config] nor leave C's defined
    behaviour. *)
Lemma register_caller_same_config ctxp cbs ud :
  preserves (same (λ w, config (ctx w))) (register_caller B E ctxp cbs ud).
Proof. preserves_auto fail same_leaf. Qed.

Lemma register_caller_defined ctxp cbs ud :
  defined (register_caller B E ctxp cbs ud).
Proof. defined_auto fail. Qed.

Lemma register_caller_returns_null ctxp cbs ud :
  returns_null (register_caller B E ctxp cbs ud).
Proof. returns_null_auto fail. Qed.

(** One name/value pair, lines 138-143. *)
Lemma store_option_run k i name value old w :
  let p := if strdup_option_ok E k then Some (next_ptr w) else None in
  ∃ w', store_option E k i name value old w = Next tt w'
    ∧ ctx w' = set_config (<[i:=p]> (config (ctx w))) (ctx w)
    ∧ next_ptr w' = (if strdup_option_ok E k then S (next_ptr w) else next_ptr w)
    ∧ threads w' = threads w
    ∧ trace w' = trace w
                 ++ match old with
                    | Some q => [EvCry (DuplicateOption name); EvFree q]
                    | None => []
                    end
                 ++ [EvAlloc (BString value) p]
    ∧ heap w' = (if strdup_option_ok E k
                 then <[next_ptr w:=BString value]>
                 else id)
                  (match old with
                   | Some q => delete q (heap w)
                   | None => heap w
                   end).
Proof.
  unfold store_option, mg_strdup, mg_calloc, mg_cry, mg_free, emit, modify_ctx,
    modify, get_world.
  rewrite !bind_unfold. cbv beta iota.
  destruct old as [q|]; destruct (strdup_option_ok E k); simpl;
    try destruct (heap w !! q) eqn:Hq; simpl;
    eexists; (split; [reflexivity|]); simpl;
    repeat split; rewrite <- ?app_assoc; try reflexivity.
  all: by rewrite delete_id.
Qed.

Lemma allocate_context_returns_null : returns_null (allocate_context B E).
Proof. returns_null_auto fail. Qed.

Lemma allocate_context_defined : defined (allocate_context B E).
Proof. defined_auto fail. Qed.

Lemma cry_abort_run {A} m ctxp w :
  ∃ w', (mg_cry m;; @abort_start B A ctxp) w = Return None w'.
Proof.
  unfold mg_cry, emit, modify. rewrite bind_unfold. cbv beta iota.
  destruct (abort_start_run B (A:=A) ctxp (set_trace (trace w ++ [EvCry m]) w))
    as (w' & H & _).
  by exists w'.
Qed.

Lemma rejected_options_pair name value rest :
  rejected_options B (name :: value :: rest) →
  get_option_index B name = (-1)%Z ∨ rejected_options B rest.
Proof.
  intros [(n & Hn & Hi)|Hodd].
  - simpl in Hn. apply elem_of_cons in Hn as [->|Hn]; [by left|].
    right. left. by exists n.
  - right. right. exact Hodd.
Qed.

(** A rejected list ends the loop of lines 126-144 by [return NULL]. *)
Lemma parse_options_rejects ctxp l :
  index_in_range B → rejected_options B l →
  ∀ k w, length (config (ctx w)) = NUM_OPTIONS B →
  ∃ w', parse_options B E ctxp k l w = Return None w'.
Proof.
  intros Hrange. induction l as [|name|name value rest IH] using list_pair_ind;
    intros Hrej k w Hlen.
  - destruct Hrej as [(n & Hn & _)|Hodd]; [|discriminate].
    by apply elem_of_nil in Hn.
  - simpl. destruct (decide _); apply cry_abort_run.
  - simpl. destruct (decide (get_option_index B name = (-1)%Z)) as [Hidx|Hidx];
      [apply cry_abort_run|].
    apply rejected_options_pair in Hrej as [Hrej|Hrej]; [done|].
    destruct (Hrange name) as [?|Hr]; [done|].
    rewrite bind_unfold. unfold get_ctx at 1. cbv beta iota.
    destruct (decide (0 ≤ get_option_index B name)%Z) as [_|?]; [|lia].
    destruct (lookup_lt_is_Some_2 (config (ctx w)) (Z.to_nat (get_option_index B name)))
      as (old & Hold).
    { rewrite Hlen. unfold NUM_OPTIONS. lia. }
    rewrite Hold.
    destruct (store_option_run k (Z.to_nat (get_option_index B name)) name value old w)
      as (w1 & H1 & C1 & _).
    rewrite (bind_Next_l _ _ _ _ _ H1).
    apply IH; [exact Hrej|].
    rewrite C1. simpl. by rewrite length_insert.
Qed.

End options.

(** C5.  Whatever the environment answers, an option list with a name
    that resolves to no option index, or with a last name that has no
    value, makes [mg_start] return NULL; the run allocates no worker-handle
    list and starts no thread. *)
Theorem rejected_options_fail_start (B : build) (E : env) cbs ud l w0 :
  index_in_range B →
  rejected_options B l →
  ∃ w, mg_start B E cbs ud (Some l) w0 = Return None w
       ∧ threads w = threads w0
       ∧ extends no_worker_pool w0 w.
Proof.
  intros Hrange Hrej.
  assert (∃ w, load_configuration B E cbs ud (Some l) w0 = Return None w)
    as (w & Hload).
  { unfold load_configuration. rewrite bind_unfold.
    destruct (allocate_context B E w0) as [ctxp wa|r wa|wa] eqn:Ha.
    - apply allocate_context_Next in Ha as (_ & _ & _ & _ & _ & Hc).
      unfold initialize_context. rewrite !bind_unfold.
      pose proof (register_caller_same_config B E ctxp cbs ud wa) as Hsame.
      destruct (register_caller B E ctxp cbs ud wa) as [ecb wb|r wb|wb] eqn:Hb.
      + unfold same in Hsame. simpl in Hsame.
        destruct (parse_options_rejects B E ctxp l Hrange Hrej 0 wb) as (w & Hw).
        { rewrite Hsame, Hc. simpl. apply length_replicate. }
        cbv beta iota. rewrite !bind_unfold, Hw. by exists w.
      + apply register_caller_returns_null in Hb as ->. by exists wb.
      + by apply register_caller_defined in Hb.
    - apply allocate_context_returns_null in Ha as ->. by exists wa.
    - by apply allocate_context_defined in Ha. }
  exists w. split_and!.
  - unfold mg_start, configure. by rewrite !bind_unfold, Hload.
  - pose proof (load_configuration_same_threads B E cbs ud (Some l) w0) as H.
    by rewrite Hload in H.
  - pose proof (load_configuration_events B E cbs ud (Some l) w0) as H.
    rewrite Hload in H. simpl in H.
    eapply extends_mono; [|exact H].
    intros [] He; try discriminate He; try reflexivity.
    destruct b; try discriminate He; reflexivity.
Qed.


(** ** What stays as it is along a run that goes on *)

Lemma never_next_return {A} r : never_next (@return_ A r).
Proof. intros w a w' H. discriminate. Qed.

Lemma never_next_undefined {A} : never_next (@undefined A).
Proof. intros w a w' H. discriminate. Qed.

Lemma never_next_bind_l {A B} (m : M A) (f : A → M B) :
  never_next m → never_next (m ≫= f).
Proof.
  intros Hm w b w' H. apply bind_Next_inv in H as (a & w1 & H & _).
  by apply Hm in H.
Qed.

Lemma never_next_bind_r {A B} (m : M A) (f : A → M B) :
  (∀ a, never_next (f a)) → never_next (m ≫= f).
Proof.
  intros Hf w b w' H. apply bind_Next_inv in H as (a & w1 & _ & H).
  by apply Hf in H.
Qed.

Ltac never_next_step :=
  lazymatch goal with
  | |- never_next (return_ _) => apply never_next_return
  | |- never_next undefined => apply never_next_undefined
  | |- never_next (mbind _ _) => apply never_next_bind_r; intros ?
  | |- never_next (match ?x with _ => _ end) => destruct x
  | |- never_next ?c => let h := head_of c in unfold h
  end.

Ltac never_next_auto := repeat never_next_step.

Section keeps.
Context {X : Type} (obs : world → X).

Lemma keeps_never_next {A} (c : M A) : never_next c → keeps obs c.
Proof. intros Hc w a w' H. by apply Hc in H. Qed.

Lemma keeps_ret {A} (a : A) : keeps obs (mret a).
Proof. intros w b w' [= _ <-]. reflexivity. Qed.

Lemma keeps_get_world : keeps obs get_world.
Proof. intros w b w' [= _ <-]. reflexivity. Qed.

Lemma keeps_get_ctx : keeps obs get_ctx.
Proof. intros w b w' [= _ <-]. reflexivity. Qed.

Lemma keeps_modify f : (∀ w, obs (f w) = obs w) → keeps obs (modify f).
Proof. intros Hf w b w' [= _ <-]. apply Hf. Qed.

Lemma keeps_bind {A B} (m : M A) (f : A → M B) :
  keeps obs m → (∀ a, keeps obs (f a)) → keeps obs (m ≫= f).
Proof.
  intros Hm Hf w b w' H. apply bind_Next_inv in H as (a & w1 & H1 & H2).
  rewrite (Hf _ _ _ _ H2). by eapply Hm.
Qed.

End keeps.

Ltac keeps_step lemmas :=
  lazymatch goal with
  | |- keeps ?o (mret _) => apply (keeps_ret o)
  | |- keeps ?o (return_ _) => apply (keeps_never_next o), never_next_return
  | |- keeps ?o undefined => apply (keeps_never_next o), never_next_undefined
  | |- keeps ?o get_world => apply (keeps_get_world o)
  | |- keeps ?o get_ctx => apply (keeps_get_ctx o)
  | |- keeps ?o (modify _) => apply (keeps_modify o); intros ?; reflexivity
  | |- keeps ?o (match ?x with _ => _ end) => destruct x
  | |- keeps ?o ?c =>
      first [ solve [apply (keeps_never_next o); never_next_auto]
            | lazymatch c with
              | mbind _ _ => apply (keeps_bind o); [ | intros ? ]
              | _ => first [ solve [lemmas] | let h := head_of c in unfold h ]
              end ]
  end.

Ltac keeps_auto lemmas := repeat (keeps_step lemmas).

Section ready.
Context (B : build) (E : env).

Lemma context_ready_pool_state ctxp w w' :
  pool_state w' = pool_state w → context_ready ctxp w → context_ready ctxp w'.
Proof.
  unfold pool_state, context_ready. intros [= -> -> -> -> -> -> ->]. done.
Qed.

Lemma register_caller_keeps ctxp cbs ud :
  keeps pool_state (register_caller B E ctxp cbs ud).
Proof. keeps_auto fail. Qed.

Lemma any_refuses_keeps cs : keeps pool_state (any_refuses E cs).
Proof. induction cs; simpl; keeps_auto ltac:(exact IHcs). Qed.

Lemma set_options_keeps ctxp : keeps pool_state (set_options B E ctxp).
Proof. keeps_auto ltac:(apply any_refuses_keeps). Qed.

Lemma check_document_root_keeps ctxp :
  keeps pool_state (check_document_root B ctxp).
Proof. keeps_auto fail. Qed.

(** The default of one option, lines 148-151. *)
Lemma store_default_run i cur default_value w :
  let p := match cur, default_value with
           | None, Some d => if strdup_default_ok E i then Some (next_ptr w) else None
           | _, _ => cur
           end in
  ∃ w', store_default E i cur default_value w = Next tt w'
    ∧ (config (ctx w) !! i = Some cur →
       ctx w' = set_config (<[i:=p]> (config (ctx w))) (ctx w))
    ∧ next_ptr w ≤ next_ptr w'
    ∧ (∀ q, p = Some q → cur = None → q = next_ptr w ∧ next_ptr w' = S q)
    ∧ threads w' = threads w
    ∧ (∀ q, q < next_ptr w → heap w' !! q = heap w !! q)
    ∧ (∀ q d, cur = None → default_value = Some d → p = Some q →
         heap w' !! q = Some (BString d)).
Proof.
  unfold store_default, mg_strdup, mg_calloc, modify_ctx, emit, modify, get_world.
  assert (∀ c : mg_context, ∀ x, config c !! i = Some x →
            c = set_config (<[i:=x]> (config c)) c) as Hid.
  { intros c x Hx. rewrite list_insert_id by done. by destruct c. }
  destruct cur as [q|]; [| destruct default_value as [d|]]; simpl.
  - exists w. split_and!; try done. apply Hid.
  - rewrite !bind_unfold. cbv beta iota.
    destruct (strdup_default_ok E i); simpl; eexists; (split; [reflexivity|]);
      simpl; split_and!; try done; try lia.
    + intros q [= <-] _. done.
    + intros q Hq. apply lookup_insert_ne. lia.
    + intros q d' _ [= <-] [= <-]. apply lookup_insert_eq.
  - exists w. split_and!; try done. apply Hid.
Qed.

Lemma context_ready_stored ctxp i p w w' :
  context_ready ctxp w →
  ctx w' = set_config (<[i:=p]> (config (ctx w))) (ctx w) →
  next_ptr w ≤ next_ptr w' →
  (∀ q, p = Some q → ctxp < q < next_ptr w') →
  heap w' !! ctxp = heap w !! ctxp →
  context_ready ctxp w'.
Proof.
  intros (H1 & H2 & H3 & H4 & H5 & H6 & H7) Hc Hn Hp Hh.
  unfold context_ready. rewrite Hc, Hh. simpl. split_and!; try done; try lia.
  intros j q Hj. destruct (decide (i = j)) as [<-|Hij].
  - destruct (decide (i < length (config (ctx w)))) as [Hi|Hi].
    + rewrite list_lookup_insert_eq in Hj by done. injection Hj as ->. by apply Hp.
    + rewrite list_insert_ge in Hj by lia. apply H3 in Hj. lia.
  - rewrite list_lookup_insert_ne in Hj by done. apply H3 in Hj. lia.
Qed.

Lemma parse_options_ready ctxp l :
  ∀ k w w', context_ready ctxp w →
            parse_options B E ctxp k l w = Next tt w' →
            context_ready ctxp w'.
Proof.
  induction l as [|name|name value rest IH] using list_pair_ind;
    intros k w w' Hw H.
  - by injection H as <-.
  - simpl in H. destruct (decide _);
      destruct (cry_abort_run B (A:=unit) (InvalidOption name) ctxp w) as (? & ?);
      destruct (cry_abort_run B (A:=unit) (OptionValueNull name) ctxp w) as (? & ?);
      congruence.
  - simpl in H. destruct (decide (get_option_index B name = (-1)%Z)) as [Hidx|Hidx].
    { destruct (cry_abort_run B (A:=unit) (InvalidOption name) ctxp w) as (? & ?).
      congruence. }
    rewrite bind_unfold in H. unfold get_ctx at 1 in H. cbv beta iota in H.
    destruct (decide (0 ≤ get_option_index B name)%Z) as [Hpos|?]; [|discriminate].
    destruct (config (ctx w) !! Z.to_nat (get_option_index B name))
      as [old|] eqn:Hold; [|discriminate].
    destruct (store_option_run E k (Z.to_nat (get_option_index B name)) name value old w)
      as (w1 & H1 & C1 & N1 & _ & _ & Hh).
    rewrite (bind_Next_l _ _ _ _ _ H1) in H.
    eapply IH; [|exact H].
    destruct Hw as (R1 & R2 & R3 & R4).
    eapply context_ready_stored; [done | exact C1 | | | ].
    + destruct (strdup_option_ok E k); lia.
    + destruct (strdup_option_ok E k); intros q [= <-]; lia.
    + rewrite Hh. assert (∀ q, old = Some q → ctxp ≠ q) as Hq.
      { intros q ->. apply R3 in Hold. lia. }
      destruct (strdup_option_ok E k); simpl.
      * rewrite lookup_insert_ne by lia.
        destruct old as [q|]; [apply lookup_delete_ne; specialize (Hq q eq_refl); congruence | done].
      * destruct old as [q|]; [apply lookup_delete_ne; specialize (Hq q eq_refl); congruence | done].
Qed.

Lemma set_default_values_ready ctxp t :
  ∀ i w w', context_ready ctxp w →
            set_default_values E i t w = Next tt w' →
            context_ready ctxp w'.
Proof.
  induction t as [|[n d] t IH]; intros i w w' Hw H.
  - by injection H as <-.
  - simpl in H.
    rewrite bind_unfold in H. unfold get_ctx at 1 in H. cbv beta iota in H.
    destruct (config (ctx w) !! i) as [cur|] eqn:Hcur; [|discriminate].
    destruct (store_default_run i cur d w) as (w1 & H1 & C1 & N1 & P1 & _ & Hh & _).
    rewrite (bind_Next_l _ _ _ _ _ H1) in H.
    eapply IH; [|exact H].
    destruct Hw as (R1 & R2 & R3 & R4).
    eapply context_ready_stored; [done | by apply C1 | done | | ].
    + intros q Hq. destruct cur as [q'|].
      * assert (q' = q) as -> by (destruct d; congruence).
        apply R3 in Hcur. lia.
      * destruct (P1 q Hq eq_refl) as [-> ->]. lia.
    + apply Hh. lia.
Qed.

Lemma allocate_context_ready w0 ctxp wa :
  allocate_context B E w0 = Next ctxp wa → context_ready ctxp wa.
Proof.
  intros H. apply allocate_context_Next in H as (-> & _ & Hh & Hn & _ & Hc).
  unfold context_ready. rewrite Hh, Hn, Hc. simpl. split_and!; try done.
  - apply lookup_insert_eq.
  - lia.
  - intros i q Hi. apply lookup_replicate in Hi as [? _]. discriminate.
Qed.

Lemma initialize_context_ready ctxp cbs ud options w exit_callback w' :
  context_ready ctxp w →
  initialize_context B E ctxp cbs ud options w = Next exit_callback w' →
  context_ready ctxp w'.
Proof.
  intros Hw H. unfold initialize_context in H.
  apply bind_Next_inv in H as (ecb & w1 & H1 & H).
  apply register_caller_keeps in H1.
  apply (context_ready_pool_state _ _ _ H1) in Hw.
  apply bind_Next_inv in H as ([] & w2 & H2 & H).
  assert (context_ready ctxp w2) as Hw2.
  { destruct options as [l|].
    - by eapply parse_options_ready.
    - by injection H2 as <-. }
  apply bind_Next_inv in H as ([] & w3 & H3 & H).
  apply (set_default_values_ready _ _ _ _ _ Hw2) in H3.
  apply bind_Next_inv in H as ([] & w4 & H4 & H).
  apply check_document_root_keeps in H4.
  apply (context_ready_pool_state _ _ _ H4) in H3.
  apply bind_Next_inv in H as ([] & w5 & H5 & H).
  injection H5 as <-. injection H as _ <-.
  eapply context_ready_pool_state; [|exact H3]. reflexivity.
Qed.

Lemma configure_same_threads cbs ud options :
  preserves (same threads) (configure B E cbs ud options).
Proof.
  assert (∀ cs, preserves (same threads) (any_refuses E cs)) as Hany.
  { intros cs. induction cs; simpl; preserves_auto ltac:(exact IHcs) same_leaf. }
  preserves_auto ltac:(first [ apply load_configuration_same_threads
                             | apply abort_start_same_threads
                             | apply Hany ])
                 same_leaf.
Qed.

(** When lines 57-179 go through, the context block is live, no worker
    pool exists yet and no thread was started. *)
Lemma configure_ready cbs ud options w0 ctxp exit_callback w1 :
  configure B E cbs ud options w0 = Next (ctxp, exit_callback) w1 →
  context_ready ctxp w1 ∧ threads w1 = threads w0.
Proof.
  intros H. split.
  - unfold configure in H.
    apply bind_Next_inv in H as ([p ecb] & wl & Hl & H).
    apply bind_Next_inv in H as ([] & ws & Hs & H).
    injection H as -> -> ->.
    apply load_configuration_Next in Hl as (wa & Ha & Hi).
    apply allocate_context_ready in Ha.
    apply (initialize_context_ready _ _ _ _ _ _ _ Ha) in Hi.
    apply set_options_keeps in Hs.
    by eapply context_ready_pool_state.
  - pose proof (configure_same_threads cbs ud options w0) as Ht.
    by rewrite H in Ht.
Qed.

End ready.

(** ** The worker arrays and the master thread (lines 181-256) *)

Ltac inv_bind H :=
  let a := fresh "a" in
  let w := fresh "w" in
  let H1 := fresh "H" in
  apply bind_Next_inv in H as (a & w & H1 & H).

Lemma mg_calloc_run ok b w :
  mg_calloc ok b w =
  if ok then
    Next (Some (next_ptr w))
      (set_trace (trace w ++ [EvAlloc b (Some (next_ptr w))])
         (set_next_ptr (S (next_ptr w)) (set_heap (<[next_ptr w:=b]> (heap w)) w)))
  else Next None (set_trace (trace w ++ [EvAlloc b None]) w).
Proof. unfold mg_calloc. rewrite bind_unfold. simpl. by destruct ok. Qed.

Lemma atoi_range s n : atoi s = n → (INT_MIN ≤ n ≤ INT_MAX)%Z.
Proof.
  intros <-. unfold atoi, wrap_int, INT_MIN, INT_MAX.
  pose proof (Z.mod_pos_bound (strtol s + 2 ^ 31) (2 ^ 32)). lia.
Qed.

Lemma to_unsigned_small n : (0 ≤ n ≤ INT_MAX)%Z → to_unsigned n = n.
Proof. intros H. unfold to_unsigned, INT_MAX in *. apply Z.mod_small. lia. Qed.

Section arrays.
Context (B : build) (E : env).

Lemma pool_allocated_pool_state ctxp ids w w' :
  pool_state w' = pool_state w → pool_allocated ctxp ids w → pool_allocated ctxp ids w'.
Proof.
  unfold pool_state, pool_allocated. intros [= -> -> _ -> -> _ _]. done.
Qed.

Lemma config_string_pool_state i w w' :
  pool_state w' = pool_state w → config_string w' i = config_string w i.
Proof.
  unfold pool_state, config_string. intros [= -> _ -> _ _ _ _]. done.
Qed.

(** Lines 187-194, when the count is accepted. *)
Lemma read_worker_thread_count_Next ctxp w n w' :
  read_worker_thread_count B ctxp w = Next n w' →
  w' = w ∧ ∃ s, config_string w (NUM_THREADS B) = Some s
                ∧ atoi s = n ∧ (n ≤ MAX_WORKER_THREADS B)%Z.
Proof.
  unfold read_worker_thread_count, config_string, get_ctx, get_world.
  rewrite !bind_unfold. cbv beta iota.
  destruct (config (ctx w) !! NUM_THREADS B) as [[p|]|]; try discriminate.
  destruct (heap w !! p) as [[]|]; try discriminate.
  cbv zeta. destruct (decide _) as [Hm|Hm].
  - intros H. exfalso.
    destruct (cry_abort_run B (A:=Z) TooManyWorkerThreads ctxp w) as (? & ?).
    congruence.
  - intros [= <- <-]. split; [done|]. exists s. split_and!; (done || lia).
Qed.


Lemma store_wait_event_Next i h w w' :
  store_wait_event i h w = Next tt w' →
  ctx w' = ctx w ∧ next_ptr w' = next_ptr w ∧ threads w' = threads w
  ∧ ∀ q, client_wait_events (ctx w) ≠ Some q → heap w' !! q = heap w !! q.
Proof.
  unfold store_wait_event, get_ctx, get_world, modify, undefined.
  rewrite !bind_unfold. cbv beta iota.
  destruct (client_wait_events (ctx w)) as [p|]; [|discriminate].
  destruct (heap w !! p) as [[]|]; try discriminate.
  destruct (decide _); [|discriminate].
  intros [= <-]. simpl. split_and!; try done.
  intros q Hq. apply lookup_insert_ne. congruence.
Qed.

Lemma create_wait_events_Next count :
  ∀ i w w', create_wait_events E i count w = Next tt w' →
  ctx w' = ctx w ∧ next_ptr w' = next_ptr w ∧ threads w' = threads w
  ∧ ∀ q, client_wait_events (ctx w) ≠ Some q → heap w' !! q = heap w !! q.
Proof.
  induction count as [|count IH]; intros i w w' H.
  - by injection H as <-.
  - simpl in H. inv_bind H. inv_bind H. inv_bind H.
    unfold emit, modify in H0. injection H0 as <- <-.
    destruct a0. apply store_wait_event_Next in H1 as (C1 & N1 & T1 & Q1).
    assert (ctx w2 = ctx w1 ∧ next_ptr w2 = next_ptr w1 ∧ threads w2 = threads w1
            ∧ heap w2 = heap w1) as (C2 & N2 & T2 & Q2).
    { destruct (decide _); unfold mg_cry, emit, modify in H2; by injection H2 as <- <-. }
    apply IH in H as (C3 & N3 & T3 & Q3). simpl in *.
    split_and!; try congruence.
    intros q Hq. rewrite Q3, Q2, Q1; [done | done | congruence].
Qed.

Lemma cry_abort_never_next {A} m ctxp : never_next (mg_cry m;; @abort_start B A ctxp).
Proof. never_next_auto. Qed.

(** Lines 196-237, when they go through. *)
Lemma allocate_worker_arrays_Next ctxp n w w' :
  context_ready ctxp w → (n ≤ INT_MAX)%Z →
  allocate_worker_arrays B E ctxp n w = Next tt w' →
  pool_allocated ctxp (replicate (Z.to_nat n) 0) w' ∧ threads w' = threads w.
Proof.
  intros (R1 & R2 & R3 & R4 & R5 & R6 & R7) Hn H.
  unfold allocate_worker_arrays in H. destruct (decide (n > 0)%Z) as [Hpos|Hpos].
  2: { injection H as <-. replace (Z.to_nat n) with 0 by lia. simpl.
       unfold pool_allocated. rewrite R5. by split_and!. }
  inv_bind H. unfold modify_ctx, modify in H0. injection H0 as <- <-.
  inv_bind H. unfold get_ctx in H0. injection H0 as <- <-.
  cbv zeta in H. simpl in H. rewrite to_unsigned_small in H by lia.
  inv_bind H. rewrite mg_calloc_run in H0.
  destruct (calloc_workerthreadids_ok E); injection H0 as <- <-.
  2: { inv_bind H. inv_bind H. by apply cry_abort_never_next in H1. }
  inv_bind H. unfold modify_ctx, modify in H0. injection H0 as <- <-.
  inv_bind H. injection H0 as <- <-.
  assert (cfg_worker_threads (set_cfg_worker_threads n (ctx w))
          = Z.of_nat (length (replicate (Z.to_nat n) 0))) as Hcfg.
  { rewrite length_replicate. simpl. lia. }
  destruct (ALTERNATIVE_QUEUE B).
  2: { injection H as <-. simpl. unfold pool_allocated. simpl.
       split_and!; try done; try lia.
       - rewrite lookup_insert_ne by lia. done.
       - apply lookup_insert_eq. }
  inv_bind H. rewrite mg_calloc_run in H0.
  destruct (calloc_client_wait_events_ok E); injection H0 as <- <-.
  2: { inv_bind H. inv_bind H. exfalso. revert H1. apply never_next_bind_r.
       intros _. apply never_next_bind_r. intros _. never_next_auto. }
  inv_bind H. unfold modify_ctx, modify in H0. injection H0 as <- <-.
  inv_bind H. injection H0 as <- <-.
  inv_bind H. rewrite mg_calloc_run in H0.
  simpl in H0.
  inv_bind H. unfold modify_ctx, modify in H1. injection H1 as <- <-.
  inv_bind H. unfold get_ctx in H1. injection H1 as <- <-.
  inv_bind H.
  assert (client_wait_events (ctx w0) = Some (S (next_ptr w))
          ∧ workerthreadids (ctx w0) = Some (next_ptr w)
          ∧ cfg_worker_threads (ctx w0) = n
          ∧ threads w0 = threads w
          ∧ S (S (next_ptr w)) ≤ next_ptr w0
          ∧ heap w0 !! ctxp = Some BContext
          ∧ heap w0 !! next_ptr w = Some (BThreadIds (replicate (Z.to_nat n) 0)))
    as (Q1 & Q2 & Q3 & Q4 & Q5 & Q6 & Q7).
  { destruct (calloc_client_socks_ok E); injection H0 as <- <-; simpl;
      split_and!; try done; try lia.
    all: rewrite ?lookup_insert_ne by lia; try done; apply lookup_insert_eq. }
  simpl in H1. rewrite Q1 in H1. injection H1 as <- <-.
  apply create_wait_events_Next in H as (C & N & T & Q). simpl in *.
  split; [|congruence].
  unfold pool_allocated. rewrite C. simpl. rewrite Q2, Q3, N. simpl.
  rewrite !Q by (rewrite Q1; intros [= ?]; lia).
  split_and!; try done; try lia.
Qed.

Lemma ignore_sigpipe_keeps :
  keeps (λ w, (pool_state w, threads w)) (ignore_sigpipe B).
Proof. keeps_auto fail. Qed.

Lemma init_timers_keeps ctxp :
  keeps (λ w, (pool_state w, threads w)) (init_timers B E ctxp).
Proof. keeps_auto fail. Qed.

Lemma init_user_context_keeps exit_callback :
  keeps (λ w, (pool_state w, threads w)) (init_user_context exit_callback).
Proof. keeps_auto fail. Qed.

(** Lines 255-256. *)
Lemma start_master_thread_run w :
  ∃ w', start_master_thread E w = Next tt w'
    ∧ pool_state w' = pool_state w
    ∧ threads w' = threads w ++ (if master_thread_started E then [master_thread] else [])
    ∧ trace w' = trace w ++ [EvStartThread master_thread (master_thread_started E)].
Proof.
  unfold start_master_thread, mg_start_thread_with_id, emit, modify_ctx, modify,
    get_world.
  rewrite !bind_unfold. cbv beta iota.
  destruct (master_thread_started E); simpl; eexists; split_and!; try done.
  by rewrite app_nil_r.
Qed.

(** When lines 181-256 go through: the count was read from the
    configuration and accepted, the worker arrays are in place, and the
    only thread started is the master. *)
Lemma prepare_threads_Next ctxp exit_callback w1 w2 :
  context_ready ctxp w1 →
  prepare_threads B E ctxp exit_callback w1 = Next tt w2 →
  ∃ s n, config_string w1 (NUM_THREADS B) = Some s
         ∧ atoi s = n
         ∧ (n ≤ MAX_WORKER_THREADS B)%Z
         ∧ pool_allocated ctxp (replicate (Z.to_nat n) 0) w2
         ∧ threads w2 = threads w1
                        ++ (if master_thread_started E then [master_thread] else []).
Proof.
  intros Hw H. unfold prepare_threads in H.
  inv_bind H. apply ignore_sigpipe_keeps in H0. apply pair_equal_spec in H0 as [Hp0 Ht0].
  apply (context_ready_pool_state _ _ _ Hp0) in Hw.
  inv_bind H. apply read_worker_thread_count_Next in H0 as (-> & s & Hs & Ha & Hm).
  inv_bind H. destruct a1.
  apply allocate_worker_arrays_Next in H0 as (Hpool & Ht1);
    [ | done | apply atoi_range in Ha; lia ].
  inv_bind H. apply init_timers_keeps in H0. apply pair_equal_spec in H0 as [Hp2 Ht2].
  inv_bind H. apply init_user_context_keeps in H0. apply pair_equal_spec in H0 as [Hp3 Ht3].
  destruct (start_master_thread_run w4) as (w5 & H5 & Hp5 & Ht5 & _).
  rewrite H5 in H. injection H as <-.
  exists s, a0. split_and!; try done.
  - by rewrite <- (config_string_pool_state _ _ _ Hp0).
  - apply (pool_allocated_pool_state _ _ _ _ Hp5).
    apply (pool_allocated_pool_state _ _ _ _ Hp3).
    by apply (pool_allocated_pool_state _ _ _ _ Hp2).
  - rewrite Ht5. congruence.
Qed.

End arrays.

(** ** The worker threads (lines 258-292) *)

Lemma cries_app evs1 evs2 : cries (evs1 ++ evs2) = cries evs1 ++ cries evs2.
Proof. apply omap_app. Qed.

Lemma worker_attempts_app evs1 evs2 :
  worker_attempts (evs1 ++ evs2) = worker_attempts evs1 ++ worker_attempts evs2.
Proof. apply omap_app. Qed.

Lemma release_event_no_cry evs :
  Forall (λ e, release_event e = true) evs → cries evs = [] ∧ worker_attempts evs = [].
Proof.
  induction 1 as [|e evs He _ [IH1 IH2]]; [done|].
  destruct e; try discriminate He; done.
Qed.

Lemma mg_start_thread_with_id_run t ok w :
  mg_start_thread_with_id t ok w =
  if ok then
    Next (Some (S (length (threads w))))
      (set_threads (threads w ++ [t]) (set_trace (trace w ++ [EvStartThread t true]) w))
  else Next None (set_trace (trace w ++ [EvStartThread t false]) w).
Proof.
  unfold mg_start_thread_with_id, emit, modify, get_world.
  rewrite !bind_unfold. cbv beta iota. by destruct ok.
Qed.

Lemma store_thread_id_run i tid q ids w :
  workerthreadids (ctx w) = Some q → heap w !! q = Some (BThreadIds ids) →
  i < length ids →
  store_thread_id i tid w
  = Next tt (set_heap (<[q:=BThreadIds (<[i:=tid]> ids)]> (heap w)) w).
Proof.
  intros Hq Hh Hi. unfold store_thread_id, get_ctx, get_world, modify.
  rewrite !bind_unfold. cbv beta iota. rewrite Hq, Hh.
  by destruct (decide _).
Qed.

Lemma mg_free_others p w :
  ∃ w', mg_free p w = Next tt w'
    ∧ ctx w' = ctx w ∧ threads w' = threads w ∧ next_ptr w' = next_ptr w
    ∧ trace w' = trace w ++ match p with Some a => [EvFree a] | None => [] end
    ∧ ∀ x, p ≠ Some x → heap w' !! x = heap w !! x.
Proof.
  destruct p as [a|]; simpl.
  - unfold mg_free, emit, modify. rewrite bind_unfold. cbv beta iota. simpl.
    eexists. split; [reflexivity|].
    destruct (heap w !! a); simpl; split_and!; try done.
    intros x Hx. apply lookup_delete_ne. congruence.
  - exists w. split_and!; try done. by rewrite app_nil_r.
Qed.

Section workers.
Context (B : build) (E : env).

(** Lines 260-270 for one worker. *)
Lemma spawn_worker_run ctxp i ids q w :
  pool_allocated ctxp ids w → workerthreadids (ctx w) = Some q → i < length ids →
  ∃ wta w' evs,
    spawn_worker E i w = Next (wta, spawns E i) w'
    ∧ ctx w' = ctx w
    ∧ pool_allocated ctxp
        (if spawns E i then <[i:=S (length (threads w))]> ids else ids) w'
    ∧ threads w' = threads w ++ (if spawns E i then [worker_thread i] else [])
    ∧ trace w' = trace w ++ evs
    ∧ worker_attempts evs = [i]
    ∧ cries evs = []
    ∧ (∀ a, wta = Some a → a ≠ ctxp ∧ a ≠ q).
Proof.
  intros (P1 & P2 & P3 & P4) Hq Hi. rewrite Hq in P4. destruct P4 as (P4 & P5 & P6).
  unfold spawn_worker, mg_malloc, spawns.
  rewrite bind_unfold, mg_calloc_run.
  destruct (malloc_wta_ok E i); cbv beta iota; simpl.
  - rewrite bind_unfold, mg_start_thread_with_id_run.
    destruct (worker_thread_started E i); cbv beta iota; simpl.
    + rewrite bind_unfold.
      erewrite store_thread_id_run; [ | exact Hq | | exact Hi ].
      2: { simpl. rewrite lookup_insert_ne by lia. exact P6. }
      cbv beta iota.
      eexists _, _, [EvAlloc (BWorkerArgs i) (Some (next_ptr w));
                     EvStartThread (worker_thread i) true].
      split; [reflexivity|]. simpl. split_and!; try done.
      * unfold pool_allocated. simpl. rewrite Hq, length_insert.
        split_and!; try done; try lia.
        -- rewrite !lookup_insert_ne by lia. done.
        -- apply lookup_insert_eq.
      * by rewrite <- app_assoc.
      * intros a [= <-]. lia.
    + eexists _, _, [EvAlloc (BWorkerArgs i) (Some (next_ptr w));
                     EvStartThread (worker_thread i) false].
      split; [reflexivity|]. simpl. split_and!; try done.
      * unfold pool_allocated. simpl. rewrite Hq.
        split_and!; try done; try lia.
        -- rewrite !lookup_insert_ne by lia. done.
        -- rewrite !lookup_insert_ne by lia. done.
      * by rewrite app_nil_r.
      * by rewrite <- app_assoc.
      * intros a [= <-]. lia.
  - eexists _, _, [EvAlloc (BWorkerArgs i) None].
    split; [reflexivity|]. simpl. split_and!; try done.
    + unfold pool_allocated. simpl. rewrite Hq. by split_and!.
    + by rewrite app_nil_r.
Qed.

(** Lines 272-290 for one worker. *)
Lemma worker_not_created_run ctxp i wta ids q w :
  pool_allocated ctxp ids w → workerthreadids (ctx w) = Some q →
  (∀ a, wta = Some a → a ≠ ctxp ∧ a ≠ q) →
  (0 < i →
   ∃ w' evs, worker_not_created B E ctxp i wta w = Next tt w'
     ∧ ctx w' = ctx w ∧ pool_allocated ctxp ids w' ∧ threads w' = threads w
     ∧ trace w' = trace w ++ evs
     ∧ worker_attempts evs = []
     ∧ cries evs = [CannotStartWorker (i + 1) (ERRNO E)])
  ∧ (i = 0 →
     ∃ w' evs, worker_not_created B E ctxp i wta w = Return None w'
       ∧ heap w' !! ctxp = None ∧ threads w' = threads w
       ∧ trace w' = trace w ++ evs
       ∧ worker_attempts evs = []
       ∧ cries evs = [CannotCreateThreads (ERRNO E)]
       ∧ EvFreeContext ctxp ∈ evs).
Proof.
  intros (P1 & P2 & P3 & P4) Hq Hwta. rewrite Hq in P4. destruct P4 as (P4 & P5 & P6).
  destruct (mg_free_others wta w) as (w1 & H1 & C1 & T1 & N1 & Tr1 & Hh1).
  assert (cries (match wta with Some a => [EvFree a] | None => [] end) = []
          ∧ worker_attempts (match wta with Some a => [EvFree a] | None => [] end) = [])
    as [Hc Ha] by (by destruct wta).
  unfold worker_not_created. rewrite (bind_Next_l _ _ _ _ _ H1). split.
  - intros Hi. destruct (decide (0 < i)); [|lia].
    unfold mg_cry, emit, modify.
    eexists _, (_ ++ [EvCry (CannotStartWorker (i + 1) (ERRNO E))]).
    split; [reflexivity|]. simpl.
    rewrite cries_app, worker_attempts_app, Hc, Ha. split_and!; try done.
    + unfold pool_allocated. simpl. rewrite C1, N1, Hq.
      rewrite !Hh1; [by split_and! | |].
      * intros ->. by destruct (Hwta q).
      * intros ->. by destruct (Hwta ctxp).
    + by rewrite Tr1, app_assoc.
  - intros ->. destruct (decide (0 < 0)); [lia|].
    unfold mg_cry, emit, modify. rewrite bind_unfold. cbv beta iota.
    destruct (abort_start_run B (A:=unit) ctxp
                (set_trace (trace w1 ++ [EvCry (CannotCreateThreads (ERRNO E))]) w1))
      as (w2 & H2 & ((evs & Tr2 & F2) & T2 & _) & N2).
    simpl in Tr2, T2. apply release_event_no_cry in F2 as [F2 F3].
    exists w2, (match wta with Some a => [EvFree a] | None => [] end
                ++ [EvCry (CannotCreateThreads (ERRNO E)); EvFreeContext ctxp] ++ evs).
    split; [exact H2|].
    rewrite !cries_app, !worker_attempts_app, Hc, Ha, F2, F3. simpl.
    split_and!; try done.
    + congruence.
    + rewrite Tr2, Tr1. by rewrite <- !app_assoc.
    + apply elem_of_app. right. apply elem_of_cons. right.
      apply elem_of_cons. by left.
Qed.

(** The loop of lines 258-292: either the first worker fails and the
    function returns NULL, or the loop ends with the workers [i .. i+k-1]
    started, where worker [i+k] is the first that fails, if any. *)
Lemma start_worker_threads_run ctxp q count :
  ∀ i ids w,
    pool_allocated ctxp ids w → workerthreadids (ctx w) = Some q →
    i + count ≤ length ids →
    (spawned E i count = count ∨ 0 < i + spawned E i count →
     ∃ w' ids' evs,
       start_worker_threads B E ctxp i count w = Next tt w'
       ∧ ctx w' = ctx w
       ∧ pool_allocated ctxp ids' w'
       ∧ (∀ j, ids' !! j = if decide (i ≤ j < i + spawned E i count)
                           then Some (S (length (threads w)) + (j - i))
                           else ids !! j)
       ∧ threads w' = threads w ++ (worker_thread <$> seq i (spawned E i count))
       ∧ trace w' = trace w ++ evs
       ∧ worker_attempts evs
         = seq i (if decide (spawned E i count = count)
                  then spawned E i count else S (spawned E i count))
       ∧ cries evs
         = (if decide (spawned E i count = count) then []
            else [CannotStartWorker (i + spawned E i count + 1) (ERRNO E)]))
    ∧ (spawned E i count < count → i + spawned E i count = 0 →
       ∃ w' evs,
         start_worker_threads B E ctxp i count w = Return None w'
         ∧ heap w' !! ctxp = None
         ∧ threads w' = threads w
         ∧ trace w' = trace w ++ evs
         ∧ worker_attempts evs = [0]
         ∧ cries evs = [CannotCreateThreads (ERRNO E)]
         ∧ EvFreeContext ctxp ∈ evs).
Proof.
  induction count as [|count IH]; intros i ids w Hpool Hq Hlen.
  { split; [|simpl; lia]. intros _. exists w, ids, []. simpl.
    split_and!; try done; try by rewrite app_nil_r.
    intros j. destruct (decide _); [lia | done]. }
  destruct (spawn_worker_run ctxp i ids q w Hpool Hq)
    as (wta & w1 & evs1 & H1 & C1 & P1 & T1 & Tr1 & A1 & Cr1 & W1); [lia|].
  cbn [start_worker_threads spawned].
  rewrite (bind_Next_l _ _ _ _ _ H1). cbv beta iota.
  destruct (spawns E i).
  - (* worker [i] runs: on to worker [i+1] *)
    destruct (IH (S i) (<[i:=S (length (threads w))]> ids) w1 P1) as [IHa _].
    { congruence. }
    { rewrite length_insert. lia. }
    split; [|lia]. intros _.
    destruct IHa as (w' & ids' & evs2 & H2 & C2 & P2 & I2 & T2 & Tr2 & A2 & Cr2); [lia|].
    exists w', ids', (evs1 ++ evs2). split_and!; try done.
    + congruence.
    + intros j. rewrite I2, T1, length_app. cbn [length].
      destruct (decide (S i ≤ j < S i + spawned E (S i) count)).
      * rewrite decide_True by lia. f_equal. lia.
      * destruct (decide (i = j)) as [<-|].
        -- rewrite decide_True by lia. rewrite list_lookup_insert_eq by lia.
           f_equal. lia.
        -- rewrite decide_False by lia. by rewrite list_lookup_insert_ne.
    + rewrite T2, T1. simpl. by rewrite <- app_assoc.
    + rewrite Tr2, Tr1. by rewrite <- app_assoc.
    + rewrite worker_attempts_app, A1, A2. simpl.
      destruct (decide (spawned E (S i) count = count)).
      * by rewrite decide_True by lia.
      * by rewrite decide_False by lia.
    + rewrite cries_app, Cr1, Cr2. simpl.
      destruct (decide (spawned E (S i) count = count)).
      * by rewrite decide_True by lia.
      * rewrite decide_False by lia. repeat f_equal. lia.
  - (* worker [i] does not run: lines 272-290 *)
    destruct (worker_not_created_run ctxp i wta ids q w1 P1) as [Hpos Hzero].
    { congruence. }
    { exact W1. }
    split.
    + intros [?|Hi]; [lia|]. rewrite Nat.add_0_r in Hi.
      destruct (Hpos Hi) as (w' & evs2 & H2 & C2 & P2 & T2 & Tr2 & A2 & Cr2).
      exists w', ids, (evs1 ++ evs2). split_and!; try done.
      * congruence.
      * intros j. destruct (decide _); [lia | done].
      * rewrite T2, T1. simpl. by rewrite !app_nil_r.
      * rewrite Tr2, Tr1. by rewrite <- app_assoc.
      * rewrite worker_attempts_app, A1, A2. by rewrite decide_False by lia.
      * rewrite cries_app, Cr1, Cr2. rewrite decide_False by lia.
        by rewrite Nat.add_0_r.
    + intros _ Hi. rewrite Nat.add_0_r in Hi. subst i.
      destruct (Hzero eq_refl) as (w' & evs2 & H2 & N2 & T2 & Tr2 & A2 & Cr2 & F2).
      exists w', (evs1 ++ evs2). split_and!; try done.
      * rewrite T2, T1. by rewrite app_nil_r.
      * rewrite Tr2, Tr1. by rewrite <- app_assoc.
      * by rewrite worker_attempts_app, A1, A2.
      * by rewrite cries_app, Cr1, Cr2.
      * apply elem_of_app. by right.
Qed.

End workers.

(** ** The end of [mg_start] (lines 258-295) *)

Section finish.
Context (B : build) (E : env).

Lemma spawned_le i count : spawned E i count ≤ count.
Proof.
  revert i. induction count as [|count IH]; intros i; simpl; [lia|].
  destruct (spawns E i); [|lia]. specialize (IH (S i)). lia.
Qed.

(** The first worker that fails, counted from worker [i]. *)
Lemma spawned_first_failure k :
  ∀ i count, k < count →
             (∀ j, j < k → spawns E (i + j) = true) →
             spawns E (i + k) = false →
             spawned E i count = k.
Proof.
  induction k as [|k IH]; intros i count Hk Hok Hfail.
  - destruct count; [lia|]. simpl. rewrite Nat.add_0_r in Hfail. by rewrite Hfail.
  - destruct count; [lia|]. simpl.
    rewrite <- (Nat.add_0_r i) at 1. rewrite Hok by lia. f_equal.
    apply IH; [lia | |].
    + intros j Hj. replace (S i + j) with (i + S j) by lia. apply Hok. lia.
    + by replace (S i + k) with (i + S k) by lia.
Qed.

Lemma start_workers_and_return_run ctxp ids w :
  pool_allocated ctxp ids w →
  (spawned E 0 (length ids) = length ids ∨ 0 < spawned E 0 (length ids) →
   ∃ w' ids' evs,
     start_workers_and_return B E ctxp w = Return (Some ctxp) w'
     ∧ ctx w' = ctx w
     ∧ pool_allocated ctxp ids' w'
     ∧ length ids' = length ids
     ∧ (∀ j, ids' !! j = if decide (j < spawned E 0 (length ids))
                         then Some (S (length (threads w)) + j)
                         else ids !! j)
     ∧ threads w' = threads w ++ (worker_thread <$> seq 0 (spawned E 0 (length ids)))
     ∧ trace w' = trace w ++ evs ++ [EvSetSpecific None]
     ∧ worker_attempts evs
       = seq 0 (if decide (spawned E 0 (length ids) = length ids)
                then spawned E 0 (length ids) else S (spawned E 0 (length ids)))
     ∧ cries evs
       = (if decide (spawned E 0 (length ids) = length ids) then []
          else [CannotStartWorker (spawned E 0 (length ids) + 1) (ERRNO E)]))
  ∧ (spawned E 0 (length ids) < length ids → spawned E 0 (length ids) = 0 →
     ∃ w' evs,
       start_workers_and_return B E ctxp w = Return None w'
       ∧ heap w' !! ctxp = None
       ∧ threads w' = threads w
       ∧ trace w' = trace w ++ evs
       ∧ worker_attempts evs = [0]
       ∧ cries evs = [CannotCreateThreads (ERRNO E)]
       ∧ EvFreeContext ctxp ∈ evs).
Proof.
  intros Hpool. pose proof Hpool as (P1 & P2 & P3 & P4).
  unfold start_workers_and_return. rewrite bind_unfold. unfold get_ctx.
  cbv beta iota. rewrite P3, Nat2Z.id.
  destruct (workerthreadids (ctx w)) as [q|] eqn:Hq.
  - destruct (start_worker_threads_run B E ctxp q (length ids) 0 ids w Hpool Hq)
      as [HA HB]; [lia|].
    split.
    + intros Hk.
      destruct HA as (w' & ids' & evs & H & C & P & I & T & Tr & A & Cr); [lia|].
      rewrite (bind_Next_l _ _ _ _ _ H).
      unfold pthread_setspecific, emit, modify, return_. rewrite !bind_unfold.
      cbv beta iota.
      eexists _, ids', evs. split; [reflexivity|].
      split; [exact C|].
      split; [eapply pool_allocated_pool_state; [|exact P]; reflexivity|].
      simpl. split_and!; try done.
      * destruct P as (_ & _ & Pc & _). destruct Hpool as (_ & _ & Pc' & _).
        rewrite C in Pc. lia.
      * intros j. rewrite I. destruct (decide (j < _)).
        -- rewrite decide_True by lia. f_equal. lia.
        -- by rewrite decide_False by lia.
      * by rewrite Tr, <- app_assoc.
    + intros Hk Hz.
      destruct HB as (w' & evs & H & N & T & Tr & A & Cr & F); [lia | lia |].
      rewrite (bind_Return_l _ _ _ _ _ H). by exists w', evs.
  - subst ids. simpl. split; [|lia]. intros _.
    unfold pthread_setspecific, emit, modify, return_. rewrite !bind_unfold.
    cbv beta iota.
    eexists _, [], []. split; [reflexivity|].
    split; [done|].
    split; [eapply pool_allocated_pool_state; [|exact Hpool]; reflexivity|].
    simpl. split_and!; try done.
    by rewrite app_nil_r.
Qed.

End finish.

(** ** Runs of [mg_start] from the worker-thread count on *)

Section runs.
Context (B : build) (E : env).

Lemma mg_start_after_configure cbs ud options w0 ctxp exit_callback w1 :
  configure B E cbs ud options w0 = Next (ctxp, exit_callback) w1 →
  mg_start B E cbs ud options w0
  = (prepare_threads B E ctxp exit_callback;; start_workers_and_return B E ctxp) w1.
Proof. intros H. unfold mg_start. by rewrite bind_unfold, H. Qed.

Lemma mg_start_after_prepare cbs ud options w0 ctxp exit_callback w1 w2 :
  configure B E cbs ud options w0 = Next (ctxp, exit_callback) w1 →
  prepare_threads B E ctxp exit_callback w1 = Next tt w2 →
  mg_start B E cbs ud options w0 = start_workers_and_return B E ctxp w2.
Proof.
  intros H1 H2. rewrite (mg_start_after_configure _ _ _ _ _ _ _ H1).
  by rewrite bind_unfold, H2.
Qed.

Lemma pool_allocated_handles ctxp ids w :
  pool_allocated ctxp ids w → ids ≠ [] → worker_handles w = Some ids.
Proof.
  intros (_ & _ & _ & H) Hne. unfold worker_handles.
  destruct (workerthreadids (ctx w)) as [q|]; [|done].
  destruct H as (_ & _ & ->). done.
Qed.









End runs.

(** C4.  When lines 57-256 have gone through, the first [k] workers
    (k > 0) get their threads and worker [k] does not, [mg_start] returns
    its context, which is live: the failure is reported once, as "Cannot
    start worker thread k+1", worker [k] is the last one tried, the threads
    running are the master (when it started) and the workers [0 .. k-1],
    and the handle list holds their [k] handles followed by zeros.  For
    [k = 1] that is exactly one worker. *)
Theorem later_worker_failure_is_tolerated (B : build) (E : env)
    cbs ud options w0 ctxp exit_callback w1 w2 k :
  configure B E cbs ud options w0 = Next (ctxp, exit_callback) w1 →
  prepare_threads B E ctxp exit_callback w1 = Next tt w2 →
  0 < k →
  (Z.of_nat k < cfg_worker_threads (ctx w2))%Z →
  (∀ i, i < k → spawns E i = true) →
  spawns E k = false →
  ∃ w ids evs,
    mg_start B E cbs ud options w0 = Return (Some ctxp) w
    ∧ heap w !! ctxp = Some BContext
    ∧ trace w = trace w2 ++ evs ++ [EvSetSpecific None]
    ∧ cries evs = [CannotStartWorker (k + 1) (ERRNO E)]
    ∧ worker_attempts evs = seq 0 (S k)
    ∧ threads w = threads w0
                  ++ (if master_thread_started E then [master_thread] else [])
                  ++ (worker_thread <$> seq 0 k)
    ∧ worker_handles w = Some ids
    ∧ Z.of_nat (length ids) = cfg_worker_threads (ctx w)
    ∧ (∀ j, j < k → ids !! j = Some (S (length (threads w2)) + j))
    ∧ (∀ j, k ≤ j < length ids → ids !! j = Some 0).
Proof.
  intros Hconf Hprep Hk Hlt Hok Hfail.
  destruct (configure_ready B E _ _ _ _ _ _ _ Hconf) as [Hready Hth1].
  destruct (prepare_threads_Next B E _ _ _ _ Hready Hprep)
    as (s & n & _ & _ & _ & Hpool & Hth2).
  set (ids0 := replicate (Z.to_nat n) 0) in *.
  assert (k < length ids0) as Hklen.
  { destruct Hpool as (_ & _ & Hc & _). lia. }
  assert (spawned E 0 (length ids0) = k) as Hsp.
  { apply spawned_first_failure; [done | | done]. intros j Hj. by apply Hok. }
  destruct (start_workers_and_return_run B E ctxp ids0 w2 Hpool) as [HA _].
  rewrite Hsp in HA.
  destruct HA as (w & ids & evs & H & C & P & L & I & T & Tr & A & Cr); [lia|].
  rewrite decide_False in A by lia. rewrite decide_False in Cr by lia.
  exists w, ids, evs.
  rewrite (mg_start_after_prepare B E _ _ _ _ _ _ _ _ Hconf Hprep).
  split_and!; try done.
  - by destruct P as (? & _).
  - rewrite T, Hth2, Hth1. by rewrite <- app_assoc.
  - apply (pool_allocated_handles ctxp); [done|].
    intros ->. simpl in L. lia.
  - by destruct P as (_ & _ & -> & _).
  - intros j Hj. rewrite I. by rewrite decide_True by lia.
  - intros j Hj. rewrite I. rewrite decide_False by lia.
    apply lookup_replicate_2. unfold ids0 in L. rewrite length_replicate in L. lia.
Qed.



(** X1.  First-worker failure in general.  When lines 57-256 have gone
    through, at least one worker is configured and worker 0 does not get
    its thread, [mg_start] stops after that one attempt, reports "Cannot
    create threads", hands the context to [free_context] and returns
    NULL; the threads it leaves are those of before the call and the
    master, when line 256 started it. *)
Theorem first_worker_failure_keeps_master (B : build) (E : env)
    cbs ud options w0 ctxp exit_callback w1 w2 :
  configure B E cbs ud options w0 = Next (ctxp, exit_callback) w1 →
  prepare_threads B E ctxp exit_callback w1 = Next tt w2 →
  (0 < cfg_worker_threads (ctx w2))%Z →
  spawns E 0 = false →
  ∃ w evs,
    mg_start B E cbs ud options w0 = Return None w
    ∧ heap w !! ctxp = None
    ∧ trace w = trace w2 ++ evs
    ∧ worker_attempts evs = [0]
    ∧ cries evs = [CannotCreateThreads (ERRNO E)]
    ∧ EvFreeContext ctxp ∈ evs
    ∧ threads w = threads w0
                  ++ (if master_thread_started E then [master_thread] else []).
Proof.
  intros Hconf Hprep Hpos Hfail.
  destruct (configure_ready B E _ _ _ _ _ _ _ Hconf) as [Hready Hth1].
  destruct (prepare_threads_Next B E _ _ _ _ Hready Hprep)
    as (s & n & _ & _ & _ & Hpool & Hth2).
  set (ids0 := replicate (Z.to_nat n) 0) in *.
  assert (0 < length ids0) as Hlen.
  { destruct Hpool as (_ & _ & Hc & _). lia. }
  assert (spawned E 0 (length ids0) = 0) as Hsp.
  { apply spawned_first_failure; [done | intros j Hj; lia | done]. }
  destruct (start_workers_and_return_run B E ctxp ids0 w2 Hpool) as [_ HB].
  destruct HB as (w & evs & H & N & T & Tr & A & Cr & F); [lia | done |].
  exists w, evs.
  rewrite (mg_start_after_prepare B E _ _ _ _ _ _ _ _ Hconf Hprep).
  split_and!; try done.
  by rewrite T, Hth2, Hth1.
Qed.

(** ** The values of the options (lines 126-152) *)

Section values.
Context (B : build) (E : env).

Lemma config_sound_pool_state w w' :
  pool_state w' = pool_state w → config_sound w → config_sound w'.
Proof.
  unfold pool_state, config_sound. intros [= -> -> -> _ _ _ _]. done.
Qed.

(** Entry [i] is pointed to a fresh copy of [v]. *)
Lemma config_sound_stored i old p v w w' :
  config_sound w →
  config (ctx w) !! i = Some old →
  config (ctx w') = <[i:=Some p]> (config (ctx w)) →
  p = next_ptr w →
  next_ptr w' = S p →
  heap w' !! p = Some (BString v) →
  (∀ q, q < next_ptr w → old ≠ Some q → heap w' !! q = heap w !! q) →
  config_sound w'
  ∧ ∀ j, config_string w' j = if decide (j = i) then Some v else config_string w j.
Proof.
  intros [S1 S2] Hold Hc Hp Hn Hv Hh.
  assert (Hi : i < length (config (ctx w))) by (by eapply lookup_lt_Some).
  assert (Hother : ∀ j q, j ≠ i → config (ctx w) !! j = Some (Some q) →
                          q < next_ptr w ∧ heap w' !! q = heap w !! q).
  { intros j q Hj Hq. destruct (S1 _ _ Hq) as [Hlt _]. split; [done|].
    apply Hh; [done|]. intros ->. by apply Hj, (S2 j i q). }
  split; [split|].
  - intros j q Hq. rewrite Hc in Hq. destruct (decide (j = i)) as [->|Hj].
    + rewrite list_lookup_insert_eq in Hq by done. injection Hq as <-.
      split; [lia | by exists v].
    + rewrite list_lookup_insert_ne in Hq by done.
      destruct (Hother _ _ Hj Hq) as [Hlt Heq].
      destruct (S1 _ _ Hq) as [_ [s Hs]].
      split; [lia|]. exists s. by rewrite Heq.
  - intros j1 j2 q H1 H2. rewrite Hc in H1, H2.
    destruct (decide (j1 = i)) as [->|Hj1]; destruct (decide (j2 = i)) as [->|Hj2];
      try done.
    + rewrite list_lookup_insert_eq in H1 by done. injection H1 as <-.
      rewrite list_lookup_insert_ne in H2 by done.
      destruct (S1 _ _ H2). lia.
    + rewrite list_lookup_insert_eq in H2 by done. injection H2 as <-.
      rewrite list_lookup_insert_ne in H1 by done.
      destruct (S1 _ _ H1). lia.
    + rewrite list_lookup_insert_ne in H1, H2 by done. by eapply S2.
  - intros j. unfold config_string. rewrite Hc.
    destruct (decide (j = i)) as [->|Hj].
    + rewrite list_lookup_insert_eq by done. by rewrite Hv.
    + rewrite list_lookup_insert_ne by done.
      destruct (config (ctx w) !! j) as [[q|]|] eqn:Hq; try done.
      destruct (Hother _ _ Hj Hq) as [_ ->]. done.
Qed.

(** The option loop, every copy succeeding. *)
Lemma parse_options_values ctxp l :
  (∀ k, strdup_option_ok E k = true) →
  ∀ k w w', config_sound w →
            parse_options B E ctxp k l w = Next tt w' →
            config_sound w'
            ∧ ∀ j, config_string w' j
                   = match last_value B j l with
                     | Some v => Some v
                     | None => config_string w j
                     end.
Proof.
  intros Hok.
  induction l as [|name|name value rest IH] using list_pair_ind;
    intros k w w' Hw H.
  - injection H as <-. done.
  - simpl in H. destruct (decide _);
      destruct (cry_abort_run B (A:=unit) (InvalidOption name) ctxp w) as (? & ?);
      destruct (cry_abort_run B (A:=unit) (OptionValueNull name) ctxp w) as (? & ?);
      congruence.
  - simpl in H. destruct (decide (get_option_index B name = (-1)%Z)) as [Hidx|Hidx].
    { destruct (cry_abort_run B (A:=unit) (InvalidOption name) ctxp w) as (? & ?).
      congruence. }
    rewrite bind_unfold in H. unfold get_ctx at 1 in H. cbv beta iota in H.
    destruct (decide (0 ≤ get_option_index B name)%Z) as [Hpos|?]; [|discriminate].
    set (idx := Z.to_nat (get_option_index B name)) in *.
    destruct (config (ctx w) !! idx) as [old|] eqn:Hold; [|discriminate].
    destruct (store_option_run E k idx name value old w)
      as (w1 & H1 & C1 & N1 & _ & _ & Hh).
    rewrite (bind_Next_l _ _ _ _ _ H1) in H.
    rewrite Hok in C1, N1, Hh.
    destruct (config_sound_stored idx old (next_ptr w) value w w1) as [Hw1 Hv1];
      try done.
    { by rewrite C1. }
    { rewrite Hh. apply lookup_insert_eq. }
    { intros q Hq Hne. rewrite Hh. rewrite lookup_insert_ne by lia.
      destruct old as [q'|]; [|done]. apply lookup_delete_ne. congruence. }
    destruct (IH _ _ _ Hw1 H) as [Hw' Hv']. split; [done|].
    intros j. rewrite Hv', Hv1. cbn [last_value].
    destruct (last_value B j rest); [done|].
    destruct (decide (j = idx)) as [->|Hj].
    + rewrite decide_True by (unfold idx; lia). done.
    + rewrite decide_False; [done|]. intros Heq. apply Hj. unfold idx. lia.
Qed.

(** The default loop, every copy succeeding. *)
Lemma set_default_values_values t :
  (∀ i, strdup_default_ok E i = true) →
  ∀ i w w', config_sound w →
            set_default_values E i t w = Next tt w' →
            config_sound w'
            ∧ ∀ j, config_string w' j
                   = match config_string w j with
                     | Some s => Some s
                     | None => if decide (i ≤ j) then t !! (j - i) ≫= snd else None
                     end.
Proof.
  intros Hok. induction t as [|[n d] t IH]; intros i w w' Hw H.
  - injection H as <-. split; [done|]. intros j.
    destruct (config_string w j); [done|]. by destruct (decide _).
  - simpl in H.
    rewrite bind_unfold in H. unfold get_ctx at 1 in H. cbv beta iota in H.
    destruct (config (ctx w) !! i) as [cur|] eqn:Hcur; [|discriminate].
    destruct (store_default_run E i cur d w) as (w1 & H1 & C1 & N1 & P1 & _ & Hh & Hd).
    rewrite (bind_Next_l _ _ _ _ _ H1) in H.
    specialize (C1 Hcur). rewrite Hok in *.
    assert (Hstep : config_sound w1
                    ∧ ∀ j, config_string w1 j
                           = match config_string w j with
                             | Some s => Some s
                             | None => if decide (j = i) then d else None
                             end).
    { destruct cur as [q|]; [|destruct d as [dv|]].
      - (* the caller's value stays *)
        assert (Hcfg : config (ctx w1) = config (ctx w)).
        { rewrite C1. simpl. destruct d; by apply list_insert_id. }
        assert (Hsame : ∀ j, config_string w1 j = config_string w j).
        { intros j. unfold config_string. rewrite Hcfg.
          destruct (config (ctx w) !! j) as [[q'|]|] eqn:Hq'; try done.
          destruct Hw as [S1 _]. destruct (S1 _ _ Hq') as [Hlt _].
          by rewrite Hh. }
        split.
        + destruct Hw as [S1 S2]. split.
          * intros j q' Hq'. rewrite Hcfg in Hq'.
            destruct (S1 _ _ Hq') as [Hlt [s Hs]]. split; [lia|].
            exists s. by rewrite Hh.
          * intros j1 j2 q'. rewrite Hcfg. apply S2.
        + intros j. rewrite Hsame.
          destruct (config_string w j) eqn:Hj; [done|].
          destruct (decide (j = i)) as [->|]; [|done].
          unfold config_string in Hj. rewrite Hcur in Hj.
          destruct Hw as [S1 _]. destruct (S1 _ _ Hcur) as [_ [s Hs]].
          by rewrite Hs in Hj.
      - (* the default is copied *)
        destruct (P1 (next_ptr w) eq_refl eq_refl) as [_ Hn].
        destruct (config_sound_stored i None (next_ptr w) dv w w1) as [Hw1 Hv1];
          try done.
        { by rewrite C1. }
        { by apply Hd. }
        { intros q Hq _. by apply Hh. }
        split; [done|]. intros j. rewrite Hv1.
        destruct (decide (j = i)) as [->|]; [|by destruct (config_string w j)].
        unfold config_string. by rewrite Hcur.
      - (* no default *)
        assert (Hcfg : config (ctx w1) = config (ctx w)).
        { rewrite C1. simpl. by apply list_insert_id. }
        assert (Hsame : ∀ j, config_string w1 j = config_string w j).
        { intros j. unfold config_string. rewrite Hcfg.
          destruct (config (ctx w) !! j) as [[q'|]|] eqn:Hq'; try done.
          destruct Hw as [S1 _]. destruct (S1 _ _ Hq') as [Hlt _].
          by rewrite Hh. }
        split.
        + destruct Hw as [S1 S2]. split.
          * intros j q' Hq'. rewrite Hcfg in Hq'.
            destruct (S1 _ _ Hq') as [Hlt [s Hs]]. split; [lia|].
            exists s. by rewrite Hh.
          * intros j1 j2 q'. rewrite Hcfg. apply S2.
        + intros j. rewrite Hsame.
          destruct (config_string w j); [done|]. by destruct (decide _). }
    destruct Hstep as [Hw1 Hv1].
    destruct (IH _ _ _ Hw1 H) as [Hw' Hv']. split; [done|].
    intros j. rewrite Hv', Hv1.
    destruct (config_string w j); [done|].
    destruct (decide (j = i)) as [->|Hj].
    + rewrite (decide_True (P:=i ≤ i)) by lia. rewrite Nat.sub_diag. simpl.
      destruct d; [done|]. by rewrite decide_False by lia.
    + destruct (decide (S i ≤ j)).
      * rewrite decide_True by lia.
        replace (j - i) with (S (j - S i)) by lia. done.
      * by rewrite decide_False by lia.
Qed.

End values.

(** ** The configuration from line 181 on *)

#[global] Instance kept_preorder N : PreOrder (kept N).
Proof.
  split.
  - intros w HN. done.
  - intros w1 w2 w3 H12 H23 HN.
    destruct (H12 HN) as (N2 & C2 & S2). destruct (H23 N2) as (N3 & C3 & S3).
    split_and!; [done | congruence | eauto].
Qed.

Section carries.
Context (R : relation world) `{!PreOrder R}.

Lemma carries_never_next {A} (c : M A) : never_next c → carries R c.
Proof. intros Hc w a w' H. by apply Hc in H. Qed.

Lemma carries_ret {A} (a : A) : carries R (mret a).
Proof. intros w b w' [= _ <-]. reflexivity. Qed.

Lemma carries_get_world : carries R get_world.
Proof. intros w b w' [= _ <-]. reflexivity. Qed.

Lemma carries_get_ctx : carries R get_ctx.
Proof. intros w b w' [= _ <-]. reflexivity. Qed.

Lemma carries_modify f : (∀ w, R w (f w)) → carries R (modify f).
Proof. intros Hf w b w' [= _ <-]. apply Hf. Qed.

Lemma carries_bind {A B} (m : M A) (f : A → M B) :
  carries R m → (∀ a, carries R (f a)) → carries R (m ≫= f).
Proof.
  intros Hm Hf w b w' H. apply bind_Next_inv in H as (a & w1 & H1 & H2).
  etrans; [by eapply Hm | by eapply Hf].
Qed.

End carries.

(** Leaves of [kept N]: a world update that writes neither [ctx->config]
    nor a block below the allocator. *)
Ltac kept_leaf :=
  let w := fresh "w" in
  let HN := fresh "HN" in
  intros w HN; simpl;
  split_and!;
  [ lia
  | reflexivity
  | let x := fresh "x" in
    let s := fresh "s" in
    let Hx := fresh "Hx" in
    let Hs := fresh "Hs" in
    intros x s Hx Hs; simpl; rewrite ?lookup_insert_ne by lia; exact Hs ].

Ltac carries_step lemmas leaf :=
  lazymatch goal with
  | |- carries ?R (mret _) => apply (carries_ret R)
  | |- carries ?R (return_ _) => apply (carries_never_next R), never_next_return
  | |- carries ?R undefined => apply (carries_never_next R), never_next_undefined
  | |- carries ?R get_world => apply (carries_get_world R)
  | |- carries ?R get_ctx => apply (carries_get_ctx R)
  | |- carries ?R (modify _) => apply (carries_modify R); leaf
  | |- carries ?R (match ?x with _ => _ end) => destruct x
  | |- carries ?R ?c =>
      first [ solve [apply (carries_never_next R); never_next_auto]
            | lazymatch c with
              | mbind _ _ => apply (carries_bind R); [ | intros ? ]
              | _ => first [ solve [lemmas] | let h := head_of c in unfold h ]
              end ]
  end.

Ltac carries_auto lemmas leaf := repeat (carries_step lemmas leaf).

Lemma store_wait_event_kept N i h : carries (kept N) (store_wait_event i h).
Proof.
  intros w a w' H HN.
  unfold store_wait_event, get_ctx, get_world, modify, undefined in H.
  rewrite !bind_unfold in H. cbv beta iota in H.
  destruct (client_wait_events (ctx w)) as [p|]; [|discriminate].
  destruct (heap w !! p) as [[]|] eqn:Hp; try discriminate.
  destruct (decide _); [|discriminate].
  injection H as _ <-. simpl. split_and!; try done.
  intros x s Hx Hs. rewrite lookup_insert_ne; [done | congruence].
Qed.

Lemma store_thread_id_kept N i tid : carries (kept N) (store_thread_id i tid).
Proof.
  intros w a w' H HN.
  unfold store_thread_id, get_ctx, get_world, modify, undefined in H.
  rewrite !bind_unfold in H. cbv beta iota in H.
  destruct (workerthreadids (ctx w)) as [p|]; [|discriminate].
  destruct (heap w !! p) as [[]|] eqn:Hp; try discriminate.
  destruct (decide _); [|discriminate].
  injection H as _ <-. simpl. split_and!; try done.
  intros x s Hx Hs. rewrite lookup_insert_ne; [done | congruence].
Qed.

Section kept.
Context (B : build) (E : env) (N : nat).

Lemma create_wait_events_kept count :
  ∀ i, carries (kept N) (create_wait_events E i count).
Proof.
  induction count as [|count IH]; intros i; simpl;
    carries_auto ltac:(first [apply store_wait_event_kept | apply IH]) kept_leaf.
Qed.

Lemma allocate_worker_arrays_kept ctxp n :
  carries (kept N) (allocate_worker_arrays B E ctxp n).
Proof.
  carries_auto ltac:(apply create_wait_events_kept) kept_leaf.
Qed.

Lemma prepare_threads_kept ctxp exit_callback :
  carries (kept N) (prepare_threads B E ctxp exit_callback).
Proof.
  carries_auto ltac:(apply allocate_worker_arrays_kept) kept_leaf.
Qed.

End kept.

Section kept_workers.
Context (B : build) (E : env) (N : nat).

Lemma spawn_worker_kept i : carries (kept N) (spawn_worker E i).
Proof. carries_auto ltac:(apply store_thread_id_kept) kept_leaf. Qed.

(** The argument block of a worker is allocated at the allocator's
    position. *)
Lemma spawn_worker_block i w wta started w' :
  spawn_worker E i w = Next (wta, started) w' →
  ∀ a, wta = Some a → next_ptr w ≤ a.
Proof.
  intros H a ->. unfold spawn_worker, mg_malloc in H.
  apply bind_Next_inv in H as (p & w1 & H1 & H).
  rewrite mg_calloc_run in H1.
  destruct (malloc_wta_ok E i); injection H1 as <- <-.
  - apply bind_Next_inv in H as (r & w2 & _ & H).
    destruct r.
    + apply bind_Next_inv in H as (? & w3 & _ & H). injection H as <- _ _. done.
    + injection H as <- _ _. done.
  - discriminate H.
Qed.

Lemma worker_not_created_kept ctxp i wta w w' :
  (∀ a, wta = Some a → N ≤ a) →
  worker_not_created B E ctxp i wta w = Next tt w' →
  kept N w w'.
Proof.
  intros Hwta H HN. unfold worker_not_created in H.
  destruct (mg_free_others wta w) as (w1 & H1 & C1 & _ & N1 & _ & Hh1).
  rewrite (bind_Next_l _ _ _ _ _ H1) in H.
  destruct (decide (0 < i)).
  - unfold mg_cry, emit, modify in H. injection H as <-. simpl.
    rewrite N1, C1. split_and!; try done.
    intros x s Hx Hs. rewrite Hh1; [done|].
    intros Heq. specialize (Hwta x Heq). lia.
  - by apply cry_abort_never_next in H.
Qed.

Lemma start_worker_threads_kept ctxp count :
  ∀ i, carries (kept N) (start_worker_threads B E ctxp i count).
Proof.
  induction count as [|count IH]; intros i w a w' H.
  - injection H as _ <-. reflexivity.
  - simpl in H. apply bind_Next_inv in H as ([wta started] & w1 & H1 & H).
    pose proof (spawn_worker_kept i _ _ _ H1) as K1.
    pose proof (spawn_worker_block _ _ _ _ _ H1) as Hwta.
    destruct started.
    + etrans; [exact K1 | by eapply IH].
    + intros HN. destruct a.
      destruct (K1 HN) as (N1 & C1 & S1).
      destruct (worker_not_created_kept ctxp i wta w1 w') as (N2 & C2 & S2);
        try done.
      { intros x Hx. specialize (Hwta x Hx). lia. }
      split_and!; [done | congruence | eauto].
Qed.

Lemma start_workers_and_return_kept ctxp w p w' :
  start_workers_and_return B E ctxp w = Return (Some p) w' → kept N w w'.
Proof.
  intros H. unfold start_workers_and_return in H.
  rewrite bind_unfold in H. unfold get_ctx at 1 in H. cbv beta iota in H.
  apply bind_Return_inv in H as [H|([] & w1 & H1 & H)].
  { by apply start_worker_threads_returns_null in H. }
  apply start_worker_threads_kept in H1.
  unfold pthread_setspecific, emit, modify, return_ in H.
  rewrite !bind_unfold in H. cbv beta iota in H. injection H as _ <-.
  etrans; [exact H1|]. intros HN. done.
Qed.

(** When every [mg_strdup] succeeds and lines 57-179 go through, entry
    [i] of [ctx->config] points to a copy of the value the list gives
    option [i] last, else to a copy of its default. *)
Lemma configure_values cbs ud options w0 ctxp exit_callback w1 :
  (∀ k, strdup_option_ok E k = true) →
  (∀ i, strdup_default_ok E i = true) →
  configure B E cbs ud options w0 = Next (ctxp, exit_callback) w1 →
  config_sound w1
  ∧ ∀ i, config_string w1 i
         = match options ≫= last_value B i with
           | Some v => Some v
           | None => default_of B i
           end.
Proof.
  intros Hopt Hdef H. unfold configure in H.
  apply bind_Next_inv in H as ([p ecb] & wl & Hl & H).
  apply bind_Next_inv in H as ([] & ws & Hs & H).
  injection H as -> -> ->.
  apply set_options_keeps in Hs.
  apply load_configuration_Next in Hl as (wa & Ha & Hi).
  apply allocate_context_Next in Ha as (_ & _ & _ & _ & _ & Hc).
  assert (Hnone : ∀ j, config (ctx wa) !! j = Some None ∨ config (ctx wa) !! j = None).
  { intros j. rewrite Hc. simpl.
    destruct (replicate (NUM_OPTIONS B) None !! j) as [x|] eqn:Hx; [|by right].
    apply lookup_replicate in Hx as [-> _]. by left. }
  assert (Hwa : config_sound wa).
  { split.
    - intros j q Hq. destruct (Hnone j); congruence.
    - intros j1 j2 q Hq. destruct (Hnone j1); congruence. }
  assert (Hva : ∀ j, config_string wa j = None).
  { intros j. unfold config_string. by destruct (Hnone j) as [-> | ->]. }
  unfold initialize_context in Hi.
  apply bind_Next_inv in Hi as (ecb' & wr & Hr & Hi).
  apply register_caller_keeps in Hr.
  apply (config_sound_pool_state _ _ Hr) in Hwa.
  assert (Hvr : ∀ j, config_string wr j = None).
  { intros j. by rewrite (config_string_pool_state _ _ _ Hr). }
  apply bind_Next_inv in Hi as ([] & w2 & H2 & Hi).
  assert (config_sound w2
          ∧ ∀ j, config_string w2 j = options ≫= last_value B j) as [Hw2 Hv2].
  { destruct options as [l|].
    - destruct (parse_options_values B E ctxp l Hopt _ _ _ Hwa H2) as [Hs2 Hl2].
      split; [done|]. intros j. rewrite Hl2, Hvr. simpl.
      by destruct (last_value B j l).
    - injection H2 as <-. done. }
  apply bind_Next_inv in Hi as ([] & w3 & H3 & Hi).
  destruct (set_default_values_values E _ Hdef _ _ _ Hw2 H3) as [Hw3 Hv3].
  apply bind_Next_inv in Hi as ([] & w4 & H4 & Hi).
  apply check_document_root_keeps in H4.
  apply bind_Next_inv in Hi as ([] & w5 & H5 & Hi).
  injection H5 as <-. injection Hi as _ <-.
  assert (Hlast : pool_state (set_trace (trace w4 ++ [EvGetSystemName]) w4)
                  = pool_state w4) by reflexivity.
  split.
  - apply (config_sound_pool_state _ _ Hs), (config_sound_pool_state _ _ Hlast),
      (config_sound_pool_state _ _ H4), Hw3.
  - intros i.
    rewrite (config_string_pool_state _ _ _ Hs), (config_string_pool_state _ _ _ Hlast),
      (config_string_pool_state _ _ _ H4), Hv3, Hv2.
    destruct (options ≫= last_value B i); [done|].
    rewrite decide_True by lia. unfold default_of. by rewrite Nat.sub_0_r.
Qed.

Lemma config_string_kept w w' i :
  config_sound w → kept (next_ptr w) w w' → config_string w' i = config_string w i.
Proof.
  intros [S1 _] K. destruct (K (le_n _)) as (_ & C & S).
  unfold config_string. rewrite C.
  destruct (config (ctx w) !! i) as [[q|]|] eqn:Hq; try done.
  destruct (S1 _ _ Hq) as [Hlt [s Hs]]. by rewrite Hs, (S _ _ Hlt Hs).
Qed.

End kept_workers.

(** X2.  The values of the options.  After a successful [mg_start] in which
    every [mg_strdup] succeeded, entry [i] of [ctx->config] points to a
    copy of the value the list gives option [i] at its last occurrence,
    or, if the list does not name the option, to a copy of its default;
    it is NULL when the option has neither. *)
Theorem option_values_are_stored (B : build) (E : env) cbs ud options w0 p w :
  (∀ k, strdup_option_ok E k = true) →
  (∀ i, strdup_default_ok E i = true) →
  mg_start B E cbs ud options w0 = Return (Some p) w →
  ∀ i, config_string w i
       = match options ≫= last_value B i with
         | Some v => Some v
         | None => default_of B i
         end.
Proof.
  intros Hopt Hdef H i. unfold mg_start in H.
  apply bind_Return_inv in H as [H|([ctxp ecb] & w1 & Hconf & H)].
  { by apply configure_returns_null in H. }
  apply bind_Return_inv in H as [H|([] & w2 & Hprep & H)].
  { by apply prepare_threads_returns_null in H. }
  destruct (configure_values B E _ _ _ _ _ _ _ Hopt Hdef Hconf) as [Hsound Hval].
  rewrite <- Hval. apply config_string_kept; [done|].
  etrans; [by eapply prepare_threads_kept | by eapply start_workers_and_return_kept].
Qed.

(** ** Options given more than once (lines 138-142) *)

Lemma extends_no_cry w w' :
  extends no_cry w w' → ∃ evs, trace w' = trace w ++ evs ∧ cries evs = [].
Proof.
  intros (evs & T & F). exists evs. split; [done|]. clear T.
  induction F as [|e evs He _ IH]; [done|].
  destruct e; try discriminate He; exact IH.
Qed.

Lemma no_leak_pool_state N w w' :
  pool_state w' = pool_state w → no_leak N w → no_leak N w'.
Proof.
  unfold pool_state, no_leak. intros [= -> -> -> _ _ _ _]. done.
Qed.

Section duplicates.
Context (B : build) (E : env) (N : nat).

Lemma register_caller_no_cry ctxp cbs ud :
  carries (extends no_cry) (register_caller B E ctxp cbs ud).
Proof. carries_auto fail extends_leaf. Qed.

Lemma set_default_values_no_cry t :
  ∀ i, carries (extends no_cry) (set_default_values E i t).
Proof.
  induction t as [|[n d] t IH]; intros i; simpl;
    carries_auto ltac:(apply IH) extends_leaf.
Qed.

Lemma check_document_root_no_cry ctxp :
  carries (extends no_cry) (check_document_root B ctxp).
Proof. carries_auto fail extends_leaf. Qed.

Lemma any_refuses_no_cry cs : carries (extends no_cry) (any_refuses E cs).
Proof. induction cs; simpl; carries_auto ltac:(exact IHcs) extends_leaf. Qed.

Lemma set_options_no_cry ctxp : carries (extends no_cry) (set_options B E ctxp).
Proof. carries_auto ltac:(apply any_refuses_no_cry) extends_leaf. Qed.

(** The option loop, every copy succeeding: one warning per repeated
    option, and the copy it replaces is released. *)
Lemma parse_options_duplicates ctxp l :
  (∀ k, strdup_option_ok E k = true) →
  ∀ k seen w w',
    no_leak N w → N ≤ next_ptr w →
    (∀ z, z ∈ seen ↔ (0 ≤ z)%Z ∧ ∃ q, config (ctx w) !! Z.to_nat z = Some (Some q)) →
    parse_options B E ctxp k l w = Next tt w' →
    no_leak N w' ∧ N ≤ next_ptr w'
    ∧ ∃ evs, trace w' = trace w ++ evs
             ∧ cries evs = DuplicateOption <$> repeated_names B seen l.
Proof.
  intros Hok.
  induction l as [|name|name value rest IH] using list_pair_ind;
    intros k seen w w' Hw HN Hseen H.
  - injection H as <-. split_and!; try done. exists []. by rewrite app_nil_r.
  - simpl in H. destruct (decide _);
      destruct (cry_abort_run B (A:=unit) (InvalidOption name) ctxp w) as (? & ?);
      destruct (cry_abort_run B (A:=unit) (OptionValueNull name) ctxp w) as (? & ?);
      congruence.
  - simpl in H. destruct (decide (get_option_index B name = (-1)%Z)) as [Hidx|Hidx].
    { destruct (cry_abort_run B (A:=unit) (InvalidOption name) ctxp w) as (? & ?).
      congruence. }
    rewrite bind_unfold in H. unfold get_ctx at 1 in H. cbv beta iota in H.
    destruct (decide (0 ≤ get_option_index B name)%Z) as [Hpos|?]; [|discriminate].
    set (z := get_option_index B name) in *.
    destruct (config (ctx w) !! Z.to_nat z) as [old|] eqn:Hold; [|discriminate].
    destruct (store_option_run E k (Z.to_nat z) name value old w)
      as (w1 & H1 & C1 & N1 & _ & T1 & Hh).
    rewrite (bind_Next_l _ _ _ _ _ H1) in H.
    rewrite Hok in C1, N1, Hh, T1.
    assert (Hlen : Z.to_nat z < length (config (ctx w))) by (by eapply lookup_lt_Some).
    destruct Hw as [L1 L2].
    assert (Hw1 : no_leak N w1).
    { split.
      - intros q Hq. rewrite Hh, lookup_insert_ne by lia.
        destruct old as [q'|]; [|apply L1; lia].
        destruct (decide (q' = q)) as [->|]; [apply lookup_delete_eq|].
        rewrite lookup_delete_ne by done. apply L1. lia.
      - intros q s Hq Hs. rewrite C1. simpl.
        destruct (decide (q = next_ptr w)) as [->|Hne].
        + exists (Z.to_nat z). by apply list_lookup_insert_eq.
        + rewrite Hh, lookup_insert_ne in Hs by done.
          assert (Hs' : heap w !! q = Some (BString s) ∧ old ≠ Some q).
          { destruct old as [q'|]; [|done].
            destruct (decide (q' = q)) as [->|].
            - by rewrite lookup_delete_eq in Hs.
            - rewrite lookup_delete_ne in Hs by done. split; [done | congruence]. }
          destruct Hs' as [Hs' Hne'].
          destruct (L2 _ _ Hq Hs') as [i Hi]. exists i.
          rewrite list_lookup_insert_ne; [done|]. intros <-. congruence. }
    destruct (IH (S k) (z :: seen) w1 w' Hw1) as (Hw' & HN' & evs & T & Cr);
      [lia | | exact H |].
    { intros z'. rewrite elem_of_cons, Hseen, C1. simpl. split.
      - intros [->|[Hz' [q Hq]]].
        + split; [done|]. exists (next_ptr w). by apply list_lookup_insert_eq.
        + split; [done|].
          destruct (decide (Z.to_nat z = Z.to_nat z')) as [Heq|Hne].
          * exists (next_ptr w). rewrite <- Heq. by apply list_lookup_insert_eq.
          * exists q. by rewrite list_lookup_insert_ne.
      - intros [Hz' [q Hq]].
        destruct (decide (z' = z)) as [->|Hne]; [by left|]. right.
        split; [done|]. exists q.
        rewrite list_lookup_insert_ne in Hq; [done|]. lia. }
    split_and!; try done.
    eexists. split; [rewrite T, T1, <- !app_assoc; reflexivity|].
    rewrite !cries_app, Cr. cbn [repeated_names]. rewrite fmap_app. f_equal.
    destruct old as [q|].
    + rewrite decide_True; [done|]. apply Hseen. split; [done|]. by exists q.
    + rewrite decide_False; [done|]. rewrite Hseen. intros [_ [q Hq]].
      unfold z in *. congruence.
Qed.

Lemma store_default_no_leak i cur d w w' :
  (∀ i, strdup_default_ok E i = true) →
  no_leak N w → config (ctx w) !! i = Some cur →
  store_default E i cur d w = Next tt w' →
  no_leak N w' ∧ next_ptr w ≤ next_ptr w'.
Proof.
  intros Hok [L1 L2] Hcur H. unfold store_default in H.
  destruct cur as [q|]; [by injection H as <-|].
  destruct d as [dv|]; [|by injection H as <-].
  unfold mg_strdup in H. rewrite bind_unfold, mg_calloc_run, Hok in H.
  unfold modify_ctx, modify in H. injection H as <-. simpl.
  split; [|lia]. split; simpl.
  - intros q Hq. rewrite lookup_insert_ne by lia. apply L1. lia.
  - intros q s Hq Hs. destruct (decide (q = next_ptr w)) as [->|Hne].
    + exists i. apply list_lookup_insert_eq. by eapply lookup_lt_Some.
    + rewrite lookup_insert_ne in Hs by done.
      destruct (L2 _ _ Hq Hs) as [j Hj]. exists j.
      rewrite list_lookup_insert_ne; [done|]. intros <-. congruence.
Qed.

Lemma set_default_values_no_leak t :
  (∀ i, strdup_default_ok E i = true) →
  ∀ i w w', no_leak N w →
            set_default_values E i t w = Next tt w' →
            no_leak N w'.
Proof.
  intros Hok. induction t as [|[n d] t IH]; intros i w w' Hw H.
  - by injection H as <-.
  - simpl in H.
    rewrite bind_unfold in H. unfold get_ctx at 1 in H. cbv beta iota in H.
    destruct (config (ctx w) !! i) as [cur|] eqn:Hcur; [|discriminate].
    apply bind_Next_inv in H as ([] & w1 & H1 & H).
    destruct (store_default_no_leak _ _ _ _ _ Hok Hw Hcur H1) as [Hw1 _].
    by eapply IH.
Qed.

End duplicates.

(** X3.  Options given more than once.  When every [mg_strdup] succeeds and
    lines 57-179 go through, the messages logged are the duplicate
    warnings, one for each pair of the list whose option an earlier pair
    has set, in the order of the list; and every string the call has
    allocated and not released is one an entry of [ctx->config] points
    to: the copy a later pair replaces is released. *)
Theorem duplicate_options_are_replaced (B : build) (E : env)
    cbs ud l w0 ctxp exit_callback w1 :
  (∀ k, strdup_option_ok E k = true) →
  (∀ i, strdup_default_ok E i = true) →
  (∀ q, next_ptr w0 ≤ q → heap w0 !! q = None) →
  configure B E cbs ud (Some l) w0 = Next (ctxp, exit_callback) w1 →
  ∃ evs,
    trace w1 = trace w0 ++ evs
    ∧ cries evs = DuplicateOption <$> repeated_names B [] l
    ∧ ∀ q s, next_ptr w0 ≤ q → heap w1 !! q = Some (BString s) →
             ∃ i, config (ctx w1) !! i = Some (Some q).
Proof.
  intros Hopt Hdef Hfresh H. unfold configure in H.
  apply bind_Next_inv in H as ([p ecb] & wl & Hl & H).
  apply bind_Next_inv in H as ([] & ws & Hs & H).
  injection H as -> -> ->.
  pose proof (set_options_keeps B E _ _ _ _ Hs) as Ps.
  apply set_options_no_cry, extends_no_cry in Hs as (evs5 & T5 & Cr5).
  apply load_configuration_Next in Hl as (wa & Ha & Hi).
  apply allocate_context_Next in Ha as (-> & Ta & Hh & Hn & _ & Hc).
  set (N := next_ptr w0) in *.
  assert (Hnone : ∀ j, config (ctx wa) !! j = Some None ∨ config (ctx wa) !! j = None).
  { intros j. rewrite Hc. simpl.
    destruct (replicate (NUM_OPTIONS B) None !! j) as [x|] eqn:Hx; [|by right].
    apply lookup_replicate in Hx as [-> _]. by left. }
  assert (Hwa : no_leak N wa).
  { split.
    - intros q Hq. rewrite Hh, lookup_insert_ne by lia. apply Hfresh. lia.
    - intros q s Hq Hs'. rewrite Hh in Hs'.
      destruct (decide (q = N)) as [->|Hne].
      + by rewrite lookup_insert_eq in Hs'.
      + rewrite lookup_insert_ne in Hs' by done. rewrite Hfresh in Hs'; [done | lia]. }
  unfold initialize_context in Hi.
  apply bind_Next_inv in Hi as (ecb' & wr & Hr & Hi).
  pose proof (register_caller_keeps B E _ _ _ _ _ _ Hr) as Pr.
  apply register_caller_no_cry, extends_no_cry in Hr as (evs1 & T1 & Cr1).
  apply (no_leak_pool_state _ _ _ Pr) in Hwa.
  assert (Hcr : config (ctx wr) = config (ctx wa)).
  { unfold pool_state in Pr. by injection Pr. }
  assert (Hnr : next_ptr wr = S N).
  { unfold pool_state in Pr. injection Pr as _ -> _ _ _ _ _. done. }
  apply bind_Next_inv in Hi as ([] & w2 & H2 & Hi).
  destruct (parse_options_duplicates B E N N l Hopt 0 [] wr w2 Hwa)
    as (Hw2 & _ & evs2 & T2 & Cr2); [lia | | exact H2 |].
  { intros z. split; [by intros ?%elem_of_nil|].
    intros [_ [q Hq]]. rewrite Hcr in Hq. destruct (Hnone (Z.to_nat z)); congruence. }
  apply bind_Next_inv in Hi as ([] & w3 & H3 & Hi).
  pose proof (set_default_values_no_leak E N _ Hdef _ _ _ Hw2 H3) as Hw3.
  apply set_default_values_no_cry, extends_no_cry in H3 as (evs3 & T3 & Cr3).
  apply bind_Next_inv in Hi as ([] & w4 & H4 & Hi).
  pose proof (check_document_root_keeps B _ _ _ _ H4) as P4.
  apply check_document_root_no_cry, extends_no_cry in H4 as (evs4 & T4 & Cr4).
  apply bind_Next_inv in Hi as ([] & w5 & H5 & Hi).
  injection H5 as <-. injection Hi as _ <-.
  apply (no_leak_pool_state _ _ _ P4) in Hw3.
  assert (Hlast : pool_state (set_trace (trace w4 ++ [EvGetSystemName]) w4)
                  = pool_state w4) by reflexivity.
  apply (no_leak_pool_state _ _ _ Hlast), (no_leak_pool_state _ _ _ Ps) in Hw3.
  eexists. split; [|split].
  - rewrite T5. simpl. rewrite T4, T3, T2, T1, Ta, <- !app_assoc. reflexivity.
  - rewrite !cries_app, Cr1, Cr2, Cr3, Cr4, Cr5. simpl. by rewrite app_nil_r.
  - destruct Hw3 as [_ L2]. exact L2.
Qed.

(** ** Callers at the same time (lines 63-86) *)

Lemma wrap_int_small z : (INT_MIN ≤ z ≤ INT_MAX)%Z → wrap_int z = z.
Proof.
  unfold wrap_int, INT_MIN, INT_MAX. intros H.
  rewrite Z.mod_small by lia. lia.
Qed.

Lemma count_callers_insert P cs i c c' :
  cs !! i = Some c →
  count_callers P (<[i:=c']> cs) + (if P (caller_pc c) then 1 else 0)
  = count_callers P cs + (if P (caller_pc c') then 1 else 0).
Proof.
  unfold count_callers. revert i.
  induction cs as [|x cs IH]; intros [|i] H; simplify_eq/=.
  - lia.
  - specialize (IH _ H). lia.
Qed.

Lemma count_callers_le P cs : count_callers P cs ≤ length cs.
Proof.
  unfold count_callers. induction cs as [|x cs IH]; simpl; [lia|].
  destruct (P (caller_pc x)); lia.
Qed.

Lemma count_callers_ext P Q cs :
  Forall (λ c, P (caller_pc c) = Q (caller_pc c)) cs →
  count_callers P cs = count_callers Q cs.
Proof.
  unfold count_callers. induction 1 as [|x cs Hx _ IH]; simpl; [done|].
  rewrite Hx, IH. done.
Qed.

Lemma count_callers_all P cs :
  Forall (λ c, P (caller_pc c) = true) cs → count_callers P cs = length cs.
Proof.
  unfold count_callers. induction 1 as [|x cs Hx _ IH]; simpl; [done|].
  rewrite Hx, IH. done.
Qed.

Lemma count_callers_none P cs :
  Forall (λ c, P (caller_pc c) = false) cs → count_callers P cs = 0.
Proof.
  unfold count_callers. induction 1 as [|x cs Hx _ IH]; simpl; [done|].
  rewrite Hx, IH. done.
Qed.

Lemma count_callers_zero P cs c :
  count_callers P cs = 0 → c ∈ cs → P (caller_pc c) = false.
Proof.
  unfold count_callers. induction cs as [|x cs IH]; simpl.
  - intros _ H. by apply elem_of_nil in H.
  - intros H0 [->|H]%elem_of_cons.
    + destruct (P (caller_pc x)); [lia|done].
    + apply IH; [lia|done].
Qed.

Lemma entry_step_increment E p w :
  entry_step E p at_increment w =
  Next (if decide (wrap_int (sTlsInit w + 1) = 1%Z) then at_key_create else at_sleep)
       (set_trace (trace w ++ [EvAtomicInc (wrap_int (sTlsInit w + 1))])
                  (set_sTlsInit (wrap_int (sTlsInit w + 1)) w)).
Proof. reflexivity. Qed.

Lemma entry_step_key_create E p w :
  entry_step E p at_key_create w =
  if pthread_key_create_ok E
  then Next (passed true)
            (set_tls_keys (S (tls_keys w)) (set_trace (trace w ++ [EvKeyCreate true]) w))
  else Next at_decrement (set_trace (trace w ++ [EvKeyCreate false]) w).
Proof. unfold entry_step, pthread_key_create. destruct (pthread_key_create_ok E); reflexivity. Qed.

Lemma entry_step_decrement E p w :
  entry_step E p at_decrement w =
  Next at_give_up
       (set_trace (trace w ++ [EvAtomicDec (wrap_int (sTlsInit w - 1))])
                  (set_sTlsInit (wrap_int (sTlsInit w - 1)) w)).
Proof. reflexivity. Qed.

Lemma entry_step_give_up E p w :
  ∃ w', entry_step E p at_give_up w = Next gave_up w'
        ∧ trace w' = trace w ++ [EvCry CannotInitTLS; EvFree p]
        ∧ sTlsInit w' = sTlsInit w ∧ tls_keys w' = tls_keys w.
Proof.
  unfold entry_step, mg_cry, mg_free, emit, modify.
  cbv [mbind M_bind mret M_ret].
  eexists. split; [reflexivity|]. simpl.
  rewrite <- app_assoc. by destruct (heap w !! p).
Qed.

Lemma entry_step_sleep E p w :
  entry_step E p at_sleep w =
  Next (passed false) (set_trace (trace w ++ [EvSleep 1]) w).
Proof. reflexivity. Qed.

Lemma entry_inv_enter w0 callers :
  sTlsInit w0 = 0%Z → entry_inv w0 callers (w0, enter <$> callers).
Proof.
  intros H0.
  assert (Hnone : ∀ P, P at_increment = false →
                       count_callers P (enter <$> callers) = 0).
  { intros P HP. apply count_callers_none, Forall_fmap, Forall_true. done. }
  unfold entry_inv. simpl.
  rewrite !Hnone by done. split_and!; try done.
  - rewrite <- list_fmap_compose. rewrite <- (list_fmap_id callers) at 2.
    apply list_fmap_ext. by intros ? [].
  - lia.
  - apply Forall_fmap, Forall_true. done.
  - lia.
Qed.

(** The steps are the statements of lines 63-86. *)
Lemma entry_run_is_lines_63_86 (E : env) (ctxp : nat) w :
  init_thread_local_storage E ctxp w =
  (pc ← entry_run E ctxp 4 at_increment;
   match pc with
   | passed _ =>
       idx ← mg_atomic_inc_thread_idx_max;
       pthread_setspecific (Some (WorkerTLS (-1) (to_unsigned idx)))
   | _ => return_ None
   end) w.
Proof.
  unfold init_thread_local_storage.
  rewrite (bind_unfold (entry_run _ _ _ _)). cbn [entry_run].
  rewrite (bind_Next_l _ _ _ _ _ (entry_step_increment E ctxp w)).
  assert (Hinc : mg_atomic_inc_sTlsInit w =
                 Next (wrap_int (sTlsInit w + 1))
                      (set_trace (trace w ++ [EvAtomicInc (wrap_int (sTlsInit w + 1))])
                         (set_sTlsInit (wrap_int (sTlsInit w + 1)) w)))
    by reflexivity.
  rewrite (bind_Next_l _ _ _ _ _ Hinc).
  set (w1 := set_trace _ _).
  destruct (decide (wrap_int (sTlsInit w + 1) = 1%Z)) as [H1|H1].
  - cbn [entry_run]. rewrite (bind_unfold (entry_step _ _ _)), entry_step_key_create.
    rewrite bind_unfold. rewrite (bind_unfold (pthread_key_create _)).
    unfold pthread_key_create.
    destruct (pthread_key_create_ok E).
    + reflexivity.
    + reflexivity.
  - cbn [entry_run]. reflexivity.
Qed.

Lemma system_step_inv w0 callers i s :
  (Z.of_nat (length callers) ≤ INT_MAX)%Z →
  entry_inv w0 callers s → entry_inv w0 callers (system_step i s).
Proof.
  intros Hb Hinv. destruct s as [w cs].
  unfold system_step. simpl.
  destruct (cs !! i) as [c|] eqn:Hci; [|exact Hinv].
  destruct (final (caller_pc c)) eqn:Hfin; [exact Hinv|].
  destruct Hinv as (Hid & Hc & Hi & Hk & Hl & Hok). simpl in *.
  assert (Hlen : length cs = length callers).
  { rewrite <- Hid. by rewrite length_fmap. }
  assert (Hlog : log_at c).
  { eapply Forall_lookup_1; eauto. }
  assert (HE : Forall (λ a, pthread_key_create_ok a.1 = true) callers →
               pthread_key_create_ok (caller_env c) = true).
  { intros Hall.
    assert (Hlk : callers !! i = Some (identity c)).
    { rewrite <- Hid, list_lookup_fmap, Hci. done. }
    exact (Forall_lookup_1 _ _ _ _ Hall Hlk). }
  assert (Hkeep : ∀ pc l,
    identity <$> <[i:=Caller (caller_env c) (caller_ctx c) pc l]> cs = callers).
  { intros pc l. rewrite list_fmap_insert. unfold identity at 1. simpl.
    rewrite <- Hid. apply list_insert_id.
    rewrite list_lookup_fmap, Hci. done. }
  assert (Hins : ∀ P pc l,
    count_callers P (<[i:=Caller (caller_env c) (caller_ctx c) pc l]> cs)
    + (if P (caller_pc c) then 1 else 0)
    = count_callers P cs + (if P pc then 1 else 0)).
  { intros P pc l.
    exact (count_callers_insert P cs i c (Caller (caller_env c) (caller_ctx c) pc l) Hci). }
  assert (Hle : ∀ P pc l,
    count_callers P (<[i:=Caller (caller_env c) (caller_ctx c) pc l]> cs)
    ≤ length callers).
  { intros P pc l. rewrite <- Hlen, <- (length_insert cs i (Caller (caller_env c) (caller_ctx c) pc l)).
    apply count_callers_le. }
  destruct c as [E p pc log]. unfold log_at in Hlog. simpl in *.
  destruct pc as [| | | | |creator|]; try discriminate Hfin; clear Hfin.
  - (* line 63 *)
    rewrite entry_step_increment.
    set (n := wrap_int (sTlsInit w + 1)).
    assert (Hn : n = (Z.of_nat (count_callers counted cs) + 1)%Z).
    { unfold n. rewrite Hc. apply wrap_int_small.
      pose proof (Hle counted at_sleep []) as H1.
      pose proof (Hins counted at_sleep []) as H2. simpl in H2.
      unfold INT_MIN, INT_MAX in *. lia. }
    unfold entry_inv. simpl. rewrite drop_app_length. subst log. simpl.
    destruct (decide (n = 1%Z)) as [H1|H1].
    + assert (H0 : count_callers counted cs = 0) by lia.
      assert (Hi0 : count_callers initializer cs = 0).
      { apply count_callers_none, Forall_forall. intros c Hcin.
        pose proof (count_callers_zero _ _ _ H0 Hcin) as Hf.
        destruct (caller_pc c) as [| | | | |[]|]; done. }
      pose proof (Hins counted at_key_create [EvAtomicInc n]) as A1.
      pose proof (Hins initializer at_key_create [EvAtomicInc n]) as A2.
      pose proof (Hins creator at_key_create [EvAtomicInc n]) as A3.
      pose proof (Hins failed at_key_create [EvAtomicInc n]) as A4.
      simpl in A1, A2, A3, A4.
      split_and!; [apply Hkeep|lia|lia|lia| |].
      * apply Forall_insert; [done|]. unfold log_at. simpl. by rewrite H1.
      * intros Hall. destruct (Hok Hall) as [F1 F2]. lia.
    + pose proof (Hins counted at_sleep [EvAtomicInc n]) as A1.
      pose proof (Hins initializer at_sleep [EvAtomicInc n]) as A2.
      pose proof (Hins creator at_sleep [EvAtomicInc n]) as A3.
      pose proof (Hins failed at_sleep [EvAtomicInc n]) as A4.
      simpl in A1, A2, A3, A4.
      split_and!; [apply Hkeep|lia|lia|lia| |].
      * apply Forall_insert; [done|]. unfold log_at. simpl. by exists n.
      * intros Hall. destruct (Hok Hall) as [F1 F2]. split; [lia|].
        intros _. rewrite <- F2; lia.
  - (* line 73 *)
    rewrite entry_step_key_create.
    destruct (pthread_key_create_ok E) eqn:Hcreate.
    + unfold entry_inv. simpl. rewrite drop_app_length. subst log. simpl.
      pose proof (Hins counted (passed true) [EvAtomicInc 1; EvKeyCreate true]) as A1.
      pose proof (Hins initializer (passed true) [EvAtomicInc 1; EvKeyCreate true]) as A2.
      pose proof (Hins creator (passed true) [EvAtomicInc 1; EvKeyCreate true]) as A3.
      pose proof (Hins failed (passed true) [EvAtomicInc 1; EvKeyCreate true]) as A4.
      simpl in A1, A2, A3, A4.
      split_and!; [apply Hkeep|lia|lia|lia| |].
      * apply Forall_insert; [done|]. done.
      * intros Hall. destruct (Hok Hall) as [F1 F2]. lia.
    + unfold entry_inv. simpl. rewrite drop_app_length. subst log. simpl.
      pose proof (Hins counted at_decrement [EvAtomicInc 1; EvKeyCreate false]) as A1.
      pose proof (Hins initializer at_decrement [EvAtomicInc 1; EvKeyCreate false]) as A2.
      pose proof (Hins creator at_decrement [EvAtomicInc 1; EvKeyCreate false]) as A3.
      simpl in A1, A2, A3.
      split_and!; [apply Hkeep|lia|lia|lia| |].
      * apply Forall_insert; [done|]. done.
      * intros Hall. specialize (HE Hall). congruence.
  - (* line 77 *)
    rewrite entry_step_decrement.
    set (n := wrap_int (sTlsInit w - 1)).
    pose proof (Hins counted at_give_up (log ++ [EvAtomicDec n])) as A1.
    pose proof (Hins initializer at_give_up (log ++ [EvAtomicDec n])) as A2.
    pose proof (Hins creator at_give_up (log ++ [EvAtomicDec n])) as A3.
    simpl in A1, A2, A3.
    assert (Hn : n = (Z.of_nat (count_callers counted cs) - 1)%Z).
    { unfold n. rewrite Hc. apply wrap_int_small.
      pose proof (count_callers_le counted cs).
      unfold INT_MIN, INT_MAX in *. lia. }
    unfold entry_inv. simpl. rewrite drop_app_length.
    split_and!; [apply Hkeep|lia|lia|lia| |].
    + apply Forall_insert; [done|]. unfold log_at. simpl. subst log. by exists n.
    + intros Hall. destruct (Hok Hall) as [F1 F2].
      pose proof (count_callers_zero _ _ _ F1 (list_elem_of_lookup_2 _ _ _ Hci)).
      done.
  - (* lines 78-80 *)
    destruct (entry_step_give_up E p w) as (w' & -> & Ht & Hs & Hkeys).
    destruct Hlog as [v ->].
    set (l := _ ++ drop _ _).
    pose proof (Hins counted gave_up l) as A1.
    pose proof (Hins initializer gave_up l) as A2.
    pose proof (Hins creator gave_up l) as A3.
    pose proof (Hins failed gave_up l) as A4.
    simpl in A1, A2, A3, A4.
    unfold entry_inv. simpl. rewrite Hs, Hkeys.
    split_and!; [apply Hkeep|lia|lia|lia| |].
    + apply Forall_insert; [done|]. unfold log_at, l. simpl.
      rewrite Ht, drop_app_length. by exists v.
    + intros Hall. destruct (Hok Hall) as [F1 F2]. lia.
  - (* line 85 *)
    rewrite entry_step_sleep.
    destruct Hlog as (v & Hv & ->).
    pose proof (Hins counted (passed false) [EvAtomicInc v; EvSleep 1]) as A1.
    pose proof (Hins initializer (passed false) [EvAtomicInc v; EvSleep 1]) as A2.
    pose proof (Hins creator (passed false) [EvAtomicInc v; EvSleep 1]) as A3.
    pose proof (Hins failed (passed false) [EvAtomicInc v; EvSleep 1]) as A4.
    simpl in A1, A2, A3, A4.
    unfold entry_inv. simpl. rewrite drop_app_length. simpl.
    split_and!; [apply Hkeep|lia|lia|lia| |].
    + apply Forall_insert; [done|]. unfold log_at. simpl. by exists v.
    + intros Hall. destruct (Hok Hall) as [F1 F2]. lia.
Qed.

Lemma run_schedule_inv w0 callers schedule s :
  (Z.of_nat (length callers) ≤ INT_MAX)%Z →
  entry_inv w0 callers s → entry_inv w0 callers (run_schedule schedule s).
Proof.
  intros Hb. revert s.
  induction schedule as [|i schedule IH]; intros s Hs; [exact Hs|].
  simpl. apply IH, system_step_inv; done.
Qed.

Lemma count_callers_mono P Q cs :
  (∀ pc, P pc = true → Q pc = true) →
  count_callers P cs ≤ count_callers Q cs.
Proof.
  intros HPQ. unfold count_callers.
  induction cs as [|x cs IH]; simpl; [lia|].
  specialize (HPQ (caller_pc x)).
  destruct (P (caller_pc x)); [rewrite HPQ by done|destruct (Q (caller_pc x))]; lia.
Qed.

(** C9. Callers of [mg_start] that run lines 63-86 at the same time,
    [mg_atomic_inc] and [mg_atomic_dec] being atomic, [sTlsInit] being 0
    before the first of them: whatever the interleaving, a caller calls
    [pthread_key_create] only after its increment returned 1 and only
    once, every caller whose increment returned another value sleeps
    1 ms and goes on, at most one call of [pthread_key_create] succeeds,
    and exactly one when [pthread_key_create] never fails and every
    caller has reached line 88. *)
Theorem tls_key_is_created_once (w0 : world) (callers : list (env * nat))
    (schedule : list nat) :
  sTlsInit w0 = 0%Z →
  (Z.of_nat (length callers) ≤ INT_MAX)%Z →
  ∃ w cs,
    run_schedule schedule (w0, enter <$> callers) = (w, cs)
    ∧ identity <$> cs = callers
    ∧ Forall log_at cs
    ∧ tls_keys w = tls_keys w0 + count_callers creator cs
    ∧ count_callers creator cs ≤ 1
    ∧ (Forall (λ a, pthread_key_create_ok a.1 = true) callers →
       Forall (λ c, final (caller_pc c) = true) cs →
       callers ≠ [] →
       tls_keys w = S (tls_keys w0)).
Proof.
  intros H0 Hb.
  pose proof (run_schedule_inv w0 callers schedule _ Hb
                (entry_inv_enter w0 callers H0)) as Hinv.
  destruct (run_schedule schedule (w0, enter <$> callers)) as [w cs].
  destruct Hinv as (Hid & Hc & Hi & Hk & Hl & Hok). simpl in *.
  exists w, cs. split_and!; try done.
  - etrans; [|exact Hi]. apply count_callers_mono. by intros [| | | | |[]|].
  - intros Hall Hfin Hne. destruct (Hok Hall) as [F1 F2].
    assert (Hcounted : count_callers counted cs = length cs).
    { apply count_callers_all, Forall_forall. intros c Hcin.
      pose proof (count_callers_zero _ _ _ F1 Hcin) as Hf.
      pose proof (proj1 (Forall_forall _ _) Hfin c Hcin) as Hc'. simpl in Hc'.
      destruct (caller_pc c); done. }
    assert (Hlen : 0 < length cs).
    { assert (length cs = length callers) as -> by (by rewrite <- Hid, length_fmap).
      destruct callers; [done|simpl; lia]. }
    assert (Hcr : count_callers creator cs = count_callers initializer cs).
    { apply count_callers_ext. eapply Forall_impl; [exact Hfin|].
      intros c Hc'. simpl in Hc'. by destruct (caller_pc c) as [| | | | |[]|]. }
    rewrite Hk, Hcr, F2 by lia. lia.
Qed.

(** ** All workers start (lines 258-295) *)

Lemma spawned_all (E : env) count :
  ∀ i, (∀ j, j < count → spawns E (i + j) = true) → spawned E i count = count.
Proof.
  induction count as [|count IH]; intros i H; simpl; [done|].
  rewrite <- (Nat.add_0_r i) at 1. rewrite H by lia. f_equal.
  apply IH. intros j Hj. replace (S i + j) with (i + S j) by lia. apply H. lia.
Qed.

(** X4.  The main path.  When lines 57-256 have gone through and every
    configured worker gets its thread, [mg_start] returns its context,
    which is live; lines 258-295 log nothing, make one attempt per
    worker in index order, and leave running the master (when line 256
    started it; its result is not looked at) and the workers 0 .. n-1,
    whose thread ids fill the handle list in that order. *)
Theorem all_workers_start (B : build) (E : env)
    cbs ud options w0 ctxp exit_callback w1 w2 :
  configure B E cbs ud options w0 = Next (ctxp, exit_callback) w1 →
  prepare_threads B E ctxp exit_callback w1 = Next tt w2 →
  (∀ i, (Z.of_nat i < cfg_worker_threads (ctx w2))%Z → spawns E i = true) →
  ∃ w ids evs,
    mg_start B E cbs ud options w0 = Return (Some ctxp) w
    ∧ heap w !! ctxp = Some BContext
    ∧ ctx w = ctx w2
    ∧ trace w = trace w2 ++ evs ++ [EvSetSpecific None]
    ∧ cries evs = []
    ∧ worker_attempts evs = seq 0 (length ids)
    ∧ threads w = threads w0
                  ++ (if master_thread_started E then [master_thread] else [])
                  ++ (worker_thread <$> seq 0 (length ids))
    ∧ Z.of_nat (length ids) = cfg_worker_threads (ctx w)
    ∧ (ids ≠ [] → worker_handles w = Some ids)
    ∧ (∀ j, j < length ids → ids !! j = Some (S (length (threads w2)) + j)).
Proof.
  intros Hconf Hprep Hok.
  destruct (configure_ready B E _ _ _ _ _ _ _ Hconf) as [Hready Hth1].
  destruct (prepare_threads_Next B E _ _ _ _ Hready Hprep)
    as (s & n & _ & _ & _ & Hpool & Hth2).
  set (ids0 := replicate (Z.to_nat n) 0) in *.
  assert (spawned E 0 (length ids0) = length ids0) as Hsp.
  { apply spawned_all. intros j Hj. apply Hok.
    destruct Hpool as (_ & _ & Hc & _). simpl. lia. }
  destruct (start_workers_and_return_run B E ctxp ids0 w2 Hpool) as [HA _].
  rewrite Hsp in HA.
  destruct HA as (w & ids & evs & H & C & P & L & I & T & Tr & A & Cr); [by left|].
  rewrite decide_True in A by done. rewrite decide_True in Cr by done.
  exists w, ids, evs.
  rewrite (mg_start_after_prepare B E _ _ _ _ _ _ _ _ Hconf Hprep).
  rewrite L. split_and!; try done.
  - by destruct P as (? & _).
  - rewrite T, Hth2, Hth1. by rewrite <- app_assoc.
  - destruct P as (_ & _ & -> & _). by rewrite L.
  - intros Hne. by apply (pool_allocated_handles ctxp).
  - intros j Hj. rewrite I. by rewrite decide_True by lia.
Qed.

(** ** The context a successful start returns *)

Section returned.
Context (B : build) (E : env).

Lemma init_thread_local_storage_ctx ctxp :
  carries (same ctx) (init_thread_local_storage E ctxp).
Proof. carries_auto fail same_leaf. Qed.

Lemma init_sync_objects_ctx ctxp : carries (same ctx) (init_sync_objects B E ctxp).
Proof. carries_auto fail same_leaf. Qed.

(** Lines 63-120, when they go through. *)
Lemma register_caller_Next ctxp cbs ud w exit_callback w' :
  register_caller B E ctxp cbs ud w = Next exit_callback w' →
  exit_callback = cbs ≫= exit_context
  ∧ ctx w' = set_user_data ud
               (match cbs with
                | Some cb => set_callbacks (Callbacks (init_context cb) None) (ctx w)
                | None => ctx w
                end).
Proof.
  intros H. unfold register_caller in H.
  inv_bind H. apply init_thread_local_storage_ctx in H0.
  inv_bind H. apply init_sync_objects_ctx in H1.
  unfold same in H0, H1.
  unfold copy_callbacks, modify_ctx, modify in H. rewrite !bind_unfold in H.
  destruct cbs as [cb|]; rewrite ?bind_unfold in H; cbv beta iota in H;
    injection H as <- <-; simpl; by rewrite H1, H0.
Qed.

Lemma parse_options_identity ctxp l :
  ∀ k, carries (same identity_fields) (parse_options B E ctxp k l).
Proof.
  induction l as [|name|name value rest IH] using list_pair_ind; intros k; simpl;
    carries_auto ltac:(apply IH) same_leaf.
Qed.

Lemma set_default_values_identity t :
  ∀ i, carries (same identity_fields) (set_default_values E i t).
Proof.
  induction t as [|[n d] t IH]; intros i; simpl;
    carries_auto ltac:(apply IH) same_leaf.
Qed.

Lemma check_document_root_identity ctxp :
  carries (same identity_fields) (check_document_root B ctxp).
Proof. carries_auto fail same_leaf. Qed.

Lemma any_refuses_identity cs : carries (same identity_fields) (any_refuses E cs).
Proof. induction cs; simpl; carries_auto ltac:(exact IHcs) same_leaf. Qed.

Lemma set_options_identity ctxp :
  carries (same identity_fields) (set_options B E ctxp).
Proof. carries_auto ltac:(apply any_refuses_identity) same_leaf. Qed.

(** Lines 57-179, when they go through: the context is the block
    allocated at line 58, the callbacks are copied with [exit_context]
    held back, and [user_data] is stored. *)
Lemma configure_identity cbs ud options w0 ctxp exit_callback w1 :
  configure B E cbs ud options w0 = Next (ctxp, exit_callback) w1 →
  ctxp = next_ptr w0
  ∧ exit_callback = cbs ≫= exit_context
  ∧ identity_fields w1
    = (Callbacks (cbs ≫= init_context) None, ud, 0%Z,
       Z.lxor (get_random E mod 2 ^ 64) (options_addr E mod 2 ^ 64)).
Proof.
  intros H. unfold configure in H.
  apply bind_Next_inv in H as ([p ecb] & wl & Hl & H).
  apply bind_Next_inv in H as ([] & ws & Hs & H).
  injection H as -> -> ->.
  apply set_options_identity in Hs. rewrite Hs.
  apply load_configuration_Next in Hl as (wa & Ha & Hi).
  apply allocate_context_Next in Ha as (Hp & _ & _ & _ & _ & Hc).
  unfold initialize_context in Hi.
  apply bind_Next_inv in Hi as (ecb' & wr & Hr & Hi).
  apply register_caller_Next in Hr as [Hecb Hcr].
  apply bind_Next_inv in Hi as ([] & w2 & H2 & Hi).
  assert (identity_fields w2 = identity_fields wr) as H2'.
  { destruct options as [l|].
    - by eapply parse_options_identity.
    - by injection H2 as <-. }
  apply bind_Next_inv in Hi as ([] & w3 & H3 & Hi).
  apply set_default_values_identity in H3.
  apply bind_Next_inv in Hi as ([] & w4 & H4 & Hi).
  apply check_document_root_identity in H4.
  apply bind_Next_inv in Hi as ([] & w5 & H5 & Hi).
  injection H5 as <-. injection Hi as <- <-.
  split; [done|]. split; [done|].
  change (identity_fields (set_trace (trace w4 ++ [EvGetSystemName]) w4))
    with (identity_fields w4).
  rewrite H4, H3, H2'. unfold identity_fields. rewrite Hcr, Hc.
  by destruct cbs.
Qed.

Lemma create_wait_events_identity count :
  ∀ i, carries (same identity_fields) (create_wait_events E i count).
Proof.
  induction count as [|count IH]; intros i; simpl;
    carries_auto ltac:(apply IH) same_leaf.
Qed.

Lemma allocate_worker_arrays_identity ctxp n :
  carries (same identity_fields) (allocate_worker_arrays B E ctxp n).
Proof. carries_auto ltac:(apply create_wait_events_identity) same_leaf. Qed.

Lemma read_worker_thread_count_identity ctxp :
  carries (same identity_fields) (read_worker_thread_count B ctxp).
Proof. carries_auto fail same_leaf. Qed.

Lemma init_timers_identity ctxp :
  carries (same identity_fields) (init_timers B E ctxp).
Proof. carries_auto fail same_leaf. Qed.

Lemma ignore_sigpipe_identity : carries (same identity_fields) (ignore_sigpipe B).
Proof. carries_auto fail same_leaf. Qed.

Lemma start_master_thread_identity :
  carries (same identity_fields) (start_master_thread E).
Proof. carries_auto fail same_leaf. Qed.

(** Lines 248-253. *)
Lemma init_user_context_Next exit_callback w a w' :
  init_user_context exit_callback w = Next a w' →
  identity_fields w'
  = (Callbacks (init_context (callbacks (ctx w))) exit_callback,
     user_data (ctx w), 1%Z, auth_nonce_mask (ctx w))
  ∧ trace w' = trace w ++ match init_context (callbacks (ctx w)) with
                          | Some f => [EvInitContext f]
                          | None => []
                          end.
Proof.
  unfold init_user_context, get_ctx, emit, modify_ctx, modify.
  rewrite !bind_unfold. cbv beta iota.
  destruct (init_context (callbacks (ctx w))) eqn:Hinit;
    rewrite ?bind_unfold; cbv beta iota; intros [= _ <-];
    unfold identity_fields; simpl; rewrite ?Hinit, ?app_nil_r; done.
Qed.

(** Lines 181-256, when they go through: the user's [init_context] has
    had its call, [exit_context] is handed over and the context is marked
    a server context. *)
Lemma prepare_threads_identity ctxp exit_callback w1 w2 :
  prepare_threads B E ctxp exit_callback w1 = Next tt w2 →
  identity_fields w2
  = (Callbacks (init_context (callbacks (ctx w1))) exit_callback,
     user_data (ctx w1), 1%Z, auth_nonce_mask (ctx w1)).
Proof.
  intros H. unfold prepare_threads in H.
  apply bind_Next_inv in H as (? & wa & Ha & H). apply ignore_sigpipe_identity in Ha.
  apply bind_Next_inv in H as (? & wb & Hb & H).
  apply read_worker_thread_count_identity in Hb.
  apply bind_Next_inv in H as (? & wc & Hc & H).
  apply allocate_worker_arrays_identity in Hc.
  apply bind_Next_inv in H as (? & wd & Hd & H). apply init_timers_identity in Hd.
  apply bind_Next_inv in H as (? & we & He & H).
  apply init_user_context_Next in He as [He _].
  apply start_master_thread_identity in H.
  unfold same in *. rewrite H, He.
  assert (identity_fields wd = identity_fields w1) as Hid by congruence.
  unfold identity_fields in Hid. by injection Hid as -> -> _ ->.
Qed.

End returned.

(** X5.  The context a successful start returns: it is the block
    allocated at line 58 and it is live; it carries the caller's
    [user_data] and callbacks, [exit_context] included (held back at line
    117, handed over at line 252), is marked a server context, and its
    nonce mask is the random number xor the address of the option list;
    the caller's thread-local slot has been reset to NULL. *)
Theorem started_context (B : build) (E : env) cbs ud options w0 p w :
  mg_start B E cbs ud options w0 = Return (Some p) w →
  p = next_ptr w0
  ∧ heap w !! p = Some BContext
  ∧ user_data (ctx w) = ud
  ∧ callbacks (ctx w) = Callbacks (cbs ≫= init_context) (cbs ≫= exit_context)
  ∧ context_type (ctx w) = 1%Z
  ∧ auth_nonce_mask (ctx w)
    = Z.lxor (get_random E mod 2 ^ 64) (options_addr E mod 2 ^ 64)
  ∧ tls_slot w = None.
Proof.
  intros H. unfold mg_start in H.
  apply bind_Return_inv in H as [H|([ctxp ecb] & w1 & Hconf & H)].
  { by apply configure_returns_null in H. }
  apply bind_Return_inv in H as [H|([] & w2 & Hprep & H)].
  { by apply prepare_threads_returns_null in H. }
  destruct (configure_identity B E _ _ _ _ _ _ _ Hconf) as (Hp & Hecb & Hid1).
  pose proof (prepare_threads_identity B E _ _ _ _ Hprep) as Hid2.
  unfold identity_fields in Hid1. injection Hid1 as Hcb Hud _ Hmask.
  rewrite Hcb, Hud, Hmask in Hid2. simpl in Hid2.
  destruct (configure_ready B E _ _ _ _ _ _ _ Hconf) as [Hready _].
  destruct (prepare_threads_Next B E _ _ _ _ Hready Hprep)
    as (s & n & _ & _ & _ & Hpool & _).
  assert (Hfinal : p = ctxp ∧ ctx w = ctx w2 ∧ tls_slot w = None
                   ∧ heap w !! ctxp = Some BContext).
  { destruct (start_workers_and_return_run B E ctxp _ w2 Hpool) as [HA HB].
    pose proof (spawned_le E 0 (length (replicate (Z.to_nat n) 0))) as Hle.
    destruct (decide (spawned E 0 (length (replicate (Z.to_nat n) 0))
                      = length (replicate (Z.to_nat n) 0)
                      ∨ 0 < spawned E 0 (length (replicate (Z.to_nat n) 0))))
      as [Hk|Hk].
    - destruct (HA Hk) as (w' & ids & evs & H' & C & P & _).
      rewrite H' in H. injection H as <- <-.
      destruct P as (P1 & _). split_and!; try done.
      unfold start_workers_and_return in H'.
      rewrite bind_unfold in H'. unfold get_ctx at 1 in H'. cbv beta iota in H'.
      apply bind_Return_inv in H' as [H'|([] & w3 & _ & H')].
      { by apply start_worker_threads_returns_null in H'. }
      unfold pthread_setspecific, emit, modify, return_ in H'.
      rewrite !bind_unfold in H'. cbv beta iota in H'. by injection H' as <-.
    - destruct HB as (w' & evs & H' & _); [lia | lia |]. congruence. }
  destruct Hfinal as (-> & Hc & Ht & Hh).
  unfold identity_fields in Hid2. rewrite <- Hc in Hid2.
  injection Hid2 as -> -> -> ->. subst ecb. subst ctxp. done.
Qed.

(** ** Failures before the option list (lines 57-112) *)

Section early.
Context (B : build) (E : env).



End early.

Ltac world_simpl :=
  cbn [heap next_ptr bad_frees sTlsInit thread_idx_max tls_keys tls_slot threads
       trace ctx set_heap set_next_ptr set_bad_frees set_sTlsInit
       set_thread_idx_max set_tls_keys set_tls_slot set_threads set_trace set_ctx].

Ltac run_registration :=
  cbv [init_thread_local_storage init_sync_objects mg_atomic_inc_sTlsInit
       mg_atomic_dec_sTlsInit mg_atomic_inc_thread_idx_max pthread_key_create
       pthread_setspecific mg_sleep mg_cry mg_free emit return_ modify get_world
       mbind M_bind mret M_ret];
  world_simpl.


(** ** Builds without files (lines 154-161) *)

Lemma check_document_root_Next (B : build) ctxp w a w' :
  NO_FILES B = true →
  check_document_root B ctxp w = Next a w' →
  w' = w ∧ config (ctx w) !! DOCUMENT_ROOT B = Some None.
Proof.
  intros HB. unfold check_document_root, get_ctx. rewrite HB, bind_unfold.
  cbv beta iota.
  destruct (config (ctx w) !! DOCUMENT_ROOT B) as [[q|]|]; try discriminate.
  - intros H. by apply cry_abort_never_next in H.
  - by intros [= _ <-].
Qed.

(** Where a successful start leaves [ctx->config]: as lines 57-179 left
    it. *)
Lemma configuration_is_final (B : build) (E : env) cbs ud options w0 p w :
  mg_start B E cbs ud options w0 = Return (Some p) w →
  ∃ exit_callback w1,
    configure B E cbs ud options w0 = Next (p, exit_callback) w1
    ∧ config (ctx w) = config (ctx w1).
Proof.
  intros H. unfold mg_start in H.
  apply bind_Return_inv in H as [H|([ctxp ecb] & w1 & Hconf & H)].
  { by apply configure_returns_null in H. }
  apply bind_Return_inv in H as [H|([] & w2 & Hprep & H)].
  { by apply prepare_threads_returns_null in H. }
  assert (Hk : kept (next_ptr w1) w1 w).
  { etrans; [by eapply prepare_threads_kept
            | by eapply start_workers_and_return_kept]. }
  destruct (Hk (le_n _)) as (_ & Hc & _).
  destruct (configure_ready B E _ _ _ _ _ _ _ Hconf) as [Hready _].
  destruct (prepare_threads_Next B E _ _ _ _ Hready Hprep)
    as (s & n & _ & _ & _ & Hpool & _).
  destruct (start_workers_and_return_run B E ctxp _ w2 Hpool) as [HA HB].
  pose proof (spawned_le E 0 (length (replicate (Z.to_nat n) 0))) as Hle.
  assert (p = ctxp) as ->.
  { destruct (decide (spawned E 0 (length (replicate (Z.to_nat n) 0))
                      = length (replicate (Z.to_nat n) 0)
                      ∨ 0 < spawned E 0 (length (replicate (Z.to_nat n) 0))))
      as [Hk'|Hk'].
    - destruct (HA Hk') as (w' & ids & evs & H' & _). congruence.
    - destruct HB as (w' & evs & H' & _); [lia | lia |]. congruence. }
  by exists ecb, w1.
Qed.

(** X7.  A build without files.  With [NO_FILES] defined a successful
    start leaves [ctx->config[DOCUMENT_ROOT]] NULL; so, every [mg_strdup]
    succeeding, the option list did not name the document root and the
    option table gives it no default: with either, line 155 makes
    [mg_start] fail. *)
Theorem document_root_stays_unset (B : build) (E : env) cbs ud options w0 p w :
  NO_FILES B = true →
  mg_start B E cbs ud options w0 = Return (Some p) w →
  config (ctx w) !! DOCUMENT_ROOT B = Some None
  ∧ ((∀ k, strdup_option_ok E k = true) →
     (∀ i, strdup_default_ok E i = true) →
     options ≫= last_value B (DOCUMENT_ROOT B) = None
     ∧ default_of B (DOCUMENT_ROOT B) = None).
Proof.
  intros HB H.
  destruct (configuration_is_final B E _ _ _ _ _ _ H) as (ecb & w1 & Hconf & Hc).
  assert (Hroot : config (ctx w1) !! DOCUMENT_ROOT B = Some None).
  { unfold configure in Hconf.
    apply bind_Next_inv in Hconf as ([p' ecb'] & wl & Hl & Hconf).
    apply bind_Next_inv in Hconf as ([] & ws & Hs & Hconf).
    injection Hconf as -> -> ->.
    apply set_options_keeps in Hs.
    assert (config (ctx w1) = config (ctx wl)) as ->.
    { unfold pool_state in Hs. by injection Hs. }
    apply load_configuration_Next in Hl as (wa & _ & Hi).
    unfold initialize_context in Hi.
    apply bind_Next_inv in Hi as (? & wr & _ & Hi).
    apply bind_Next_inv in Hi as ([] & w2 & _ & Hi).
    apply bind_Next_inv in Hi as ([] & w3 & _ & Hi).
    apply bind_Next_inv in Hi as ([] & w4 & H4 & Hi).
    apply (check_document_root_Next B _ _ _ _ HB) in H4 as [-> H4].
    apply bind_Next_inv in Hi as ([] & w5 & H5 & Hi).
    injection H5 as <-. injection Hi as _ <-. exact H4. }
  split; [by rewrite Hc|].
  intros Hopt Hdef.
  destruct (configure_values B E _ _ _ _ _ _ _ Hopt Hdef Hconf) as [_ Hval].
  specialize (Hval (DOCUMENT_ROOT B)).
  unfold config_string in Hval. rewrite Hroot in Hval.
  destruct (options ≫= last_value B (DOCUMENT_ROOT B)); [done|].
  by split.
Qed.

(** ** The caller's thread-local slot (lines 88-93 and every [return]) *)

Section returns_in.
Context (Q : world → Prop).

Lemma returns_in_ret {A} (a : A) : returns_in Q (mret a).
Proof. intros w r w' H. discriminate. Qed.

Lemma returns_in_undefined {A} : returns_in Q (@undefined A).
Proof. intros w r w' H. discriminate. Qed.

Lemma returns_in_get_world : returns_in Q get_world.
Proof. intros w r w' H. discriminate. Qed.

Lemma returns_in_get_ctx : returns_in Q get_ctx.
Proof. intros w r w' H. discriminate. Qed.

Lemma returns_in_modify f : returns_in Q (modify f).
Proof. intros w r w' H. discriminate. Qed.

Lemma returns_in_bind {A B} (m : M A) (f : A → M B) :
  returns_in Q m → (∀ a, returns_in Q (f a)) → returns_in Q (m ≫= f).
Proof.
  intros Hm Hf w r w' H. apply bind_Return_inv in H as [H|(a & w1 & _ & H)].
  - by eapply Hm.
  - by eapply Hf.
Qed.

End returns_in.

(** [pthread_setspecific(sTlsKey, NULL); return r;] *)
Lemma reset_then_return {A} r :
  returns_in reset_last (pthread_setspecific None;; @return_ A r).
Proof.
  intros w r' w' H.
  unfold pthread_setspecific, emit, modify, return_ in H.
  rewrite !bind_unfold in H. cbv beta iota in H. injection H as _ <-.
  split; [done|]. simpl. apply last_snoc.
Qed.

Ltac returns_in_step lemmas :=
  lazymatch goal with
  | |- returns_in _ (mret _) => apply returns_in_ret
  | |- returns_in _ undefined => apply returns_in_undefined
  | |- returns_in _ get_world => apply returns_in_get_world
  | |- returns_in _ get_ctx => apply returns_in_get_ctx
  | |- returns_in _ (modify _) => apply returns_in_modify
  | |- returns_in _ (mbind (λ _, return_ _) (pthread_setspecific None)) =>
      apply reset_then_return
  | |- returns_in _ (mbind _ _) => apply returns_in_bind; [ | intros ? ]
  | |- returns_in _ (match ?x with _ => _ end) => destruct x
  | |- returns_in _ ?c =>
      first [ solve [lemmas]
            | let h := head_of c in unfold h ]
  end.

Ltac returns_in_auto lemmas := repeat (returns_in_step lemmas).

Section slot.
Context (B : build) (E : env).

Lemma abort_start_reset {A} ctxp : returns_in reset_last (@abort_start B A ctxp).
Proof.
  assert (∀ l, returns_in reset_last (free_all l)) as Hfree.
  { induction l; simpl; returns_in_auto ltac:(exact IHl). }
  returns_in_auto ltac:(apply Hfree).
Qed.

Lemma parse_options_reset ctxp l :
  ∀ k, returns_in reset_last (parse_options B E ctxp k l).
Proof.
  induction l as [|name|name value rest IH] using list_pair_ind; intros k; simpl;
    returns_in_auto ltac:(first [apply abort_start_reset | apply IH]).
Qed.

Lemma set_default_values_reset t :
  ∀ i, returns_in reset_last (set_default_values E i t).
Proof.
  induction t as [|[n d] t IH]; intros i; simpl; returns_in_auto ltac:(apply IH).
Qed.

Lemma after_tls_reset ctxp cbs ud :
  returns_in reset_last (init_sync_objects B E ctxp;; copy_callbacks cbs ud).
Proof. returns_in_auto fail. Qed.

Lemma any_refuses_reset cs : returns_in reset_last (any_refuses E cs).
Proof. induction cs; simpl; returns_in_auto ltac:(exact IHcs). Qed.

Lemma set_options_reset ctxp : returns_in reset_last (set_options B E ctxp).
Proof.
  returns_in_auto ltac:(first [apply abort_start_reset | apply any_refuses_reset]).
Qed.

Lemma create_wait_events_reset count :
  ∀ i, returns_in reset_last (create_wait_events E i count).
Proof.
  induction count as [|count IH]; intros i; simpl; returns_in_auto ltac:(apply IH).
Qed.

Lemma prepare_threads_reset ctxp exit_callback :
  returns_in reset_last (prepare_threads B E ctxp exit_callback).
Proof.
  returns_in_auto ltac:(first [ apply abort_start_reset
                              | apply create_wait_events_reset ]).
Qed.

Lemma start_worker_threads_reset ctxp count :
  ∀ i, returns_in reset_last (start_worker_threads B E ctxp i count).
Proof.
  induction count as [|count IH]; intros i; simpl;
    returns_in_auto ltac:(first [apply abort_start_reset | apply IH]).
Qed.

Lemma start_workers_and_return_reset ctxp :
  returns_in reset_last (start_workers_and_return B E ctxp).
Proof. returns_in_auto ltac:(apply start_worker_threads_reset). Qed.

(** The [return] of line 80. *)
Lemma init_thread_local_storage_returns ctxp w r w' :
  init_thread_local_storage E ctxp w = Return r w' →
  r = None ∧ pthread_key_create_ok E = false
  ∧ tls_slot w' = tls_slot w ∧ thread_idx_max w' = thread_idx_max w.
Proof.
  intros H. revert H. run_registration.
  destruct (decide _); [|discriminate].
  destruct (pthread_key_create_ok E); [discriminate|].
  world_simpl. intros [= <- <-]. by destruct (heap w !! ctxp).
Qed.

(** The [return] of line 58. *)
Lemma allocate_context_returns w r w' :
  allocate_context B E w = Return r w' →
  r = None ∧ calloc_ctx_ok E = false
  ∧ tls_slot w' = tls_slot w ∧ thread_idx_max w' = thread_idx_max w.
Proof.
  unfold allocate_context. rewrite bind_unfold, mg_calloc_run.
  destruct (calloc_ctx_ok E); [discriminate|]. by intros [= <- <-].
Qed.

Lemma allocate_context_registry :
  carries (same (λ w, (tls_slot w, thread_idx_max w))) (allocate_context B E).
Proof. carries_auto fail same_leaf. Qed.

End slot.

(** X8.  The caller's registration never outlives the call.  Whenever
    [mg_start] returns, either its last action was to reset the slot of
    the thread-local storage to NULL, or it returned NULL before
    registering the caller at all (no context at line 58, or no key at
    line 73), with the slot and the thread index counter as they were. *)
Theorem caller_slot_is_reset (B : build) (E : env) cbs ud options w0 r w :
  mg_start B E cbs ud options w0 = Return r w →
  (tls_slot w = None ∧ last (trace w) = Some (EvSetSpecific None))
  ∨ (r = None
     ∧ tls_slot w = tls_slot w0
     ∧ thread_idx_max w = thread_idx_max w0
     ∧ (calloc_ctx_ok E = false ∨ pthread_key_create_ok E = false)).
Proof.
  intros H. unfold mg_start in H.
  apply bind_Return_inv in H as [H|([ctxp ecb] & w1 & _ & H)].
  2: { left. apply bind_Return_inv in H as [H|([] & w2 & _ & H)].
       - by eapply prepare_threads_reset.
       - by eapply start_workers_and_return_reset. }
  unfold configure in H.
  apply bind_Return_inv in H as [H|([ctxp ecb] & wl & _ & H)].
  2: { left. apply bind_Return_inv in H as [H|([] & ws & _ & H)].
       - by eapply set_options_reset.
       - discriminate. }
  unfold load_configuration in H.
  apply bind_Return_inv in H as [H|(ctxp & wa & Ha & H)].
  { right. apply allocate_context_returns in H as (-> & Hc & Hs & Hi).
    split_and!; try done. by left. }
  apply allocate_context_registry in Ha. unfold same in Ha.
  injection Ha as Hsa Hia.
  apply bind_Return_inv in H as [H|(ecb & wi & _ & H)]; [|discriminate].
  unfold initialize_context in H.
  apply bind_Return_inv in H as [H|(ecb & wr & _ & H)].
  - unfold register_caller in H.
    apply bind_Return_inv in H as [H|([] & wt & _ & H)].
    + right. apply init_thread_local_storage_returns in H as (-> & Hk & Hs & Hi).
      split_and!; [done | congruence | congruence | by right].
    + left. by eapply after_tls_reset.
  - left.
    apply bind_Return_inv in H as [H|([] & w2 & _ & H)].
    { destruct options as [l|]; [by eapply parse_options_reset | discriminate]. }
    apply bind_Return_inv in H as [H|([] & w3 & _ & H)].
    { by eapply set_default_values_reset. }
    apply bind_Return_inv in H as [H|([] & w4 & _ & H)].
    { assert (returns_in reset_last (check_document_root B ctxp)) as Hc
        by returns_in_auto ltac:(apply abort_start_reset).
      by eapply Hc. }
    apply bind_Return_inv in H as [H|([] & w5 & _ & H)]; discriminate.
Qed.

(** ** The order of events: collaborators, [init_context], threads *)

Lemma world_of_bind {A B} (m : M A) (k : A → M B) w :
  world_of ((m ≫= k) w)
  = match m w with
    | Next a w1 => world_of (k a w1)
    | Return _ w1 => w1
    | Undefined w1 => w1
    end.
Proof. rewrite bind_unfold. by destruct (m w). Qed.

Lemma staged_before f w w' : extends before_launch w w' → staged f w w'.
Proof.
  intros (evs & T & F). exists evs, [], []. rewrite !app_nil_r.
  split_and!; try done. by left.
Qed.

Lemma staged_prefix f w w1 w2 :
  extends before_launch w w1 → staged f w1 w2 → staged f w w2.
Proof.
  intros (evs & T & F) (pre & called & post & T' & Fpre & Fpost & Hc).
  exists (evs ++ pre), called, post. split_and!; try done.
  - by rewrite T', T, <- !app_assoc.
  - by apply Forall_app_2.
Qed.

Lemma staged_launched f w w1 w2 :
  trace w1 = trace w ++ init_call f → extends after_launch w1 w2 →
  staged f w w2.
Proof.
  intros T (evs & T' & F). exists [], (init_call f), evs.
  split; [by rewrite T', T, <- app_assoc|].
  split; [constructor|]. split; [exact F|]. by right.
Qed.

(** A class of events that accepts every event of a release. *)
Ltac accepts_release :=
  let e := fresh "e" in
  let He := fresh "He" in
  intros e He; destruct e; try discriminate He; try reflexivity;
  match goal with
  | v : option mg_workerTLS |- _ => destruct v; [discriminate He | reflexivity]
  end.

Section order.
Context (B : build) (E : env).

Lemma abort_start_before {A} ctxp :
  preserves (extends before_launch) (@abort_start B A ctxp).
Proof.
  preserves_auto ltac:(apply free_all_extends; accepts_release) extends_leaf.
Qed.

Lemma parse_options_before ctxp l :
  ∀ k, preserves (extends before_launch) (parse_options B E ctxp k l).
Proof.
  induction l as [|name|name value rest IH] using list_pair_ind; intros k; simpl;
    preserves_auto ltac:(first [apply abort_start_before | apply IH]) extends_leaf.
Qed.

Lemma set_default_values_before t :
  ∀ i, preserves (extends before_launch) (set_default_values E i t).
Proof.
  induction t as [|[n d] t IH]; intros i; simpl;
    preserves_auto ltac:(apply IH) extends_leaf.
Qed.

Lemma any_refuses_before cs : preserves (extends before_launch) (any_refuses E cs).
Proof. induction cs; simpl; preserves_auto ltac:(exact IHcs) extends_leaf. Qed.

Lemma configure_before cbs ud options :
  preserves (extends before_launch) (configure B E cbs ud options).
Proof.
  preserves_auto ltac:(first [ apply abort_start_before
                             | apply parse_options_before
                             | apply set_default_values_before
                             | apply any_refuses_before ])
                 extends_leaf.
Qed.

Lemma create_wait_events_before count :
  ∀ i, preserves (extends before_launch) (create_wait_events E i count).
Proof.
  induction count as [|count IH]; intros i; simpl;
    preserves_auto ltac:(apply IH) extends_leaf.
Qed.

Lemma ignore_sigpipe_before : preserves (extends before_launch) (ignore_sigpipe B).
Proof. preserves_auto fail extends_leaf. Qed.

Lemma read_worker_thread_count_before ctxp :
  preserves (extends before_launch) (read_worker_thread_count B ctxp).
Proof. preserves_auto ltac:(apply abort_start_before) extends_leaf. Qed.

Lemma allocate_worker_arrays_before ctxp n :
  preserves (extends before_launch) (allocate_worker_arrays B E ctxp n).
Proof.
  preserves_auto ltac:(first [ apply abort_start_before
                             | apply create_wait_events_before ])
                 extends_leaf.
Qed.

Lemma init_timers_before ctxp :
  preserves (extends before_launch) (init_timers B E ctxp).
Proof. preserves_auto ltac:(apply abort_start_before) extends_leaf. Qed.

Lemma abort_start_after {A} ctxp :
  preserves (extends after_launch) (@abort_start B A ctxp).
Proof.
  preserves_auto ltac:(apply free_all_extends; accepts_release) extends_leaf.
Qed.

Lemma start_worker_threads_after ctxp count :
  ∀ i, preserves (extends after_launch) (start_worker_threads B E ctxp i count).
Proof.
  induction count as [|count IH]; intros i; simpl;
    preserves_auto ltac:(first [apply abort_start_after | apply IH]) extends_leaf.
Qed.

Lemma threads_after ctxp :
  preserves (extends after_launch)
    (start_master_thread E;; start_workers_and_return B E ctxp).
Proof.
  preserves_auto ltac:(apply start_worker_threads_after) extends_leaf.
Qed.

(** Lines 181-295 from the state lines 57-179 leave. *)
Lemma launch_staged ctxp exit_callback w1 :
  staged (init_context (callbacks (ctx w1))) w1
    (world_of ((prepare_threads B E ctxp exit_callback;;
                start_workers_and_return B E ctxp) w1)).
Proof.
  set (f := init_context (callbacks (ctx w1))).
  unfold prepare_threads.
  rewrite bind_assoc, world_of_bind.
  pose proof (ignore_sigpipe_before w1) as Pa.
  pose proof (ignore_sigpipe_identity B w1) as Ia.
  destruct (ignore_sigpipe B w1) as [[] wa|r wa|wa]; try by apply staged_before.
  specialize (Ia _ _ eq_refl). simpl in Pa.
  apply (staged_prefix _ _ _ _ Pa).
  rewrite bind_assoc, world_of_bind.
  pose proof (read_worker_thread_count_before ctxp wa) as Pb.
  pose proof (read_worker_thread_count_identity B ctxp wa) as Ib.
  destruct (read_worker_thread_count B ctxp wa) as [n wb|r wb|wb];
    try by apply staged_before.
  specialize (Ib _ _ eq_refl). simpl in Pb.
  apply (staged_prefix _ _ _ _ Pb).
  rewrite bind_assoc, world_of_bind.
  pose proof (allocate_worker_arrays_before ctxp n wb) as Pc.
  pose proof (allocate_worker_arrays_identity B E ctxp n wb) as Ic.
  destruct (allocate_worker_arrays B E ctxp n wb) as [[] wc|r wc|wc];
    try by apply staged_before.
  specialize (Ic _ _ eq_refl). simpl in Pc.
  apply (staged_prefix _ _ _ _ Pc).
  rewrite bind_assoc, world_of_bind.
  pose proof (init_timers_before ctxp wc) as Pd.
  pose proof (init_timers_identity B E ctxp wc) as Id.
  destruct (init_timers B E ctxp wc) as [[] wd|r wd|wd];
    try by apply staged_before.
  specialize (Id _ _ eq_refl). simpl in Pd.
  apply (staged_prefix _ _ _ _ Pd).
  rewrite bind_assoc, world_of_bind.
  pose proof (init_user_context_Next exit_callback wd) as He.
  destruct (init_user_context exit_callback wd) as [[] we|r we|we] eqn:Hu.
  2,3: unfold init_user_context, get_ctx, emit, modify_ctx, modify in Hu;
       rewrite !bind_unfold in Hu; cbv beta iota in Hu;
       destruct (init_context (callbacks (ctx wd)));
       rewrite ?bind_unfold in Hu; discriminate Hu.
  destruct (He _ _ eq_refl) as [_ Te].
  assert (init_context (callbacks (ctx wd)) = f) as Hf.
  { unfold same in *.
    assert (identity_fields wd = identity_fields w1) as Hid by congruence.
    unfold identity_fields in Hid. injection Hid as Hcb _ _ _.
    unfold f. by rewrite Hcb. }
  rewrite Hf in Te.
  eapply staged_launched; [exact Te|].
  apply (threads_after ctxp we).
Qed.

End order.

(** X9.  The order of a run.  Whatever the outcome, the calls [mg_start]
    makes come in three parts: those of lines 57-246 (the options, the
    collaborators, the worker arrays, the timers), then the call of the
    user's [init_context], if the caller gave one, then those of lines
    255-295 (the master, the workers and what a failure there releases).
    [init_context] is called at most once, after every collaborator and
    before any thread is started, and no thread is started before line 249
    is reached. *)
Theorem init_context_comes_between (B : build) (E : env) cbs ud options w0 :
  ∃ pre called post,
    trace (world_of (mg_start B E cbs ud options w0))
    = trace w0 ++ pre ++ called ++ post
    ∧ Forall (λ e, before_launch e = true) pre
    ∧ Forall (λ e, after_launch e = true) post
    ∧ (called = [] ∧ post = [] ∨ called = init_call (cbs ≫= init_context)).
Proof.
  change (staged (cbs ≫= init_context) w0
            (world_of (mg_start B E cbs ud options w0))).
  unfold mg_start. rewrite world_of_bind.
  pose proof (configure_before B E cbs ud options w0) as P.
  pose proof (configure_identity B E cbs ud options w0) as I.
  destruct (configure B E cbs ud options w0) as [[ctxp ecb] w1|r w1|w1];
    try by apply staged_before.
  destruct (I _ _ _ eq_refl) as (_ & _ & Hid).
  unfold identity_fields in Hid. injection Hid as Hcb _ _ _.
  apply (staged_prefix _ _ _ _ P).
  pose proof (launch_staged B E ctxp ecb w1) as L.
  by rewrite Hcb in L.
Qed.

(** ** Timers that cannot be initialized (lines 239-246) *)

Section timers.
Context (B : build) (E : env).

Lemma init_timers_fails ctxp :
  USE_TIMERS B = true → timers_init_ok E = false →
  never_next (init_timers B E ctxp).
Proof.
  intros HB HE. unfold init_timers. rewrite HB, HE. never_next_auto.
Qed.

Lemma prepare_threads_stops_at_timers ctxp exit_callback w1 :
  USE_TIMERS B = true → timers_init_ok E = false →
  (∀ a w2, prepare_threads B E ctxp exit_callback w1 ≠ Next a w2)
  ∧ extends before_launch w1 (world_of (prepare_threads B E ctxp exit_callback w1)).
Proof.
  intros HB HE. unfold prepare_threads. split.
  - intros a w2 H.
    apply bind_Next_inv in H as (? & wa & _ & H).
    apply bind_Next_inv in H as (? & wb & _ & H).
    apply bind_Next_inv in H as (? & wc & _ & H).
    apply bind_Next_inv in H as (? & wd & Hd & _).
    by apply (init_timers_fails ctxp HB HE) in Hd.
  - rewrite world_of_bind.
    pose proof (ignore_sigpipe_before B w1) as Pa.
    destruct (ignore_sigpipe B w1) as [[] wa|r wa|wa]; try done.
    simpl in Pa. etrans; [exact Pa|].
    rewrite world_of_bind.
    pose proof (read_worker_thread_count_before B ctxp wa) as Pb.
    destruct (read_worker_thread_count B ctxp wa) as [n wb|r wb|wb]; try done.
    simpl in Pb. etrans; [exact Pb|].
    rewrite world_of_bind.
    pose proof (allocate_worker_arrays_before B E ctxp n wb) as Pc.
    destruct (allocate_worker_arrays B E ctxp n wb) as [[] wc|r wc|wc]; try done.
    simpl in Pc. etrans; [exact Pc|].
    rewrite world_of_bind.
    pose proof (init_timers_before B E ctxp wc) as Pd.
    destruct (init_timers B E ctxp wc) as [[] wd|r wd|wd] eqn:Hd; try done.
    by apply (init_timers_fails ctxp HB HE) in Hd.
Qed.

End timers.

(** X10.  Timers that cannot be initialized.  In a build with
    [USE_TIMERS], when [timers_init] fails no call of [mg_start] returns
    a context, and whatever the outcome the user's [init_context] is not
    called and no thread is started. *)
Theorem failed_timers_stop_the_start (B : build) (E : env) cbs ud options w0 :
  USE_TIMERS B = true → timers_init_ok E = false →
  (∀ r w, mg_start B E cbs ud options w0 = Return r w → r = None)
  ∧ ∃ evs, trace (world_of (mg_start B E cbs ud options w0)) = trace w0 ++ evs
           ∧ Forall (λ e, before_launch e = true) evs.
Proof.
  intros HB HE. split.
  - intros r w H. unfold mg_start in H.
    apply bind_Return_inv in H as [H|([ctxp ecb] & w1 & _ & H)].
    { by apply configure_returns_null in H. }
    apply bind_Return_inv in H as [H|([] & w2 & Hprep & _)].
    { by apply prepare_threads_returns_null in H. }
    by apply (prepare_threads_stops_at_timers B E ctxp ecb w1 HB HE) in Hprep.
  - change (extends before_launch w0 (world_of (mg_start B E cbs ud options w0))).
    unfold mg_start. rewrite world_of_bind.
    pose proof (configure_before B E cbs ud options w0) as P.
    destruct (configure B E cbs ud options w0) as [[ctxp ecb] w1|r w1|w1]; try done.
    simpl in P. etrans; [exact P|].
    destruct (prepare_threads_stops_at_timers B E ctxp ecb w1 HB HE) as [Hn He].
    rewrite world_of_bind.
    destruct (prepare_threads B E ctxp ecb w1) as [[] w2|r w2|w2]; try done.
    exfalso. by eapply Hn.
Qed.

(** ** The events of the workers (alternative queue, lines 229-235) *)

Lemma event_errors_app evs1 evs2 :
  event_errors (evs1 ++ evs2) = event_errors evs1 ++ event_errors evs2.
Proof. apply omap_app. Qed.

Lemma event_errors_reported l evs :
  cries evs = ErrorCreatingEvent <$> l → event_errors evs = l.
Proof.
  revert l. induction evs as [|e evs IH]; intros l H.
  - by destruct l.
  - destruct e as [m| | | | | | | | | | | | | | |]; try (simpl in *; by apply IH).
    destruct l as [|i l]; [discriminate H|].
    simpl in H. injection H as -> H. simpl. f_equal. by apply IH.
Qed.

Section events.
Context (E : env).

Lemma failed_events_cons i count :
  failed_events E i (S count)
  = (if decide (event_create E i = 0%Z) then [i] else [])
    ++ failed_events E (S i) count.
Proof.
  unfold failed_events. simpl. rewrite filter_cons.
  by destruct (decide (event_create E i = 0%Z)).
Qed.

(** Lines 229-235: one event per worker, stored whatever it is; a zero
    handle is reported and the loop goes on. *)
Lemma create_wait_events_run count :
  ∀ i w p evs,
    client_wait_events (ctx w) = Some p →
    heap w !! p = Some (BWaitEvents evs) →
    i + count ≤ length evs →
    ∃ w' evs' tr,
      create_wait_events E i count w = Next tt w'
      ∧ ctx w' = ctx w ∧ next_ptr w' = next_ptr w ∧ threads w' = threads w
      ∧ heap w' = <[p:=BWaitEvents evs']> (heap w)
      ∧ length evs' = length evs
      ∧ (∀ j, evs' !! j = if decide (i ≤ j < i + count)
                           then Some (event_create E j) else evs !! j)
      ∧ trace w' = trace w ++ tr
      ∧ cries tr = ErrorCreatingEvent <$> failed_events E i count.
Proof.
  induction count as [|count IH]; intros i w p evs Hp Hh Hlen.
  - exists w, evs, []. rewrite app_nil_r. split_and!; try done.
    + by rewrite insert_id.
    + intros j. by rewrite decide_False by lia.
  - cbn [create_wait_events].
    rewrite bind_unfold. unfold emit at 1, modify at 1. cbv beta iota.
    set (w1 := set_trace _ w).
    rewrite bind_unfold.
    assert (H1 : store_wait_event i (event_create E i) w1
                 = Next tt (set_heap (<[p:=BWaitEvents (<[i:=event_create E i]> evs)]>
                                        (heap w1)) w1)).
    { unfold store_wait_event, get_ctx, get_world, modify.
      rewrite !bind_unfold. cbv beta iota. simpl. rewrite Hp, Hh.
      by rewrite decide_True by lia. }
    rewrite H1. cbv beta iota.
    set (w2 := set_heap _ w1).
    rewrite bind_unfold.
    set (msg := if decide (event_create E i = 0%Z)
                then [EvCry (ErrorCreatingEvent i)] else []).
    assert (H2 : (if decide (event_create E i = 0%Z)
                  then mg_cry (ErrorCreatingEvent i) else mret ()) w2
                 = Next tt (set_trace (trace w2 ++ msg) w2)).
    { unfold msg. destruct (decide _); [reflexivity|].
      unfold mret, M_ret. rewrite app_nil_r. by destruct w2. }
    rewrite H2. cbv beta iota.
    set (w3 := set_trace _ w2).
    destruct (IH (S i) w3 p (<[i:=event_create E i]> evs))
      as (w' & evs' & tr & H & C & N & T & Hh' & L & I & Tr & Er).
    { exact Hp. }
    { simpl. apply lookup_insert_eq. }
    { rewrite length_insert. lia. }
    exists w', evs', ([EvEventCreate i (event_create E i)] ++ msg ++ tr).
    split; [exact H|]. split_and!; try done.
    + rewrite Hh'. simpl. by rewrite insert_insert_eq.
    + by rewrite L, length_insert.
    + intros j. rewrite I. destruct (decide (S i ≤ j < S i + count)).
      * by rewrite decide_True by lia.
      * destruct (decide (j = i)) as [->|].
        -- rewrite decide_True by lia. apply list_lookup_insert_eq. lia.
        -- rewrite decide_False by lia. by apply list_lookup_insert_ne.
    + rewrite Tr. simpl. by rewrite <- !app_assoc.
    + rewrite failed_events_cons, !cries_app, Er, fmap_app.
      unfold msg. destruct (decide _); reflexivity.
Qed.


End events.

Lemma bind_ret_l {A B} (a : A) (k : A → M B) w : (mret a ≫= k) w = k a w.
Proof. reflexivity. Qed.

Section alternative.
Context (B : build) (E : env).

(** Lines 196-237 of the alternative queue, the handle list and the
    event array allocated. *)
Lemma allocate_worker_arrays_alt ctxp n w :
  ALTERNATIVE_QUEUE B = true → (0 < n ≤ INT_MAX)%Z →
  calloc_workerthreadids_ok E = true →
  calloc_client_wait_events_ok E = true →
  ∃ w' tr,
    allocate_worker_arrays B E ctxp n w = Next tt w'
    ∧ cfg_worker_threads (ctx w') = n
    ∧ workerthreadids (ctx w') = Some (next_ptr w)
    ∧ client_wait_events (ctx w') = Some (S (next_ptr w))
    ∧ client_socks (ctx w')
      = (if calloc_client_socks_ok E then Some (S (S (next_ptr w))) else None)
    ∧ heap w' !! S (next_ptr w)
      = Some (BWaitEvents (event_create E <$> seq 0 (Z.to_nat n)))
    ∧ S (next_ptr w) < next_ptr w'
    ∧ trace w' = trace w ++ tr
    ∧ cries tr = ErrorCreatingEvent <$> failed_events E 0 (Z.to_nat n).
Proof.
  intros HB Hn Hids Hevs.
  unfold allocate_worker_arrays. rewrite decide_True by lia.
  rewrite bind_unfold. unfold modify_ctx at 1, modify at 1. cbv beta iota.
  rewrite bind_unfold. unfold get_ctx at 1. cbv beta iota. cbv zeta.
  simpl. rewrite to_unsigned_small by lia.
  rewrite bind_unfold, mg_calloc_run, Hids. cbv beta iota. world_simpl.
  rewrite bind_unfold. unfold modify_ctx at 1, modify at 1. cbv beta iota.
  rewrite bind_ret_l, HB.
  rewrite bind_unfold, mg_calloc_run, Hevs. cbv beta iota. world_simpl.
  rewrite bind_unfold. unfold modify_ctx at 1, modify at 1. cbv beta iota.
  rewrite bind_ret_l.
  rewrite bind_unfold, mg_calloc_run.
  destruct (calloc_client_socks_ok E); cbv beta iota; world_simpl;
    (rewrite bind_unfold; unfold modify_ctx at 1, modify at 1; cbv beta iota);
    (rewrite bind_unfold; unfold get_ctx at 1; cbv beta iota);
    world_simpl; cbn [client_wait_events set_client_socks set_client_wait_events];
    rewrite bind_ret_l.
  all: match goal with |- context [create_wait_events E 0 _ ?wk] =>
         destruct (create_wait_events_run E (Z.to_nat n) 0 wk (S (next_ptr w))
                     (replicate (Z.to_nat n) 0%Z))
           as (w' & evs' & tr & H & C & N & T & Hh & L & I & Tr & Er);
         [ reflexivity
         | world_simpl;
           rewrite ?(lookup_insert_ne _ (S (S (next_ptr w)))) by lia;
           apply lookup_insert_eq
         | rewrite length_replicate; lia
         | ]
       end.
  all: assert (Hev : evs' = event_create E <$> seq 0 (Z.to_nat n));
    [ apply list_eq; intros j; rewrite I, list_lookup_fmap;
      destruct (decide (0 ≤ j < 0 + Z.to_nat n));
      [ rewrite lookup_seq_lt by lia; reflexivity
      | rewrite lookup_seq_ge by lia; apply lookup_replicate_None; lia ]
    | subst evs' ].
  - exists w', ([EvAlloc (BThreadIds (replicate (Z.to_nat n) 0)) (Some (next_ptr w));
                 EvAlloc (BWaitEvents (replicate (Z.to_nat n) 0%Z))
                   (Some (S (next_ptr w)));
                 EvAlloc (BClientSocks (Z.to_nat n)) (Some (S (S (next_ptr w))))]
                ++ tr).
    split; [exact H|]. rewrite C, N, Hh, Tr. world_simpl.
    split_and!; try done; try lia.
    + apply lookup_insert_eq.
    + by rewrite <- !app_assoc.
  - exists w', ([EvAlloc (BThreadIds (replicate (Z.to_nat n) 0)) (Some (next_ptr w));
                 EvAlloc (BWaitEvents (replicate (Z.to_nat n) 0%Z))
                   (Some (S (next_ptr w)));
                 EvAlloc (BClientSocks (Z.to_nat n)) None]
                ++ tr).
    split; [exact H|]. rewrite C, N, Hh, Tr. world_simpl.
    split_and!; try done; try lia.
    + apply lookup_insert_eq.
    + by rewrite <- !app_assoc.
Qed.

End alternative.

#[global] Instance stays_preorder keep N : PreOrder (stays keep N).
Proof.
  split.
  - intros w HN. done.
  - intros w1 w2 w3 H12 H23 HN.
    destruct (H12 HN) as (N2 & S2). destruct (H23 N2) as (N3 & S3).
    split; [done | eauto].
Qed.

Ltac stays_leaf :=
  let w := fresh "w" in
  let HN := fresh "HN" in
  intros w HN; simpl;
  split;
  [ lia
  | let x := fresh "x" in
    let b := fresh "b" in
    let Hx := fresh "Hx" in
    let Hk := fresh "Hk" in
    let Hb := fresh "Hb" in
    intros x b Hx Hk Hb; simpl; rewrite ?lookup_insert_ne by lia; exact Hb ].

Lemma event_errors_quiet evs :
  Forall (λ e, no_event_error e = true) evs → event_errors evs = [].
Proof.
  induction 1 as [|e evs He _ IH]; [done|].
  destruct e as [m| | | | | | | | | | | | | | |]; try exact IH.
  destruct m; try discriminate He; exact IH.
Qed.

Lemma new_events_app w0 w evs : trace w = trace w0 ++ evs → new_events w0 w = evs.
Proof. intros T. unfold new_events. by rewrite T, drop_app_length. Qed.

Section stays.
Context (B : build) (E : env) (keep : block → bool) (N : nat).
Hypothesis keep_handles : ∀ ids, keep (BThreadIds ids) = false.

Lemma store_thread_id_stays i tid : carries (stays keep N) (store_thread_id i tid).
Proof.
  intros w a w' H HN.
  unfold store_thread_id, get_ctx, get_world, modify, undefined in H.
  rewrite !bind_unfold in H. cbv beta iota in H.
  destruct (workerthreadids (ctx w)) as [p|]; [|discriminate].
  destruct (heap w !! p) as [[]|] eqn:Hp; try discriminate.
  destruct (decide _); [|discriminate].
  injection H as _ <-. simpl. split; [done|].
  intros x b Hx Hk Hb. rewrite lookup_insert_ne; [done|].
  intros <-. rewrite Hp in Hb. injection Hb as <-. by rewrite keep_handles in Hk.
Qed.

Lemma spawn_worker_stays i : carries (stays keep N) (spawn_worker E i).
Proof. carries_auto ltac:(apply store_thread_id_stays) stays_leaf. Qed.

Lemma worker_not_created_stays ctxp i wta w w' :
  (∀ a, wta = Some a → N ≤ a) →
  worker_not_created B E ctxp i wta w = Next tt w' →
  stays keep N w w'.
Proof.
  intros Hwta H HN. unfold worker_not_created in H.
  destruct (mg_free_others wta w) as (w1 & H1 & C1 & _ & N1 & _ & Hh1).
  rewrite (bind_Next_l _ _ _ _ _ H1) in H.
  destruct (decide (0 < i)).
  - unfold mg_cry, emit, modify in H. injection H as <-. simpl.
    rewrite N1. split; [done|].
    intros x b Hx Hk Hb. rewrite Hh1; [done|].
    intros Heq. specialize (Hwta x Heq). lia.
  - by apply cry_abort_never_next in H.
Qed.

Lemma start_worker_threads_stays ctxp count :
  ∀ i, carries (stays keep N) (start_worker_threads B E ctxp i count).
Proof.
  induction count as [|count IH]; intros i w a w' H.
  - injection H as _ <-. reflexivity.
  - simpl in H. apply bind_Next_inv in H as ([wta started] & w1 & H1 & H).
    pose proof (spawn_worker_stays i _ _ _ H1) as K1.
    pose proof (spawn_worker_block _ _ _ _ _ _ H1) as Hwta.
    destruct started.
    + etrans; [exact K1 | by eapply IH].
    + intros HN. destruct a.
      destruct (K1 HN) as (N1 & S1).
      destruct (worker_not_created_stays ctxp i wta w1 w') as (N2 & S2);
        try done.
      { intros x Hx. specialize (Hwta x Hx). lia. }
      split; [done | eauto].
Qed.

Lemma start_workers_and_return_stays ctxp w p w' :
  start_workers_and_return B E ctxp w = Return (Some p) w' → stays keep N w w'.
Proof.
  intros H. unfold start_workers_and_return in H.
  rewrite bind_unfold in H. unfold get_ctx at 1 in H. cbv beta iota in H.
  apply bind_Return_inv in H as [H|([] & w1 & H1 & H)].
  { by apply start_worker_threads_returns_null in H. }
  apply start_worker_threads_stays in H1.
  unfold pthread_setspecific, emit, modify, return_ in H.
  rewrite !bind_unfold in H. cbv beta iota in H. injection H as _ <-.
  etrans; [exact H1|]. intros HN. done.
Qed.

End stays.

Section event_messages.
Context (B : build) (E : env).

Lemma abort_start_no_event_error {A} ctxp :
  preserves (extends no_event_error) (@abort_start B A ctxp).
Proof.
  preserves_auto ltac:(apply free_all_extends; accepts_release) extends_leaf.
Qed.

Lemma parse_options_no_event_error ctxp l :
  ∀ k, preserves (extends no_event_error) (parse_options B E ctxp k l).
Proof.
  induction l as [|name|name value rest IH] using list_pair_ind; intros k; simpl;
    preserves_auto ltac:(first [apply abort_start_no_event_error | apply IH])
                   extends_leaf.
Qed.

Lemma set_default_values_no_event_error t :
  ∀ i, preserves (extends no_event_error) (set_default_values E i t).
Proof.
  induction t as [|[n d] t IH]; intros i; simpl;
    preserves_auto ltac:(apply IH) extends_leaf.
Qed.

Lemma any_refuses_no_event_error cs :
  preserves (extends no_event_error) (any_refuses E cs).
Proof. induction cs; simpl; preserves_auto ltac:(exact IHcs) extends_leaf. Qed.

Lemma configure_no_event_error cbs ud options :
  preserves (extends no_event_error) (configure B E cbs ud options).
Proof.
  preserves_auto ltac:(first [ apply abort_start_no_event_error
                             | apply parse_options_no_event_error
                             | apply set_default_values_no_event_error
                             | apply any_refuses_no_event_error ])
                 extends_leaf.
Qed.

Lemma start_worker_threads_no_event_error ctxp count :
  ∀ i, preserves (extends no_event_error) (start_worker_threads B E ctxp i count).
Proof.
  induction count as [|count IH]; intros i; simpl;
    preserves_auto ltac:(first [apply abort_start_no_event_error | apply IH])
                   extends_leaf.
Qed.

Lemma start_workers_and_return_no_event_error ctxp :
  preserves (extends no_event_error) (start_workers_and_return B E ctxp).
Proof.
  preserves_auto ltac:(apply start_worker_threads_no_event_error) extends_leaf.
Qed.

Lemma after_arrays_no_event_error ctxp exit_callback :
  preserves (extends no_event_error)
    (init_timers B E ctxp;; init_user_context exit_callback;;
     start_master_thread E).
Proof.
  preserves_auto ltac:(apply abort_start_no_event_error) extends_leaf.
Qed.

Lemma before_arrays_no_event_error ctxp :
  preserves (extends no_event_error)
    (ignore_sigpipe B;; read_worker_thread_count B ctxp).
Proof.
  preserves_auto ltac:(apply abort_start_no_event_error) extends_leaf.
Qed.

(** Lines 196-216, when they go through with workers to start: both
    arrays were allocated. *)
Lemma allocate_worker_arrays_oracles ctxp n w w' :
  (0 < n ≤ INT_MAX)%Z →
  allocate_worker_arrays B E ctxp n w = Next tt w' →
  calloc_workerthreadids_ok E = true
  ∧ (ALTERNATIVE_QUEUE B = true → calloc_client_wait_events_ok E = true).
Proof.
  intros Hn H. unfold allocate_worker_arrays in H.
  rewrite decide_True in H by lia.
  inv_bind H. unfold modify_ctx, modify in H0. injection H0 as <- <-.
  inv_bind H. unfold get_ctx in H0. injection H0 as <- <-.
  cbv zeta in H. simpl in H. rewrite to_unsigned_small in H by lia.
  inv_bind H. rewrite mg_calloc_run in H0.
  destruct (calloc_workerthreadids_ok E); injection H0 as <- <-.
  2: { inv_bind H. inv_bind H. by apply cry_abort_never_next in H1. }
  split; [done|]. intros HB. rewrite HB in H.
  inv_bind H. unfold modify_ctx, modify in H0. injection H0 as <- <-.
  inv_bind H. injection H0 as <- <-.
  inv_bind H. rewrite mg_calloc_run in H0.
  destruct (calloc_client_wait_events_ok E); [done|]. injection H0 as <- <-.
  inv_bind H. inv_bind H. exfalso. revert H1. apply never_next_bind_r.
  intros _. apply never_next_bind_r. intros _. never_next_auto.
Qed.

End event_messages.

(** X11.  The events of the workers.  In a build with the alternative
    queue, after a successful start with workers configured,
    [ctx->client_wait_events] points to an array that holds, for each
    worker in turn, the handle [event_create] returned for it; a zero
    handle is stored like any other: it is reported as "Error creating
    worker event i", once for each such worker and in their order, and
    the start goes on. *)
Theorem worker_events_are_created (B : build) (E : env) cbs ud options w0 p w :
  ALTERNATIVE_QUEUE B = true →
  mg_start B E cbs ud options w0 = Return (Some p) w →
  (0 < cfg_worker_threads (ctx w))%Z →
  ∃ q, client_wait_events (ctx w) = Some q
       ∧ heap w !! q
         = Some (BWaitEvents
                   (event_create E <$> seq 0 (Z.to_nat (cfg_worker_threads (ctx w)))))
       ∧ event_errors (new_events w0 w)
         = failed_events E 0 (Z.to_nat (cfg_worker_threads (ctx w))).
Proof.
  intros HB H Hpos. unfold mg_start in H.
  apply bind_Return_inv in H as [H|([ctxp ecb] & w1 & Hconf & H)].
  { by apply configure_returns_null in H. }
  apply bind_Return_inv in H as [H|([] & w2 & Hprep & H)].
  { by apply prepare_threads_returns_null in H. }
  destruct (configure_ready B E _ _ _ _ _ _ _ Hconf) as [Hready _].
  destruct (prepare_threads_Next B E _ _ _ _ Hready Hprep)
    as (s & n' & _ & Hatoi & _ & Hpool & _).
  (* the last phase *)
  pose proof (start_workers_and_return_no_event_error B E ctxp w2) as P3.
  rewrite H in P3. simpl in P3. destruct P3 as (evs3 & T3 & F3).
  pose proof (start_workers_and_return_stays B E is_wait_events (next_ptr w2)
                (λ _, eq_refl) ctxp w2 p w H) as S3.
  destruct (S3 (le_n _)) as [_ S3'].
  assert (Hctx : ctx w = ctx w2).
  { destruct (start_workers_and_return_run B E ctxp _ w2 Hpool) as [HA HB'].
    pose proof (spawned_le E 0 (length (replicate (Z.to_nat n') 0))) as Hle.
    destruct (decide (spawned E 0 (length (replicate (Z.to_nat n') 0))
                      = length (replicate (Z.to_nat n') 0)
                      ∨ 0 < spawned E 0 (length (replicate (Z.to_nat n') 0))))
      as [Hk|Hk].
    - destruct (HA Hk) as (w' & ids & evs & H' & C & _). congruence.
    - destruct HB' as (w' & evs & H' & _); [lia | lia |]. congruence. }
  rewrite Hctx in *.
  (* lines 181-256 *)
  pose proof (configure_no_event_error B E cbs ud options w0) as P0.
  rewrite Hconf in P0. simpl in P0. destruct P0 as (evs0 & T0 & F0).
  unfold prepare_threads in Hprep.
  pose proof (before_arrays_no_event_error B ctxp w1) as P1.
  apply bind_Next_inv in Hprep as ([] & wa & Ha & Hprep).
  apply bind_Next_inv in Hprep as (n & wb & Hb & Hprep).
  rewrite (bind_Next_l _ _ _ _ _ Ha), Hb in P1. simpl in P1.
  destruct P1 as (evs1 & T1 & F1).
  apply ignore_sigpipe_keeps in Ha. apply pair_equal_spec in Ha as [Pa _].
  apply read_worker_thread_count_Next in Hb as (-> & s' & Hs' & Hatoi' & Hmax).
  apply (context_ready_pool_state _ _ _ Pa) in Hready.
  apply bind_Next_inv in Hprep as ([] & wc & Hc & Hprep).
  pose proof (after_arrays_no_event_error B E ctxp ecb wc) as P2.
  rewrite Hprep in P2. simpl in P2. destruct P2 as (evs2 & T2 & F2).
  apply bind_Next_inv in Hprep as ([] & wd & Hd & Hprep).
  apply init_timers_keeps in Hd. apply pair_equal_spec in Hd as [Pd _].
  apply bind_Next_inv in Hprep as ([] & we & He & Hprep).
  apply init_user_context_keeps in He. apply pair_equal_spec in He as [Pe _].
  destruct (start_master_thread_run E we) as (w2' & Hm & Pm & _).
  rewrite Hm in Hprep. injection Hprep as ->.
  assert (Ppool : pool_state w2 = pool_state wc) by congruence.
  assert (Hn : (0 < n ≤ INT_MAX)%Z).
  { apply atoi_range in Hatoi'. split; [|lia].
    destruct (decide (0 < n)%Z) as [|Hle]; [done|]. exfalso.
    unfold allocate_worker_arrays in Hc. rewrite decide_False in Hc by lia.
    injection Hc as <-.
    destruct Hready as (_ & _ & _ & Hz & _).
    unfold pool_state in Ppool. injection Ppool as _ _ _ Hcfg _ _ _. lia. }
  destruct (allocate_worker_arrays_oracles B E ctxp n wa wc Hn Hc) as [Hids Hevs].
  destruct (allocate_worker_arrays_alt B E ctxp n wa HB Hn Hids (Hevs HB))
    as (wc' & tr & Hrun & Ccfg & _ & Cq & _ & Hheap & Hlt & Ttr & Cr).
  rewrite Hrun in Hc. injection Hc as ->.
  unfold pool_state in Ppool. injection Ppool as Ph Pn _ Pcfg _ Pq _.
  exists (S (next_ptr wa)). rewrite Pq, Pcfg, Ccfg. split; [exact Cq|].
  split.
  - apply S3'; [lia | done | by rewrite Ph].
  - rewrite (new_events_app w0 w (evs0 ++ evs1 ++ tr ++ evs2 ++ evs3)).
    + rewrite !event_errors_app.
      rewrite (event_errors_quiet _ F0), (event_errors_quiet _ F1),
        (event_errors_quiet _ F2), (event_errors_quiet _ F3).
      rewrite (event_errors_reported _ _ Cr). simpl. by rewrite app_nil_r.
    + rewrite T3, T2, Ttr, T1, T0. by rewrite <- !app_assoc.
Qed.

(** ** Worker arrays that cannot be allocated (lines 196-216) *)

Section array_failures.
Context (B : build) (E : env).



End array_failures.


(** ** Runs of the sample build *)

Lemma index_from_range table name :
  ∀ i, index_from i table name = (-1)%Z
       ∨ (i ≤ index_from i table name < i + Z.of_nat (length table))%Z.
Proof.
  induction table as [|[n d] table IH]; intros i; simpl; [by left|].
  destruct (String.eqb n name); [right; lia|].
  destruct (IH (i + 1)%Z) as [->|H]; [by left | right; lia].
Qed.

Lemma sample_index_in_range alternative_queue :
  index_in_range (sample_build alternative_queue).
Proof. intros name. apply (index_from_range sample_options name 0). Qed.

(** C1, at a failing input: the classic build, no options (50 workers by
    default), every call succeeds except the creation of worker 0.
    [mg_start] returns NULL and no block is left, yet the master thread
    started at line 256 is still running: nothing between line 256 and
    the [return NULL] of line 288 stops it. *)
Theorem first_worker_failure_leaves_master_running :
  ∃ w, mg_start (sample_build false) (scenario (λ _, true) true (λ _, false))
         None 0 None boot = Return None w
       ∧ heap w = ∅
       ∧ cries (trace w) = [CannotCreateThreads 11]
       ∧ threads w = [master_thread].
Proof. eexists. split; [vm_compute; reflexivity|]. by vm_compute. Qed.

(** C2, at a failing input: the alternative-queue build, one worker, and
    [mg_calloc] fails for the socket-slot array of line 218 only.  Line
    220 tests [client_wait_events] instead of [client_socks], so the
    failure goes unnoticed: [mg_start] returns its context with
    [client_socks] NULL, reports nothing and releases nothing. *)
Theorem socket_slot_failure_goes_unnoticed :
  ∃ w, mg_start (sample_build true) (scenario (λ _, true) false (λ _, true))
         None 0 (Some ["num_threads"; "1"]) boot = Return (Some 1) w
       ∧ client_socks (ctx w) = None
       ∧ cries (trace w) = []
       ∧ heap w !! 1 = Some BContext
       ∧ worker_handles w = Some [2]
       ∧ threads w = [master_thread; worker_thread 0].
Proof. eexists. split; [vm_compute; reflexivity|]. by vm_compute. Qed.

(** C6, at a failing input: the caller asks for one worker thread and the
    copy of that value at line 142 fails.  The NULL is stored unchecked,
    line 150 then stores the default, and [mg_start] succeeds with 50
    workers configured instead of the caller's 1. *)
Theorem failed_copy_gives_way_to_default :
  ∃ w, mg_start (sample_build false) (scenario (λ k, negb (Nat.eqb k 0)) true (λ _, true))
         None 0 (Some ["num_threads"; "1"]) boot = Return (Some 1) w
       ∧ config_string w 1 = Some "50"
       ∧ cfg_worker_threads (ctx w) = 50%Z
       ∧ cries (trace w) = [].
Proof. eexists. split; [vm_compute; reflexivity|]. by vm_compute. Qed.

(** C8, at two failing inputs: the option [num_threads] is given twice,
    "4" then "8".  When the copy of the first value fails, the second
    occurrence finds NULL and no warning is given; when the copy of the
    second value fails, the warning is given and the first value freed,
    but what is stored is NULL and then the default, not the later
    value. *)
Theorem failed_copy_breaks_duplicate_handling :
  (∃ w, mg_start (sample_build false) (scenario (λ k, negb (Nat.eqb k 0)) true (λ _, true))
          None 0 (Some ["num_threads"; "4"; "num_threads"; "8"]) boot
        = Return (Some 1) w
        ∧ cries (trace w) = []
        ∧ config_string w 1 = Some "8")
  ∧ (∃ w, mg_start (sample_build false) (scenario (λ k, negb (Nat.eqb k 1)) true (λ _, true))
            None 0 (Some ["num_threads"; "4"; "num_threads"; "8"]) boot
          = Return (Some 1) w
          ∧ cries (trace w) = [DuplicateOption "num_threads"]
          ∧ config_string w 1 = Some "50").
Proof.
  split; eexists; (split; [vm_compute; reflexivity|]); by vm_compute.
Qed.

(** C7, at a failing input: the caller asks for 4294967297 worker
    threads, far more than the maximum of 65536.  The value does not fit
    an [int] and [atoi] makes 1 of it; line 189 compares that 1 with the
    maximum, and [mg_start] succeeds with a single worker, reporting
    nothing. *)
Theorem oversized_count_is_not_rejected :
  ∃ w, mg_start (sample_build false) fair_weather None 0
         (Some ["num_threads"; "4294967297"]) boot = Return (Some 1) w
       ∧ config_string w 1 = Some "4294967297"
       ∧ (4294967297 > MAX_WORKER_THREADS (sample_build false))%Z
       ∧ atoi "4294967297" = 1%Z
       ∧ cfg_worker_threads (ctx w) = 1%Z
       ∧ cries (trace w) = []
       ∧ worker_handles w = Some [2]
       ∧ threads w = [master_thread; worker_thread 0].
Proof. eexists. split; [vm_compute; reflexivity|]. by vm_compute. Qed.

Lemma rejected_options_fail_start_witness :
  ∃ w, mg_start (sample_build false) fair_weather None 0
         (Some ["no_such_option"; "1"]) boot = Return None w
       ∧ threads w = threads boot
       ∧ extends no_worker_pool boot w.
Proof.
  apply rejected_options_fail_start.
  - apply sample_index_in_range.
  - left. exists "no_such_option". split; [|reflexivity].
    simpl. apply elem_of_cons. by left.
Defined.

Lemma later_worker_failure_is_tolerated_witness :
  ∃ w ids, mg_start (sample_build false) (scenario (λ _, true) true (λ i, Nat.eqb i 0))
             None 0 (Some ["num_threads"; "3"]) boot = Return (Some 1) w
           ∧ threads w = [master_thread; worker_thread 0]
           ∧ worker_handles w = Some ids
           ∧ ids !! 0 = Some 2.
Proof.
  set (E := scenario (λ _, true) true (λ i, Nat.eqb i 0)).
  set (opts := Some ["num_threads"; "3"]).
  set (w1 := world_of (configure (sample_build false) E None 0 opts boot)).
  set (w2 := world_of (prepare_threads (sample_build false) E 1 None w1)).
  destruct (later_worker_failure_is_tolerated (sample_build false) E None 0 opts
              boot 1 None w1 w2 1)
    as (w & ids & evs & H & _ & _ & _ & _ & T & Hh & _ & I1 & _).
  - vm_compute. reflexivity.
  - vm_compute. reflexivity.
  - lia.
  - vm_compute. reflexivity.
  - intros i Hi. replace i with 0 by lia. reflexivity.
  - reflexivity.
  - exists w, ids. split; [exact H|]. split; [exact T|]. split; [exact Hh|].
    apply (I1 0). lia.
Defined.



Lemma tls_key_is_created_once_witness :
  ∃ w cs,
    run_schedule [0; 1; 1; 0] (boot, enter <$> [(fair_weather, 1); (fair_weather, 2)])
    = (w, cs)
    ∧ caller_pc <$> cs = [passed true; passed false]
    ∧ tls_keys w = 1.
Proof.
  destruct (tls_key_is_created_once boot [(fair_weather, 1); (fair_weather, 2)]
              [0; 1; 1; 0]) as (w & cs & Hrun & _ & _ & _ & _ & Hone);
    [reflexivity | vm_compute; discriminate |].
  exists w, cs. split; [exact Hrun|].
  assert (Hpc : caller_pc <$> cs = [passed true; passed false]).
  { vm_compute in Hrun. injection Hrun as _ <-. reflexivity. }
  split; [exact Hpc|].
  rewrite Hone; [reflexivity| | |done].
  - repeat constructor.
  - change (Forall ((λ pc, final pc = true) ∘ caller_pc) cs).
    apply Forall_fmap. rewrite Hpc. repeat constructor.
Defined.

Lemma first_worker_failure_keeps_master_witness :
  ∃ w, mg_start (sample_build false) (scenario (λ _, true) true (λ _, false))
         None 0 (Some ["num_threads"; "2"]) boot = Return None w
       ∧ heap w !! 1 = None
       ∧ threads w = [master_thread].
Proof.
  set (E := scenario (λ _, true) true (λ _, false)).
  set (opts := Some ["num_threads"; "2"]).
  set (w1 := world_of (configure (sample_build false) E None 0 opts boot)).
  set (w2 := world_of (prepare_threads (sample_build false) E 1 None w1)).
  destruct (first_worker_failure_keeps_master (sample_build false) E None 0 opts
              boot 1 None w1 w2)
    as (w & evs & H & N & _ & _ & _ & _ & T).
  - vm_compute. reflexivity.
  - vm_compute. reflexivity.
  - vm_compute. reflexivity.
  - reflexivity.
  - exists w. split; [exact H|]. split; [exact N | exact T].
Defined.

Lemma option_values_are_stored_witness :
  ∃ w, mg_start (sample_build false) fair_weather None 0
         (Some ["num_threads"; "4"; "num_threads"; "8"]) boot = Return (Some 1) w
       ∧ config_string w 0 = None
       ∧ config_string w 1 = Some "8"
       ∧ config_string w 2 = Some "8080".
Proof.
  set (opts := Some ["num_threads"; "4"; "num_threads"; "8"]).
  set (w := world_of (mg_start (sample_build false) fair_weather None 0 opts boot)).
  assert (Hrun : mg_start (sample_build false) fair_weather None 0 opts boot
                 = Return (Some 1) w) by (vm_compute; reflexivity).
  pose proof (option_values_are_stored (sample_build false) fair_weather None 0 opts
                boot 1 w (λ _, eq_refl) (λ _, eq_refl) Hrun) as Hval.
  exists w. split; [exact Hrun|].
  split_and!; rewrite Hval; reflexivity.
Defined.

Lemma duplicate_options_are_replaced_witness :
  ∃ evs,
    trace (world_of (configure (sample_build false) fair_weather None 0
                       (Some ["num_threads"; "4"; "num_threads"; "8"]) boot))
    = trace boot ++ evs
    ∧ cries evs = [DuplicateOption "num_threads"].
Proof.
  set (l := ["num_threads"; "4"; "num_threads"; "8"]).
  set (w1 := world_of (configure (sample_build false) fair_weather None 0 (Some l) boot)).
  destruct (duplicate_options_are_replaced (sample_build false) fair_weather None 0 l
              boot 1 None w1) as (evs & T & Cr & _).
  - reflexivity.
  - reflexivity.
  - intros q _. apply lookup_empty.
  - vm_compute. reflexivity.
  - exists evs. split; [exact T|]. rewrite Cr. vm_compute. reflexivity.
Defined.

Lemma all_workers_start_witness :
  ∃ w, mg_start (sample_build false) fair_weather None 0
         (Some ["num_threads"; "2"]) boot = Return (Some 1) w
       ∧ heap w !! 1 = Some BContext
       ∧ threads w = [master_thread; worker_thread 0; worker_thread 1]
       ∧ worker_handles w = Some [2; 3].
Proof.
  set (opts := Some ["num_threads"; "2"]).
  set (w1 := world_of (configure (sample_build false) fair_weather None 0 opts boot)).
  set (w2 := world_of (prepare_threads (sample_build false) fair_weather 1 None w1)).
  destruct (all_workers_start (sample_build false) fair_weather None 0 opts boot
              1 None w1 w2)
    as (w & ids & evs & H & L & C & _ & _ & _ & T & N & W & I).
  - vm_compute. reflexivity.
  - vm_compute. reflexivity.
  - intros i _. reflexivity.
  - assert (Hlen : length ids = 2).
    { assert (Hc : cfg_worker_threads (ctx w2) = 2%Z) by (vm_compute; reflexivity).
      rewrite C, Hc in N. lia. }
    destruct ids as [|a [|b [|c ids]]]; try discriminate Hlen.
    pose proof (I 0 ltac:(simpl; lia)) as I0.
    pose proof (I 1 ltac:(simpl; lia)) as I1.
    vm_compute in I0, I1. injection I0 as ->. injection I1 as ->.
    exists w. split; [exact H|]. split; [exact L|]. split; [exact T|].
    apply W. discriminate.
Defined.

Lemma started_context_witness :
  ∃ w, mg_start (sample_build false) fair_weather (Some (Callbacks (Some 3) (Some 4)))
         5 None boot = Return (Some 1) w
       ∧ user_data (ctx w) = 5%Z
       ∧ callbacks (ctx w) = Callbacks (Some 3) (Some 4)
       ∧ context_type (ctx w) = 1%Z
       ∧ auth_nonce_mask (ctx w) = 14%Z.
Proof.
  set (cbs := Some (Callbacks (Some 3) (Some 4))).
  set (w := world_of (mg_start (sample_build false) fair_weather cbs 5 None boot)).
  assert (Hrun : mg_start (sample_build false) fair_weather cbs 5 None boot
                 = Return (Some 1) w) by (vm_compute; reflexivity).
  destruct (started_context (sample_build false) fair_weather cbs 5 None boot 1 w Hrun)
    as (_ & _ & U & C & T & N & _).
  exists w. split; [exact Hrun|]. split; [exact U|]. split; [exact C|].
  split; [exact T | exact N].
Defined.


Lemma document_root_stays_unset_witness :
  ∃ w, mg_start (sample_build_with false false true) fair_weather None 0
         (Some ["num_threads"; "2"]) boot = Return (Some 1) w
       ∧ config (ctx w) !! 0 = Some None.
Proof.
  set (opts := Some ["num_threads"; "2"]).
  set (w := world_of (mg_start (sample_build_with false false true) fair_weather
                        None 0 opts boot)).
  assert (Hrun : mg_start (sample_build_with false false true) fair_weather
                   None 0 opts boot = Return (Some 1) w) by (vm_compute; reflexivity).
  destruct (document_root_stays_unset (sample_build_with false false true) fair_weather
              None 0 opts boot 1 w eq_refl Hrun) as [H _].
  exists w. split; [exact Hrun | exact H].
Defined.

Lemma caller_slot_is_reset_witness :
  ∃ w, mg_start (sample_build false) fair_weather None 0
         (Some ["no_such_option"; "1"]) boot = Return None w
       ∧ tls_slot w = None
       ∧ last (trace w) = Some (EvSetSpecific None).
Proof.
  set (opts := Some ["no_such_option"; "1"]).
  set (w := world_of (mg_start (sample_build false) fair_weather None 0 opts boot)).
  assert (Hrun : mg_start (sample_build false) fair_weather None 0 opts boot
                 = Return None w) by (vm_compute; reflexivity).
  destruct (caller_slot_is_reset (sample_build false) fair_weather None 0 opts boot
              None w Hrun) as [[S L]|(_ & _ & _ & [F|F])].
  - exists w. split; [exact Hrun|]. split; [exact S | exact L].
  - discriminate F.
  - discriminate F.
Defined.

Lemma failed_timers_stop_the_start_witness :
  (∀ r w, mg_start (sample_build_with false true false)
            (weather true true true true true false (λ _, 1%Z))
            (Some (Callbacks (Some 3) None)) 0 None boot = Return r w → r = None)
  ∧ ∃ evs,
      trace (world_of (mg_start (sample_build_with false true false)
                         (weather true true true true true false (λ _, 1%Z))
                         (Some (Callbacks (Some 3) None)) 0 None boot))
      = trace boot ++ evs
      ∧ Forall (λ e, before_launch e = true) evs.
Proof.
  apply (failed_timers_stop_the_start (sample_build_with false true false)
           (weather true true true true true false (λ _, 1%Z))).
  - reflexivity.
  - reflexivity.
Defined.

Lemma worker_events_are_created_witness :
  ∃ w q, mg_start (sample_build true)
           (weather true true true true true true second_event_fails) None 0
           (Some ["num_threads"; "3"]) boot = Return (Some 1) w
         ∧ client_wait_events (ctx w) = Some q
         ∧ heap w !! q = Some (BWaitEvents [1; 0; 3]%Z)
         ∧ event_errors (new_events boot w) = [1].
Proof.
  set (E := weather true true true true true true second_event_fails).
  set (opts := Some ["num_threads"; "3"]).
  set (w := world_of (mg_start (sample_build true) E None 0 opts boot)).
  assert (Hrun : mg_start (sample_build true) E None 0 opts boot
                 = Return (Some 1) w) by (vm_compute; reflexivity).
  assert (Hn : cfg_worker_threads (ctx w) = 3%Z) by (vm_compute; reflexivity).
  destruct (worker_events_are_created (sample_build true) E None 0 opts boot 1 w
              eq_refl Hrun) as (q & Q & Hq & Er).
  - rewrite Hn. lia.
  - rewrite Hn in Hq, Er.
    exists w, q. split; [exact Hrun|]. split; [exact Q|].
    split; [exact Hq | exact Er].
Defined.


Lemma collaborators_run_in_order_witness :
  ∃ evs w,
    trace (world_of (mg_start (sample_build false) ports_refused None 0 None boot))
    = trace boot ++ evs
    ∧ collaborator_calls evs
      = [(set_gpass_option, true); (set_ssl_option, true); (set_ports_option, false)]
    ∧ mg_start (sample_build false) ports_refused None 0 None boot = Return None w.
Proof.
  destruct (collaborators_run_in_order (sample_build false) ports_refused None 0 None boot)
    as (evs & T & _ & _ & F & U & L & _).
  set (w1 := world_of (load_configuration (sample_build false) ports_refused
                         None 0 None boot)).
  assert (Hload : load_configuration (sample_build false) ports_refused None 0 None boot
                  = Next (1, None) w1) by (vm_compute; reflexivity).
  apply U in Hload. clear U.
  assert (Hcalls : collaborator_calls evs
                   = [(set_gpass_option, true); (set_ssl_option, true);
                      (set_ports_option, false)]).
  { destruct (collaborator_calls evs) as [|[c1 b1] [|[c2 b2] [|[c3 b3] [|? ?]]]];
      try discriminate Hload.
    injection Hload as -> -> ->.
    apply Forall_cons in F as [F1 F]. apply Forall_cons in F as [F2 F].
    apply Forall_cons in F as [F3 _]. simpl in F1, F2, F3.
    by rewrite F1, F2, F3. }
  destruct (L 2 set_ports_option) as (_ & p & w & H & _).
  { by rewrite Hcalls. }
  exists evs, w. split; [exact T|]. split; [exact Hcalls | exact H].
Defined.
